(** * UniTable: a shallow embedding of [Code/pylib/unitable.py]

    Text is a list of Unicode code points, integers are [Z], Python
    exceptions are values of [exn], and the methods of the [UniTable]
    class are computations in a state-and-exception monad over the record
    of instance attributes. *)

From Stdlib Require Import Ascii String List ZArith NArith Bool Lia.
From Stdlib Require Import DecimalString.
Import ListNotations.
Local Open Scope Z_scope.

(** ** Text *)

Definition char := Z.
Definition str := list char.

(** Reads an ASCII literal as a text. *)
Definition s2l (s : string) : str :=
  map (fun a => Z.of_N (N_of_ascii a)) (list_ascii_of_string s).

Definition ESC : char := 27.
Definition NL : char := 10.
Definition TAB : char := 9.
Definition SP : char := 32.

Definition in_range (lo hi c : char) : bool := (lo <=? c) && (c <=? hi).

Fixpoint str_eqb (a b : str) : bool :=
  match a, b with
  | [], [] => true
  | x :: a', y :: b' => (x =? y) && str_eqb a' b'
  | _, _ => false
  end.

Fixpoint starts_with (p s : str) : bool :=
  match p, s with
  | [], _ => true
  | x :: p', y :: s' => (x =? y) && starts_with p' s'
  | _ :: _, [] => false
  end.

(** [s * n] on Python strings: a non-positive count gives the empty text. *)
Definition str_mul (s : str) (n : Z) : str := List.concat (repeat s (Z.to_nat n)).

(** [sep.join(parts)] *)
Fixpoint join (sep : str) (parts : list str) : str :=
  match parts with
  | [] => []
  | [p] => p
  | p :: rest => p ++ sep ++ join sep rest
  end.

(** [s.split(c)] for a one-character separator: never returns the empty
    list, and keeps empty fields. *)
Fixpoint split_on (c : char) (s : str) : list str :=
  match s with
  | [] => [[]]
  | x :: rest =>
      if x =? c then [] :: split_on c rest
      else match split_on c rest with
           | [] => [[x]]
           | w :: ws => (x :: w) :: ws
           end
  end.

(** [str.isspace] for one code point (the characters [str.strip] and
    [str.split] treat as blank). *)
Definition py_isspace (c : char) : bool :=
  in_range 9 13 c || in_range 28 32 c || (c =? 133) || (c =? 160)
  || (c =? 5760) || in_range 8192 8202 c || (c =? 8232) || (c =? 8233)
  || (c =? 8239) || (c =? 8287) || (c =? 12288).

(** [s.strip() == ""] *)
Definition strip_is_empty (s : str) : bool := forallb py_isspace s.

(** [text.split()]: the maximal runs of non-blank characters. *)
Fixpoint split_ws_aux (cur : str) (s : str) : list str :=
  match s with
  | [] => match cur with [] => [] | _ => [rev cur] end
  | c :: rest =>
      if py_isspace c
      then match cur with
           | [] => split_ws_aux [] rest
           | _ => rev cur :: split_ws_aux [] rest
           end
      else split_ws_aux (c :: cur) rest
  end.

Definition split_ws (s : str) : list str := split_ws_aux [] s.

(** ** Display width: [wcwidth.wcswidth]

    The [wcwidth] package is an external collaborator.  Its per-character
    function answers -1 for control characters, 0 for NUL and for
    zero-width or combining marks, 2 for East-Asian wide and full-width
    characters and 1 otherwise; the tables below keep the main blocks of
    each class.  Its [wcswidth] adds the cells of the characters, except
    that it looks at the neighbours of joiners, variation selectors,
    combining marks and some emoji; the model adds the cells one by one.
    Package and model agree on the texts made of regular characters
    ([regular_char] below), and the properties that need the width of a
    text to be the sum of its parts are stated for these. *)
Definition wcwidth (c : char) : Z :=
  if c =? 0 then 0
  else if (c <? 32) || in_range 127 159 c then -1
  else if in_range 768 879 c || in_range 8203 8207 c
          || in_range 8232 8238 c || in_range 8288 8291 c
          || in_range 65024 65039 c then 0
  else if in_range 4352 4447 c || in_range 11904 42191 c
          || in_range 44032 55203 c || in_range 63744 64255 c
          || in_range 65072 65135 c || in_range 65280 65376 c
          || in_range 65504 65510 c || in_range 131072 262141 c then 2
  else 1.

(** [wcswidth(s)]: the sum of the cells, or -1 as soon as one character
    has no width. *)
Fixpoint wcswidth_from (acc : Z) (s : str) : Z :=
  match s with
  | [] => acc
  | c :: rest =>
      let w := wcwidth c in
      if w <? 0 then -1 else wcswidth_from (acc + w) rest
  end.

Definition wcswidth (s : str) : Z := wcswidth_from 0 s.

(** The characters that the display width counts one by one, in the
    package as in the model: printable ASCII and box drawing, one cell
    each; CJK ideographs, Hangul syllables and full-width forms, two
    cells each. *)
Definition one_cell_char (c : char) : bool :=
  in_range 32 126 c || in_range 9472 9599 c.

Definition regular_char (c : char) : bool :=
  one_cell_char c || in_range 19968 40959 c || in_range 44032 55203 c
  || in_range 65281 65376 c.

(** ** The regular expressions of the module

    Every pattern used by the module begins with the escape character and
    consumes a run of parameter bytes, a run of intermediate bytes and one
    final byte.  The three classes are pairwise disjoint, so the greedy
    match is the only match and each pattern is a function of the text at
    the match position. *)
Definition is_param (c : char) : bool := in_range 48 63 c.    (* [0-?]  *)
Definition is_inter (c : char) : bool := in_range 32 47 c.    (* [ -/]  *)
Definition is_final (c : char) : bool := in_range 64 126 c.   (* [@-~]  *)
Definition is_fe (c : char) : bool :=                        (* [@-Z\\-_] *)
  in_range 64 90 c || in_range 92 95 c.

Fixpoint count_while (p : char -> bool) (s : str) : nat :=
  match s with
  | c :: rest => if p c then S (count_while p rest) else O
  | [] => O
  end.

(** Length of the match of [[0-?]*[ -/]*[@-~]] at the head of [s]. *)
Definition csi_body_len (s : str) : option nat :=
  let np := count_while is_param s in
  let ni := count_while is_inter (skipn np s) in
  match skipn (np + ni) s with
  | c :: _ => if is_final c then Some (S (np + ni)) else None
  | [] => None
  end.

(** [StringLengthCalculator.ansi_escape]:
    [\x1B(?:[@-Z\\-_]|\[[0-?]*[ -/]*[@-~])], length of the match at the
    head of [s]. *)
Definition ansi_escape_match (s : str) : option nat :=
  match s with
  | e :: c :: rest =>
      if e =? ESC then
        if is_fe c then Some 2%nat
        else if c =? 91 then option_map (fun n => S (S n)) (csi_body_len rest)
        else None
      else None
  | _ => None
  end.

(** [pattern.sub('', s)], scanning left to right; [skip] counts the
    characters of the current match still to be dropped. *)
Fixpoint sub_from (skip : nat) (s : str) : str :=
  match s with
  | [] => []
  | c :: rest =>
      match skip with
      | S k => sub_from k rest
      | O =>
          match ansi_escape_match s with
          | Some n => sub_from (pred n) rest
          | None => c :: sub_from O rest
          end
      end
  end.

Definition ansi_escape_sub (s : str) : str := sub_from O s.

Module StringLengthCalculator.
(** [StringLengthCalculator.len] *)
Definition len (s : str) : Z := wcswidth (ansi_escape_sub s).
End StringLengthCalculator.

(** [UniTable.ansi_norm] *)
Definition ansi_norm : str := [ESC; 91; 48; 109].

(** [(?!.*\033\[0m)] fails exactly when a reset starts somewhere in the
    rest of the current line ([.] does not cross a newline). *)
Fixpoint reset_ahead (s : str) : bool :=
  match s with
  | [] => false
  | c :: rest =>
      starts_with ansi_norm s || (negb (c =? NL) && reset_ahead rest)
  end.

(** [UniTable.non_reset_not_followed_by_reset]:
    [(\033\[(?:(?!0m)[0-?]*[ -/]*[@-~]))(?!.*\033\[0m)], length of the
    match at the head of [s]. *)
Definition non_reset_not_followed_by_reset_match (s : str) : option nat :=
  match s with
  | e :: b :: rest =>
      if (e =? ESC) && (b =? 91) && negb (starts_with [48; 109] rest) then
        match csi_body_len rest with
        | Some n => if reset_ahead (skipn n rest) then None else Some (S (S n))
        | None => None
        end
      else None
  | _ => None
  end.

(** [pattern.findall(s)]: the matches, left to right, without overlap. *)
Fixpoint findall_from (skip : nat) (s : str) : list str :=
  match s with
  | [] => []
  | _ :: rest =>
      match skip with
      | S k => findall_from k rest
      | O =>
          match non_reset_not_followed_by_reset_match s with
          | Some n => firstn n s :: findall_from (pred n) rest
          | None => findall_from O rest
          end
      end
  end.

Definition findall_unterminated (s : str) : list str := findall_from O s.

(** ** Exceptions *)

Inductive exn : Type :=
| ArraySizeError (expected : list Z) (got : Z)
    (* "array should contain %d elements not %s", "string/array should
       contain either 4 or 15 characters not %d" *)
| WidthTooLow (max_width minimum : Z)
    (* ValueError: "max_width (..) too low to render data.
       The minimum for this table would be .." *)
| ValueError (msg : string)
| TypeError
| IndexError
| KeyError
| AttributeError
| FallbackToText
| NotModelled.
    (* the input leaves the fragment of Python covered here *)

Inductive result (A : Type) : Type :=
| Ok (a : A)
| Raise (e : exn).
Arguments Ok {A} a.
Arguments Raise {A} e.

(** ** Word wrapping: [textwrap.wrap]

    [textwrapper] falls back on the standard library's [textwrap.wrap]
    with its default options: tabs expanded to columns of 8, every ASCII
    blank replaced by a space, long words broken, blanks dropped at the
    ends of lines.  Lengths are counted with [len].  The module follows
    the branch taken when the optional [cjkwrap] package is absent.  A
    text that fits the width is kept on one line wherever its break
    opportunities are; the break opportunities after hyphens are outside
    the model, so a text holding a hyphen that does not fit the width is
    answered by [NotModelled]. *)
Module textwrap.

Definition is_ws (c : char) : bool := in_range 9 13 c || (c =? 32).

Fixpoint expandtabs_from (col : Z) (s : str) : str :=
  match s with
  | [] => []
  | c :: rest =>
      if c =? TAB then
        let incr := 8 - col mod 8 in
        str_mul [SP] incr ++ expandtabs_from (col + incr) rest
      else if (c =? NL) || (c =? 13) then c :: expandtabs_from 0 rest
      else c :: expandtabs_from (col + 1) rest
  end.

Definition _munge_whitespace (text : str) : str :=
  map (fun c => if is_ws c then SP else c) (expandtabs_from 0 text).

(** [_split]: maximal runs of blanks and of non-blanks, in order. *)
Fixpoint _split_from (cur : str) (s : str) : list str :=
  match s with
  | [] => match cur with [] => [] | _ => [rev cur] end
  | c :: rest =>
      match cur with
      | [] => _split_from [c] rest
      | d :: _ =>
          if Bool.eqb (is_ws c) (is_ws d) then _split_from (c :: cur) rest
          else rev cur :: _split_from [c] rest
      end
  end.

Definition _split (text : str) : list str := _split_from [] text.

Definition len (s : str) : Z := Z.of_nat (length s).

(** The inner [while chunks] loop: move chunks to the line while they
    fit. *)
Fixpoint fill_line (width cur_len : Z) (cur_line chunks : list str)
  : list str * Z * list str :=
  match chunks with
  | c :: rest =>
      if cur_len + len c <=? width
      then fill_line width (cur_len + len c) (cur_line ++ [c]) rest
      else (cur_line, cur_len, chunks)
  | [] => (cur_line, cur_len, [])
  end.

Definition _handle_long_word (chunks cur_line : list str) (cur_len width : Z)
  : list str * list str :=
  let space_left := if width <? 1 then 1 else width - cur_len in
  match chunks with
  | chunk :: rest =>
      let n := Z.to_nat space_left in
      (skipn n chunk :: rest, cur_line ++ [firstn n chunk])
  | [] => (chunks, cur_line)
  end.

Definition drop_last_blank (cur_line : list str) : list str :=
  match rev cur_line with
  | l :: before => if strip_is_empty l then rev before else cur_line
  | [] => cur_line
  end.

(** One turn of the outer loop of [_wrap_chunks]. *)
Definition one_line (width : Z) (lines chunks : list str)
  : list str * list str :=
  let chunks :=
    match chunks, lines with
    | c :: rest, _ :: _ => if strip_is_empty c then rest else chunks
    | _, _ => chunks
    end in
  let '(cur_line, cur_len, chunks) := fill_line width 0 [] chunks in
  let '(chunks, cur_line) :=
    match chunks with
    | c :: _ =>
        if width <? len c
        then _handle_long_word chunks cur_line cur_len width
        else (chunks, cur_line)
    | [] => (chunks, cur_line)
    end in
  let cur_line := drop_last_blank cur_line in
  match cur_line with
  | [] => (lines, chunks)
  | _ => (lines ++ [List.concat cur_line], chunks)
  end.

Fixpoint _wrap_chunks_loop (fuel : nat) (width : Z) (lines chunks : list str)
  : result (list str) :=
  match chunks with
  | [] => Ok lines
  | _ =>
      match fuel with
      | O => Raise NotModelled
      | S fuel' =>
          let '(lines', chunks') := one_line width lines chunks in
          _wrap_chunks_loop fuel' width lines' chunks'
      end
  end.

Definition _wrap_chunks (width : Z) (chunks : list str) : result (list str) :=
  if width <=? 0 then Raise (ValueError "invalid width (must be > 0)")
  else _wrap_chunks_loop (S (length (List.concat chunks) + length chunks))
         width [] chunks.

Definition wrap (text : str) (width : Z) : result (list str) :=
  let munged := _munge_whitespace text in
  if existsb (Z.eqb 45) text && (0 <? width) && (width <? len munged)
  then Raise NotModelled
  else _wrap_chunks width (_split munged).

End textwrap.

(** [textwrapper(txt, width)] *)
Definition textwrapper (txt : str) (width : Z) : result (list str) :=
  textwrap.wrap txt width.

Module ColorAwareWrapper.

(** The loop of [ColorAwareWrapper.wrap] over the words. *)
Fixpoint wrap_loop (width : Z) (line result : list str) (words : list str)
  : list str * list str :=
  match words with
  | [] => (line, result)
  | word :: rest =>
      let line_length := StringLengthCalculator.len (join [SP] line) in
      let word_length := StringLengthCalculator.len word in
      if width <? line_length + word_length + Z.of_nat (length line)
      then wrap_loop width [word] (result ++ [join [SP] line]) rest
      else wrap_loop width (line ++ [word]) result rest
  end.

(** [ColorAwareWrapper.wrap]: the wrapped text as one string. *)
Definition wrap (text : str) (width : Z) : str :=
  let '(line, result) := wrap_loop width [] [] (split_ws text) in
  join [NL] (match line with [] => result | _ => result ++ [join [SP] line] end).

End ColorAwareWrapper.

(** ** The table object *)

(** The instance attributes of [UniTable].  An attribute that the code
    tests with [hasattr] is an [option]; [_row_size] starts as Python's
    [None]; [_max_width] holds 0 where the code stores [False]. *)
Record UniTable : Type := mkUniTable {
  _has_border : bool;
  _has_header : bool;
  _row_size : option Z;
  _header : list str;
  _rows : list (list str);
  _style : str;
  _max_width : Z;
  _deco : Z;
  _pad : Z;
  _precision : Z;
  _char_ew : str; _char_ns : str;
  _char_se : str; _char_sw : str; _char_ne : str; _char_nw : str;
  _char_nse : str; _char_nsw : str; _char_sew : str; _char_new : str;
  _char_nsew : str;
  _char_hew : str; _char_hnse : str; _char_hnsw : str; _char_hnsew : str;
  _dtype : option (list char);
  _width : option (list Z);
  _header_align : option (list char);
  _align : option (list char);
  _valign : option (list char)
}.

(** ** State and exceptions

    A method is a function from the object to its outcome and the object
    it leaves behind; an exception keeps the mutations made before it. *)
Definition M (A : Type) : Type := UniTable -> result A * UniTable.

Definition ret {A} (a : A) : M A := fun s => (Ok a, s).
Definition raise {A} (e : exn) : M A := fun s => (Raise e, s).
Definition bind {A B} (m : M A) (k : A -> M B) : M B :=
  fun s => match m s with
           | (Ok a, s') => k a s'
           | (Raise e, s') => (Raise e, s')
           end.
Definition get : M UniTable := fun s => (Ok s, s).
Definition modify (f : UniTable -> UniTable) : M unit := fun s => (Ok tt, f s).
Definition lift {A} (r : result A) : M A := fun s => (r, s).

Declare Scope M_scope.
Delimit Scope M_scope with M.
Notation "x <- c ;; k" := (bind c (fun x => k))
  (at level 61, c at next level, right associativity) : M_scope.
Notation "c ;;; k" := (bind c (fun _ => k))
  (at level 61, right associativity) : M_scope.
Local Open Scope M_scope.

(** [for x in xs: body(x)] *)
Fixpoint for_each {A} (xs : list A) (body : A -> M unit) : M unit :=
  match xs with
  | [] => ret tt
  | x :: rest => body x ;;; for_each rest body
  end.

Definition set_row_size v (t : UniTable) : UniTable :=
  mkUniTable t.(_has_border) t.(_has_header) v t.(_header) t.(_rows) t.(_style)
    t.(_max_width) t.(_deco) t.(_pad) t.(_precision)
    t.(_char_ew) t.(_char_ns) t.(_char_se) t.(_char_sw) t.(_char_ne) t.(_char_nw)
    t.(_char_nse) t.(_char_nsw) t.(_char_sew) t.(_char_new) t.(_char_nsew)
    t.(_char_hew) t.(_char_hnse) t.(_char_hnsw) t.(_char_hnsew)
    t.(_dtype) t.(_width) t.(_header_align) t.(_align) t.(_valign).

Definition set_header_field v (t : UniTable) : UniTable :=
  mkUniTable t.(_has_border) t.(_has_header) t.(_row_size) v t.(_rows) t.(_style)
    t.(_max_width) t.(_deco) t.(_pad) t.(_precision)
    t.(_char_ew) t.(_char_ns) t.(_char_se) t.(_char_sw) t.(_char_ne) t.(_char_nw)
    t.(_char_nse) t.(_char_nsw) t.(_char_sew) t.(_char_new) t.(_char_nsew)
    t.(_char_hew) t.(_char_hnse) t.(_char_hnsw) t.(_char_hnsew)
    t.(_dtype) t.(_width) t.(_header_align) t.(_align) t.(_valign).

Definition set_rows_field v (t : UniTable) : UniTable :=
  mkUniTable t.(_has_border) t.(_has_header) t.(_row_size) t.(_header) v t.(_style)
    t.(_max_width) t.(_deco) t.(_pad) t.(_precision)
    t.(_char_ew) t.(_char_ns) t.(_char_se) t.(_char_sw) t.(_char_ne) t.(_char_nw)
    t.(_char_nse) t.(_char_nsw) t.(_char_sew) t.(_char_new) t.(_char_nsew)
    t.(_char_hew) t.(_char_hnse) t.(_char_hnsw) t.(_char_hnsew)
    t.(_dtype) t.(_width) t.(_header_align) t.(_align) t.(_valign).

Definition set_style_field v (t : UniTable) : UniTable :=
  mkUniTable t.(_has_border) t.(_has_header) t.(_row_size) t.(_header) t.(_rows) v
    t.(_max_width) t.(_deco) t.(_pad) t.(_precision)
    t.(_char_ew) t.(_char_ns) t.(_char_se) t.(_char_sw) t.(_char_ne) t.(_char_nw)
    t.(_char_nse) t.(_char_nsw) t.(_char_sew) t.(_char_new) t.(_char_nsew)
    t.(_char_hew) t.(_char_hnse) t.(_char_hnsw) t.(_char_hnsew)
    t.(_dtype) t.(_width) t.(_header_align) t.(_align) t.(_valign).

Definition set_has_border_field v (t : UniTable) : UniTable :=
  mkUniTable v t.(_has_header) t.(_row_size) t.(_header) t.(_rows)
    t.(_style) t.(_max_width) t.(_deco) t.(_pad) t.(_precision)
    t.(_char_ew) t.(_char_ns) t.(_char_se) t.(_char_sw) t.(_char_ne) t.(_char_nw)
    t.(_char_nse) t.(_char_nsw) t.(_char_sew) t.(_char_new) t.(_char_nsew)
    t.(_char_hew) t.(_char_hnse) t.(_char_hnsw) t.(_char_hnsew)
    t.(_dtype) t.(_width) t.(_header_align) t.(_align) t.(_valign).

Definition set_has_header_field v (t : UniTable) : UniTable :=
  mkUniTable t.(_has_border) v t.(_row_size) t.(_header) t.(_rows)
    t.(_style) t.(_max_width) t.(_deco) t.(_pad) t.(_precision)
    t.(_char_ew) t.(_char_ns) t.(_char_se) t.(_char_sw) t.(_char_ne) t.(_char_nw)
    t.(_char_nse) t.(_char_nsw) t.(_char_sew) t.(_char_new) t.(_char_nsew)
    t.(_char_hew) t.(_char_hnse) t.(_char_hnsw) t.(_char_hnsew)
    t.(_dtype) t.(_width) t.(_header_align) t.(_align) t.(_valign).

Definition set_max_width_field v (t : UniTable) : UniTable :=
  mkUniTable t.(_has_border) t.(_has_header) t.(_row_size) t.(_header) t.(_rows)
    t.(_style) v t.(_deco) t.(_pad) t.(_precision)
    t.(_char_ew) t.(_char_ns) t.(_char_se) t.(_char_sw) t.(_char_ne) t.(_char_nw)
    t.(_char_nse) t.(_char_nsw) t.(_char_sew) t.(_char_new) t.(_char_nsew)
    t.(_char_hew) t.(_char_hnse) t.(_char_hnsw) t.(_char_hnsew)
    t.(_dtype) t.(_width) t.(_header_align) t.(_align) t.(_valign).

Definition set_deco_field v (t : UniTable) : UniTable :=
  mkUniTable t.(_has_border) t.(_has_header) t.(_row_size) t.(_header) t.(_rows)
    t.(_style) t.(_max_width) v t.(_pad) t.(_precision)
    t.(_char_ew) t.(_char_ns) t.(_char_se) t.(_char_sw) t.(_char_ne) t.(_char_nw)
    t.(_char_nse) t.(_char_nsw) t.(_char_sew) t.(_char_new) t.(_char_nsew)
    t.(_char_hew) t.(_char_hnse) t.(_char_hnsw) t.(_char_hnsew)
    t.(_dtype) t.(_width) t.(_header_align) t.(_align) t.(_valign).

Definition set_pad_field v (t : UniTable) : UniTable :=
  mkUniTable t.(_has_border) t.(_has_header) t.(_row_size) t.(_header) t.(_rows)
    t.(_style) t.(_max_width) t.(_deco) v t.(_precision)
    t.(_char_ew) t.(_char_ns) t.(_char_se) t.(_char_sw) t.(_char_ne) t.(_char_nw)
    t.(_char_nse) t.(_char_nsw) t.(_char_sew) t.(_char_new) t.(_char_nsew)
    t.(_char_hew) t.(_char_hnse) t.(_char_hnsw) t.(_char_hnsew)
    t.(_dtype) t.(_width) t.(_header_align) t.(_align) t.(_valign).

Definition set_precision_field v (t : UniTable) : UniTable :=
  mkUniTable t.(_has_border) t.(_has_header) t.(_row_size) t.(_header) t.(_rows)
    t.(_style) t.(_max_width) t.(_deco) t.(_pad) v
    t.(_char_ew) t.(_char_ns) t.(_char_se) t.(_char_sw) t.(_char_ne) t.(_char_nw)
    t.(_char_nse) t.(_char_nsw) t.(_char_sew) t.(_char_new) t.(_char_nsew)
    t.(_char_hew) t.(_char_hnse) t.(_char_hnsw) t.(_char_hnsew)
    t.(_dtype) t.(_width) t.(_header_align) t.(_align) t.(_valign).

Definition set_dtype_field v (t : UniTable) : UniTable :=
  mkUniTable t.(_has_border) t.(_has_header) t.(_row_size) t.(_header) t.(_rows)
    t.(_style) t.(_max_width) t.(_deco) t.(_pad) t.(_precision)
    t.(_char_ew) t.(_char_ns) t.(_char_se) t.(_char_sw) t.(_char_ne) t.(_char_nw)
    t.(_char_nse) t.(_char_nsw) t.(_char_sew) t.(_char_new) t.(_char_nsew)
    t.(_char_hew) t.(_char_hnse) t.(_char_hnsw) t.(_char_hnsew)
    v t.(_width) t.(_header_align) t.(_align) t.(_valign).

Definition set_width_field v (t : UniTable) : UniTable :=
  mkUniTable t.(_has_border) t.(_has_header) t.(_row_size) t.(_header) t.(_rows)
    t.(_style) t.(_max_width) t.(_deco) t.(_pad) t.(_precision)
    t.(_char_ew) t.(_char_ns) t.(_char_se) t.(_char_sw) t.(_char_ne) t.(_char_nw)
    t.(_char_nse) t.(_char_nsw) t.(_char_sew) t.(_char_new) t.(_char_nsew)
    t.(_char_hew) t.(_char_hnse) t.(_char_hnsw) t.(_char_hnsew)
    t.(_dtype) v t.(_header_align) t.(_align) t.(_valign).

Definition set_header_align_field v (t : UniTable) : UniTable :=
  mkUniTable t.(_has_border) t.(_has_header) t.(_row_size) t.(_header) t.(_rows)
    t.(_style) t.(_max_width) t.(_deco) t.(_pad) t.(_precision)
    t.(_char_ew) t.(_char_ns) t.(_char_se) t.(_char_sw) t.(_char_ne) t.(_char_nw)
    t.(_char_nse) t.(_char_nsw) t.(_char_sew) t.(_char_new) t.(_char_nsew)
    t.(_char_hew) t.(_char_hnse) t.(_char_hnsw) t.(_char_hnsew)
    t.(_dtype) t.(_width) v t.(_align) t.(_valign).

Definition set_align_field v (t : UniTable) : UniTable :=
  mkUniTable t.(_has_border) t.(_has_header) t.(_row_size) t.(_header) t.(_rows)
    t.(_style) t.(_max_width) t.(_deco) t.(_pad) t.(_precision)
    t.(_char_ew) t.(_char_ns) t.(_char_se) t.(_char_sw) t.(_char_ne) t.(_char_nw)
    t.(_char_nse) t.(_char_nsw) t.(_char_sew) t.(_char_new) t.(_char_nsew)
    t.(_char_hew) t.(_char_hnse) t.(_char_hnsw) t.(_char_hnsew)
    t.(_dtype) t.(_width) t.(_header_align) v t.(_valign).

Definition set_valign_field v (t : UniTable) : UniTable :=
  mkUniTable t.(_has_border) t.(_has_header) t.(_row_size) t.(_header) t.(_rows)
    t.(_style) t.(_max_width) t.(_deco) t.(_pad) t.(_precision)
    t.(_char_ew) t.(_char_ns) t.(_char_se) t.(_char_sw) t.(_char_ne) t.(_char_nw)
    t.(_char_nse) t.(_char_nsw) t.(_char_sew) t.(_char_new) t.(_char_nsew)
    t.(_char_hew) t.(_char_hnse) t.(_char_hnsw) t.(_char_hnsew)
    t.(_dtype) t.(_width) t.(_header_align) t.(_align) v.

(** The fifteen glyph attributes, assigned together by
    [_set_table_lines]. *)
Definition set_chars_field (g : list str) (t : UniTable) : UniTable :=
  let c n := nth n g [] in
  mkUniTable t.(_has_border) t.(_has_header) t.(_row_size) t.(_header) t.(_rows)
    t.(_style) t.(_max_width) t.(_deco) t.(_pad) t.(_precision)
    (c 0%nat) (c 1%nat) (c 2%nat) (c 3%nat) (c 4%nat) (c 5%nat) (c 6%nat)
    (c 7%nat) (c 8%nat) (c 9%nat) (c 10%nat) (c 11%nat) (c 12%nat)
    (c 13%nat) (c 14%nat)
    t.(_dtype) t.(_width) t.(_header_align) t.(_align) t.(_valign).

(** ** Class constants *)

Definition BORDER : Z := 1.
Definition HEADER : Z := Z.shiftl 1 1.
Definition HLINES : Z := Z.shiftl 1 2.
Definition VLINES : Z := Z.shiftl 1 3.

(** [UniTable.TOP], [MIDDLE], [BOTTOM]: the three values the module
    passes as [location]. *)
Inductive location : Type := TOP | MIDDLE | BOTTOM.

(** A Python string used as a sequence of glyphs. *)
Definition chars_of (s : str) : list str := map (fun c => [c]) s.

Definition STYLES : list (str * list str) :=
  [ (s2l "ascii", chars_of [45; 124; 43; 45]);
    (s2l "ascii2", chars_of [45; 124; 43; 61]);
    (s2l "bold", chars_of [9473; 9475; 9487; 9491; 9495; 9499; 9507; 9515;
                           9523; 9531; 9547; 9473; 9507; 9515; 9547]);
    (s2l "double", chars_of [9552; 9553; 9556; 9559; 9562; 9565; 9568; 9571;
                             9574; 9577; 9580; 9552; 9568; 9571; 9580]);
    (s2l "light2", chars_of [9472; 9474; 9484; 9488; 9492; 9496; 9500; 9508;
                             9516; 9524; 9532; 9552; 9566; 9569; 9578]);
    (s2l "round", chars_of [9472; 9474; 9581; 9582; 9584; 9583; 9500; 9508;
                            9516; 9524; 9532; 9472; 9500; 9508; 9532]);
    (s2l "round2", chars_of [9472; 9474; 9581; 9582; 9584; 9583; 9500; 9508;
                             9516; 9524; 9532; 9552; 9566; 9569; 9578]);
    (s2l "light", chars_of [9472; 9474; 9484; 9488; 9492; 9496; 9500; 9508;
                            9516; 9524; 9532; 9472; 9500; 9508; 9532]);
    (s2l "none", repeat [] 15);
    (s2l "none2", repeat [] 15) ].

Fixpoint lookup_style (name : str) (l : list (str * list str))
  : option (list str) :=
  match l with
  | [] => None
  | (k, v) :: rest => if str_eqb k name then Some v else lookup_style name rest
  end.

Definition len {A} (l : list A) : Z := Z.of_nat (length l).

(** Python truthiness of [self._row_size]. *)
Definition row_size_unset (t : UniTable) : bool :=
  match t.(_row_size) with
  | None => true
  | Some r => r =? 0
  end.

(** ** Configuration *)

(** [UniTable._check_row_size] *)
Definition _check_row_size {A} (array : list A) : M unit :=
  t <- get ;;
  if row_size_unset t then modify (set_row_size (Some (len array)))
  else match t.(_row_size) with
       | Some r =>
           if negb (r =? len array) then raise (ArraySizeError [r] (len array))
           else ret tt
       | None => ret tt
       end.

(** The setters of the properties [has_border] and [has_header]. *)
Definition set_has_border (value : bool) : M unit :=
  modify (set_has_border_field value).

Definition set_has_header (value : bool) : M unit :=
  modify (set_has_header_field value).

(** [UniTable.reset]; the attribute [_hline_string] it clears is read
    nowhere. *)
Definition reset : M unit :=
  modify (set_row_size None) ;;;
  modify (set_header_field []) ;;;
  modify (set_rows_field []) ;;;
  modify (set_style_field (s2l "light")).

(** [UniTable.set_max_width] *)
Definition set_max_width (max_width : Z) : M unit :=
  modify (set_max_width_field (if max_width >? 0 then max_width else 0)).

(** [UniTable._set_table_lines] *)
Definition _set_table_lines (table_lines : list str) : M unit :=
  if negb (len table_lines =? 15)
  then raise (ArraySizeError [15] (len table_lines))
  else modify (set_chars_field table_lines).

(** [UniTable.set_table_lines] *)
Definition set_table_lines (table_lines : list str) : M unit :=
  if len table_lines =? 15 then _set_table_lines table_lines
  else
    match table_lines with
    | [hor; ver; cor; hea] =>
        _set_table_lines [hor; ver; cor; cor; cor; cor; cor; cor; cor; cor;
                          cor; hea; cor; cor; cor]
    | _ => raise (ArraySizeError [4; 15] (len table_lines))
    end.

(** [UniTable.set_style] *)
Definition set_style (style : str) : M unit :=
  modify (set_style_field style) ;;;
  match lookup_style style STYLES with
  | Some g => set_table_lines g
  | None => raise (ValueError "style must be one of the defined styles")
  end.

(** [UniTable.set_decorations] *)
Definition set_decorations (decorations : Z) : M unit :=
  modify (set_deco_field decorations).

(** [UniTable.set_header_align] *)
Definition set_header_align (array : list char) : M unit :=
  _check_row_size array ;;; modify (set_header_align_field (Some array)).

(** [UniTable.set_cols_align] *)
Definition set_cols_align (array : list char) : M unit :=
  _check_row_size array ;;; modify (set_align_field (Some array)).

(** [UniTable.set_cols_valign] *)
Definition set_cols_valign (array : list char) : M unit :=
  _check_row_size array ;;; modify (set_valign_field (Some array)).

(** [UniTable.set_cols_dtype] *)
Definition set_cols_dtype (array : list char) : M unit :=
  _check_row_size array ;;; modify (set_dtype_field (Some array)).

(** [reduce(min, array)] *)
Definition reduce_min (array : list Z) : result Z :=
  match array with
  | [] => Raise TypeError
  | x :: rest => Ok (fold_left Z.min rest x)
  end.

(** [reduce(max, array)] *)
Definition reduce_max (array : list Z) : result Z :=
  match array with
  | [] => Raise TypeError
  | x :: rest => Ok (fold_left Z.max rest x)
  end.

(** [UniTable.set_cols_width], for an array of integers. *)
Definition set_cols_width (array : list Z) : M unit :=
  _check_row_size array ;;;
  m <- lift (reduce_min array) ;;
  if m <=? 0
  then raise (ValueError "Values less than or equal to zero not allowed.")
  else modify (set_width_field (Some array)).

(** [UniTable.set_precision], for an integer argument. *)
Definition set_precision (width : Z) : M unit :=
  if width <? 0 then raise (ValueError "width must be an integer greater then 0")
  else modify (set_precision_field width).

(** [UniTable.set_padding], for an integer argument. *)
Definition set_padding (amount : Z) : M unit :=
  if amount <? 0
  then raise (ValueError "padding must be an integer greater then 0")
  else modify (set_pad_field amount).

(** ** Cell formatting

    Raw cell values are texts.  [float(x)] is followed on the texts whose
    outcome needs no floating-point arithmetic.  An optional sign and
    ASCII digits is an integral float.  [float] turns the blanks and the
    decimal digits of other scripts into ASCII, strips the blanks at both
    ends and reads a literal: a text is rejected when it holds a
    character between U+0080 and U+065F that is not a blank (no script
    has its digits there), or when it is made of ASCII and blanks and,
    blanks stripped, is not of the form of a literal.  The value of a
    literal that is not a plain integer, and the texts with a character
    from U+0660 on, are left to [NotModelled]. *)
Inductive float_view : Type :=
| NotFloat
| Integral (z : Z)
| OtherFloat.

Fixpoint digits_value (acc : Z) (s : str) : option Z :=
  match s with
  | [] => Some acc
  | c :: rest =>
      if in_range 48 57 c then digits_value (10 * acc + (c - 48)) rest
      else None
  end.

Definition parse_int (s : str) : option Z :=
  match s with
  | [] => None
  | c :: rest =>
      if c =? 45 then
        match rest with [] => None | _ => option_map Z.opp (digits_value 0 rest) end
      else if c =? 43 then
        match rest with [] => None | _ => digits_value 0 rest end
      else digits_value 0 s
  end.

(** [s.strip()] *)
Fixpoint lstrip (s : str) : str :=
  match s with
  | c :: rest => if py_isspace c then lstrip rest else s
  | [] => []
  end.

Definition strip (s : str) : str := rev (lstrip (rev (lstrip s))).

Definition lower (c : char) : char := if in_range 65 90 c then c + 32 else c.

(** A run of digits and underscores: whether it holds a digit, and what
    follows it. *)
Fixpoint digit_run (seen : bool) (s : str) : bool * str :=
  match s with
  | c :: rest =>
      if in_range 48 57 c then digit_run true rest
      else if c =? 95 then digit_run seen rest
      else (seen, s)
  | [] => (seen, [])
  end.

Definition skip_sign (s : str) : str :=
  match s with
  | c :: rest => if (c =? 43) || (c =? 45) then rest else s
  | [] => []
  end.

(** The form of the literals [float] reads: an optional sign, then a
    word that begins with inf or nan in any case, or digits, an optional
    point and digits, with a digit on one side at least, and an optional
    exponent e, sign and digits.  Every text [float] accepts has this
    form; underscores are let through wherever a digit may stand. *)
Definition float_literal (s : str) : bool :=
  let body := skip_sign s in
  let low := map lower body in
  if starts_with (s2l "inf") low || starts_with (s2l "nan") low then true
  else
    let '(d1, r1) := digit_run false body in
    let '(d2, r2) :=
      match r1 with
      | c :: rest => if c =? 46 then digit_run false rest else (false, r1)
      | [] => (false, [])
      end in
    if d1 || d2 then
      match r2 with
      | [] => true
      | c :: rest =>
          if (c =? 101) || (c =? 69) then
            let '(d3, r3) := digit_run false (skip_sign rest) in
            d3 && (match r3 with [] => true | _ => false end)
          else false
      end
    else false.

Definition float_of (x : str) : float_view :=
  match parse_int x with
  | Some z => Integral z
  | None =>
      if existsb (fun c => in_range 128 1631 c && negb (py_isspace c)) x
      then NotFloat
      else if existsb (fun c => (1632 <=? c) && negb (py_isspace c)) x
      then OtherFloat
      else if float_literal (strip x) then OtherFloat else NotFloat
  end.

(** [str(n)] for an integer. *)
Definition str_of_Z (z : Z) : str := s2l (NilZero.string_of_int (Z.to_int z)).

(** [obj2unicode], on texts. *)
Definition obj2unicode (x : str) : str := x.

(** [UniTable._fmt_text] *)
Definition _fmt_text (x : str) : result str := Ok (obj2unicode x).

(** [UniTable._fmt_int]: [str(int(round(float(x))))] *)
Definition _fmt_int (x : str) : result str :=
  match float_of x with
  | NotFloat => Raise FallbackToText
  | Integral z =>
      if Z.abs z <=? 100000000 then Ok (str_of_Z z) else Raise NotModelled
  | OtherFloat => Raise NotModelled
  end.

(** [UniTable._fmt_comma_int], [_fmt_float] and [_fmt_exp] print a float
    once [float(x)] succeeds. *)
Definition _fmt_needs_float (x : str) : result str :=
  match float_of x with
  | NotFloat => Raise FallbackToText
  | _ => Raise NotModelled
  end.

Definition _fmt_comma_int := _fmt_needs_float.
Definition _fmt_float := _fmt_needs_float.
Definition _fmt_exp := _fmt_needs_float.

(** [UniTable._fmt_auto] *)
Definition _fmt_auto (x : str) : result str :=
  match float_of x with
  | NotFloat => Raise FallbackToText
  | Integral z =>
      if 100000000 <? Z.abs z then _fmt_exp x   (* abs(f) > 1e8 *)
      else _fmt_int x                            (* f - round(f) == 0 *)
  | OtherFloat => Raise NotModelled
  end.

(** [format_map[dtype]] *)
Definition format_map (dtype : char) : option (str -> result str) :=
  if dtype =? 97 then Some _fmt_auto            (* 'a' *)
  else if dtype =? 105 then Some _fmt_int       (* 'i' *)
  else if dtype =? 73 then Some _fmt_comma_int  (* 'I' *)
  else if dtype =? 102 then Some _fmt_float     (* 'f' *)
  else if dtype =? 101 then Some _fmt_exp       (* 'e' *)
  else if dtype =? 116 then Some _fmt_text      (* 't' *)
  else None.

(** [UniTable._str] *)
Definition _str (i : nat) (x : str) : M str :=
  t <- get ;;
  match t.(_dtype) with
  | None => raise AttributeError
  | Some dtypes =>
      match nth_error dtypes i with
      | None => raise IndexError
      | Some dtype =>
          match format_map dtype with
          | None => raise KeyError
          | Some fmt =>
              match fmt x with
              | Raise FallbackToText => lift (_fmt_text x)
              | r => lift r
              end
          end
      end
  end.

(** ** Content *)

(** [UniTable.header] *)
Definition header (array : list str) : M unit :=
  _check_row_size array ;;;
  modify (set_header_field (map obj2unicode array)).

(** The loop of [add_row] over [enumerate(array)]. *)
Fixpoint format_cells (i : nat) (array : list str) : M (list str) :=
  match array with
  | [] => ret []
  | x :: rest =>
      c <- _str i x ;; cs <- format_cells (S i) rest ;; ret (c :: cs)
  end.

(** [UniTable.add_row] *)
Definition add_row (array : list str) : M unit :=
  _check_row_size array ;;;
  t <- get ;;
  match t.(_dtype), t.(_row_size) with
  | None, Some n =>
      modify (set_dtype_field (Some (repeat 97 (Z.to_nat n))))
  | None, None => raise TypeError
  | Some _, _ => ret tt
  end ;;;
  cells <- format_cells O array ;;
  modify (fun t => set_rows_field (t.(_rows) ++ [cells]) t).

(** [UniTable.add_rows], for a list of rows. *)
Definition add_rows (rows : list (list str)) (with_header : bool) : M unit :=
  if with_header then
    match rows with
    | [] => raise IndexError
    | first :: rest => header first ;;; for_each rest add_row
    end
  else for_each rows add_row.

(** [UniTable.set_rows] *)
Definition set_rows (rows : list (list str)) (with_header : bool) : M unit :=
  modify (set_rows_field []) ;;; add_rows rows with_header.

(** ** Rendering *)

(** [UniTable.has_vlines] *)
Definition has_vlines (t : UniTable) : bool := Z.land t.(_deco) VLINES >? 0.

(** [UniTable.has_hlines] *)
Definition has_hlines (t : UniTable) : bool := Z.land t.(_deco) HLINES >? 0.

(** [UniTable.vislen] on a string. *)
Definition vislen (s : str) : Z := StringLengthCalculator.len s.

(** The attribute [self._width], which must exist when it is read. *)
Definition width_attr (t : UniTable) : result (list Z) :=
  match t.(_width) with
  | Some w => Ok w
  | None => Raise AttributeError
  end.

(** [UniTable._build_hline] *)
Definition _build_hline (t : UniTable) (is_header : bool) (loc : location)
  : result str :=
  if str_eqb t.(_style) (s2l "none") then Ok []
  else
    let horiz_char := if is_header then t.(_char_hew) else t.(_char_ew) in
    let '(left_c, mid, right_c) :=
      match loc with
      | TOP => (t.(_char_se), t.(_char_sew), t.(_char_sw))
      | MIDDLE =>
          if is_header then (t.(_char_hnse), t.(_char_hnsew), t.(_char_hnsw))
          else (t.(_char_nse), t.(_char_nsew), t.(_char_nsw))
      | BOTTOM => (t.(_char_ne), t.(_char_new), t.(_char_nw))
      end in
    match width_attr t with
    | Raise e => Raise e
    | Ok widths =>
        let cell_sep :=
          str_mul horiz_char t.(_pad)
          ++ (if has_vlines t then mid else horiz_char)
          ++ str_mul horiz_char t.(_pad) in
        let hline := join cell_sep (map (fun n => str_mul horiz_char n) widths) in
        if t.(_has_border)
        then Ok (left_c ++ str_mul horiz_char t.(_pad) ++ hline
                 ++ str_mul horiz_char t.(_pad) ++ right_c ++ [NL])
        else Ok (hline ++ [NL])
    end.

(** [UniTable._hline_header] *)
Definition _hline_header (t : UniTable) (loc : location) : result str :=
  _build_hline t true loc.

(** [UniTable._hline] *)
Definition _hline (t : UniTable) (loc : location) : result str :=
  _build_hline t false loc.

(** The loop of [_len_cell] over the tab-separated parts of one line. *)
Fixpoint len_parts (length : Z) (parts : list str) : Z :=
  match parts with
  | [] => length
  | [part] => length + vislen part
  | part :: rest => len_parts (((length + vislen part) / 8 + 1) * 8) rest
  end.

(** [UniTable._len_cell] *)
Definition _len_cell (cell : str) : Z :=
  fold_left (fun maxi line => Z.max maxi (len_parts 0 (split_on TAB line)))
            (split_on NL cell) 0.

(** [l[i] = v] for an index inside the list. *)
Fixpoint list_set {A} (i : nat) (v : A) (l : list A) : list A :=
  match l, i with
  | [], _ => []
  | _ :: rest, O => v :: rest
  | x :: rest, S i' => x :: list_set i' v rest
  end.

(** The loop over one row in [_compute_cols_width]. *)
Fixpoint widen_by_row (i : nat) (row : list str) (maxi : list Z) : list Z :=
  match row with
  | [] => maxi
  | cell :: rest =>
      widen_by_row (S i) rest
        (match nth_error maxi i with
         | Some m => list_set i (Z.max m (_len_cell cell)) maxi
         | None => maxi ++ [_len_cell cell]
         end)
  end.

(** The natural widths: [maxi] before the budget is applied. *)
Definition natural_widths (t : UniTable) : list Z :=
  fold_left (fun maxi row => widen_by_row O row maxi) t.(_rows)
            (match t.(_header) with
             | [] => []
             | _ => map _len_cell t.(_header)
             end).

(** [3 * (ncols - 1) + [0, 4][self.has_border]] *)
Definition deco_width (t : UniTable) (ncols : Z) : Z :=
  3 * (ncols - 1) + (if t.(_has_border) then 4 else 0).

(** The [while available_width > 0] loop. *)
Fixpoint distribute (fuel : nat) (maxi newmaxi : list Z) (i : nat)
  (available_width : Z) : result (list Z) :=
  if available_width >? 0 then
    match fuel with
    | O => Raise NotModelled
    | S fuel' =>
        match nth_error newmaxi i, nth_error maxi i with
        | Some a, Some b =>
            if a <? b
            then distribute fuel' maxi (list_set i (a + 1) newmaxi)
                   (Nat.modulo (S i) (length maxi)) (available_width - 1)
            else distribute fuel' maxi newmaxi
                   (Nat.modulo (S i) (length maxi)) available_width
        | _, _ => Raise IndexError
        end
    end
  else Ok newmaxi.

(** The widths [_compute_cols_width] assigns when none is stored. *)
Definition fit_widths (t : UniTable) : result (list Z) :=
  let maxi := natural_widths t in
  let ncols := len maxi in
  let content_width := fold_right Z.add 0 maxi in
  let deco := deco_width t ncols in
  if negb (t.(_max_width) =? 0) && (content_width + deco >? t.(_max_width)) then
    if t.(_max_width) <? ncols + deco
    then Raise (WidthTooLow t.(_max_width) (ncols + deco))
    else
      let available_width := t.(_max_width) - deco in
      distribute (Z.to_nat (available_width * ncols)) maxi
                 (repeat 0 (length maxi)) O available_width
  else Ok maxi.

(** [UniTable._compute_cols_width] *)
Definition _compute_cols_width : M unit :=
  t <- get ;;
  match t.(_width) with
  | Some _ => ret tt
  | None =>
      w <- lift (fit_widths t) ;;
      modify (set_width_field (Some w))
  end.

(** [UniTable._check_align] *)
Definition _check_align : M unit :=
  let default (c : char) (t : UniTable) : result (list char) :=
    match t.(_row_size) with
    | Some n => Ok (repeat c (Z.to_nat n))
    | None => Raise TypeError
    end in
  t <- get ;;
  match t.(_header_align) with
  | Some _ => ret tt
  | None => a <- lift (default 99 t) ;; modify (set_header_align_field (Some a))
  end ;;;
  t <- get ;;
  match t.(_align) with
  | Some _ => ret tt
  | None => a <- lift (default 108 t) ;; modify (set_align_field (Some a))
  end ;;;
  t <- get ;;
  match t.(_valign) with
  | Some _ => ret tt
  | None => a <- lift (default 116 t) ;; modify (set_valign_field (Some a))
  end.

(** Sequencing of pure steps that may raise. *)
Definition rbind {A B} (r : result A) (k : A -> result B) : result B :=
  match r with
  | Ok a => k a
  | Raise e => Raise e
  end.

Notation "x <~ c ;; k" := (rbind c (fun x => k))
  (at level 61, c at next level, right associativity) : M_scope.

(** [l[i]] *)
Definition index {A} (l : list A) (i : nat) : result A :=
  match nth_error l i with
  | Some x => Ok x
  | None => Raise IndexError
  end.

(** The loop of [_splitit] over [cell.split('\n')]. *)
Fixpoint wrap_parts (parts : list str) (width : Z) : result (list str) :=
  match parts with
  | [] => Ok []
  | c :: rest =>
      if strip_is_empty c then
        array <~ wrap_parts rest width ;; Ok ([] :: array)
      else
        wrapped <~ textwrapper c width ;;
        array <~ wrap_parts rest width ;;
        Ok (wrapped ++ array)
  end.

(** The loop of [_splitit] over [zip(line, self._width)]. *)
Fixpoint wrap_cells (line : list str) (widths : list Z)
  : result (list (list str)) :=
  match line, widths with
  | cell :: line', width :: widths' =>
      array <~ wrap_parts (split_on NL cell) width ;;
      line_wrapped <~ wrap_cells line' widths' ;;
      Ok (array :: line_wrapped)
  | _, _ => Ok []
  end.

(** The loop of [_splitit] over [zip(line_wrapped, self._valign)].
    Middle alignment measures the cell, a list, with the string
    calculator, which Python answers with a [TypeError]. *)
Fixpoint valign_cells (isheader : bool) (max_cell_lines : Z)
  (line_wrapped : list (list str)) (valigns : list char)
  : result (list (list str)) :=
  match line_wrapped, valigns with
  | cell :: cells, valign :: valigns' =>
      let valign := if isheader then 116 else valign in
      if valign =? 109 then Raise TypeError
      else
        let blanks := repeat ([] : str) (Z.to_nat (max_cell_lines - len cell)) in
        let cell' := if valign =? 98 then blanks ++ cell else cell ++ blanks in
        rest <~ valign_cells isheader max_cell_lines cells valigns' ;;
        Ok (cell' :: rest)
  | cells, _ => Ok cells
  end.

(** One turn of the inner loop of [_process_lines]: the line as it is
    left, and the sequences carried to the next line. *)
Definition process_line (unterminated_sequences line : str) : str * str :=
  let line := unterminated_sequences ++ line in
  let unterminated := List.concat (findall_unterminated line) in
  match unterminated with
  | [] => (line, unterminated)
  | _ => (line ++ ansi_norm, unterminated)
  end.

(** The inner loop of [_process_lines], over the lines of one cell. *)
Fixpoint process_cell (unterminated_sequences : str) (lines : list str)
  : list str * str :=
  match lines with
  | [] => ([], unterminated_sequences)
  | line :: rest =>
      let '(line', u) := process_line unterminated_sequences line in
      let '(rest', u') := process_cell u rest in
      (line' :: rest', u')
  end.

(** The outer loop of [_process_lines], over the cells of one row. *)
Fixpoint process_cells (unterminated_sequences : str)
  (lines_2d : list (list str)) : list (list str) :=
  match lines_2d with
  | [] => []
  | lines :: rest =>
      let '(lines', u) := process_cell unterminated_sequences lines in
      lines' :: process_cells u rest
  end.

(** [UniTable._process_lines] *)
Definition _process_lines (lines_2d : list (list str)) : list (list str) :=
  process_cells [] lines_2d.

(** [UniTable._splitit] *)
Definition _splitit (t : UniTable) (line : list str) (isheader : bool)
  : result (list (list str)) :=
  widths <~ width_attr t ;;
  line_wrapped <~ wrap_cells line widths ;;
  max_cell_lines <~ reduce_max (map len line_wrapped) ;;
  valigns <~ match t.(_valign) with
             | Some v => Ok v
             | None => Raise AttributeError
             end ;;
  aligned <~ valign_cells isheader max_cell_lines line_wrapped valigns ;;
  Ok (_process_lines aligned).

(** The three alignments of [_draw_line].  [int(fill / 2)] and
    [int(fill / 2 + fill % 2)] truncate towards zero. *)
Definition align_cell (align : char) (fill : Z) (cell_line : str) : str :=
  if align =? 114 then str_mul [SP] fill ++ cell_line
  else if align =? 99 then
    str_mul [SP] (Z.quot fill 2) ++ cell_line
    ++ str_mul [SP] (Z.quot (fill + 2 * (fill mod 2)) 2)
  else cell_line ++ str_mul [SP] fill.

(** The inner loop of [_draw_line], over
    [zip(line, self._width, self._align)]. *)
Fixpoint draw_cells (t : UniTable) (isheader : bool) (i : nat) (ncells : Z)
  (length : Z) (line : list (list str)) (widths : list Z)
  (aligns : list char) : result str :=
  match line, widths, aligns with
  | cell :: line', width :: widths', align :: aligns' =>
      let length := length + 1 in
      cell_line <~ index cell i ;;
      let fill := width - vislen cell_line in
      align <~ (if isheader then
                  match t.(_header_align) with
                  | Some ha => index ha (Z.to_nat (length - 1))
                  | None => Raise AttributeError
                  end
                else Ok align) ;;
      let out :=
        align_cell align fill cell_line
        ++ (if length <? ncells
            then str_mul [SP] t.(_pad)
                 ++ (if has_vlines t then t.(_char_ns) else [SP])
                 ++ str_mul [SP] t.(_pad)
            else []) in
      rest <~ draw_cells t isheader i ncells length line' widths' aligns' ;;
      Ok (out ++ rest)
  | _, _, _ => Ok []
  end.

(** One turn of the outer loop of [_draw_line]: physical line [i]. *)
Definition draw_physical_line (t : UniTable) (isheader : bool)
  (line : list (list str)) (widths : list Z) (aligns : list char) (i : nat)
  : result str :=
  cells <~ draw_cells t isheader i (len line) 0 line widths aligns ;;
  Ok ((if t.(_has_border) then t.(_char_ns) ++ str_mul [SP] t.(_pad) else [])
      ++ cells
      ++ (if t.(_has_border) then str_mul [SP] t.(_pad) ++ t.(_char_ns) else [])
      ++ [NL]).

Fixpoint draw_physical_lines (t : UniTable) (isheader : bool)
  (line : list (list str)) (widths : list Z) (aligns : list char)
  (rows : list nat) : result str :=
  match rows with
  | [] => Ok []
  | i :: rest =>
      l <~ draw_physical_line t isheader line widths aligns i ;;
      ls <~ draw_physical_lines t isheader line widths aligns rest ;;
      Ok (l ++ ls)
  end.

(** [UniTable._draw_line] *)
Definition _draw_line (t : UniTable) (line : list str) (isheader : bool)
  : result str :=
  line <~ _splitit t line isheader ;;
  first <~ index line O ;;
  widths <~ width_attr t ;;
  aligns <~ match t.(_align) with
            | Some a => Ok a
            | None => Raise AttributeError
            end ;;
  draw_physical_lines t isheader line widths aligns (seq O (length first)).

(** The loop of [draw] over the rows. *)
Fixpoint draw_rows (t : UniTable) (num : Z) (nrows : Z) (rows : list (list str))
  : result str :=
  match rows with
  | [] => Ok []
  | row :: rest =>
      let num := num + 1 in
      l <~ _draw_line t row false ;;
      h <~ (if has_hlines t && (num <? nrows) then _hline t MIDDLE else Ok []) ;;
      ls <~ draw_rows t num nrows rest ;;
      Ok (l ++ h ++ ls)
  end.

(** The body of [draw] once the widths and alignments are in place. *)
Definition draw_body (t : UniTable) : result str :=
  top <~ (if t.(_has_border) then _hline t TOP else Ok []) ;;
  head <~ match t.(_header) with
          | [] => Ok []
          | _ =>
              l <~ _draw_line t t.(_header) true ;;
              h <~ (if t.(_has_header) then _hline_header t MIDDLE else Ok []) ;;
              Ok (l ++ h)
          end ;;
  body <~ draw_rows t 0 (len t.(_rows)) t.(_rows) ;;
  bottom <~ (if t.(_has_border) then _hline t BOTTOM else Ok []) ;;
  Ok (removelast (top ++ head ++ body ++ bottom)).

(** [UniTable.draw]: [None] stands for the bare [return]. *)
Definition draw : M (option str) :=
  t <- get ;;
  match t.(_header), t.(_rows) with
  | [], [] => ret None
  | _, _ =>
      _compute_cols_width ;;;
      _check_align ;;;
      t <- get ;;
      out <- lift (draw_body t) ;;
      ret (Some out)
  end.

(** The attributes assigned at the top of [__init__] and by [reset]. *)
Definition fresh : UniTable :=
  mkUniTable true true None [] [] (s2l "light") 0 0 0 0
    [] [] [] [] [] [] [] [] [] [] [] [] [] [] []
    None None None None None.

(** [UniTable.__init__] *)
Definition __init__ (rows : option (list (list str))) (max_width : Z)
  (style : str) (padding : Z) (alignment : option (list char)) : M unit :=
  modify (fun _ => fresh) ;;;
  modify (set_precision_field 3) ;;;
  match rows with Some r => add_rows r true | None => ret tt end ;;;
  set_max_width max_width ;;;
  modify (set_deco_field (Z.lor (Z.lor (Z.lor VLINES HLINES) BORDER) HEADER)) ;;;
  set_style style ;;;
  set_padding padding ;;;
  match alignment with Some a => set_cols_align a | None => ret tt end.

(** [UniTable()] with the default arguments. *)
Definition new_table : UniTable :=
  snd (__init__ None 80 (s2l "light") 1 None fresh).

(** Runs a method and keeps the object. *)
Definition exec {A} (m : M A) (t : UniTable) : UniTable := snd (m t).
(** Runs a method and keeps the outcome. *)
Definition eval {A} (m : M A) (t : UniTable) : result A := fst (m t).

(** * Vocabulary of the properties *)

(** The 4-glyph shorthand given to [set_table_lines] on a default table. *)
Definition scenario_A : M (option str) :=
  __init__ None 80 (s2l "light") 1 None ;;;
  set_table_lines (chars_of (s2l "-|+-")) ;;;
  header [s2l "A"; s2l "B"] ;;;
  add_row [s2l "1"; s2l "2"] ;;;
  draw.

(** The same glyphs through the named style ["ascii"]. *)
Definition scenario_A_named : M (option str) :=
  __init__ (Some [[s2l "A"; s2l "B"]; [s2l "1"; s2l "2"]]) 80 (s2l "ascii") 1 None ;;;
  draw.

Definition scenario_A_expected : str :=
  join [NL] [s2l "+---+---+";
             s2l "| A | B |";
             s2l "+---+---+";
             s2l "| 1 | 2 |";
             s2l "+---+---+"].

(** An empty first row, then a two-cell header. *)
Definition empty_row_then_header : M unit :=
  add_row [] ;;; header [s2l "a"; s2l "b"].

(** A call is refused and leaves the object untouched. *)
Definition refused {A} (m : M A) (t : UniTable) : Prop :=
  exists e, m t = (Raise e, t).

(** The text [ab cd] and the same text with [ab] in red. *)
Definition plain_ab_cd : str := s2l "ab cd".
Definition red_ab_cd : str := [ESC] ++ s2l "[31mab" ++ [ESC] ++ s2l "[0m cd".

(** A table whose only cell is the red text, with the widths and
    alignments [draw] computes for it. *)
Definition red_table : UniTable :=
  exec (header [red_ab_cd] ;;; _compute_cols_width ;;; _check_align) new_table.

(** [stable P m]: running [m], whatever its outcome, keeps [P] true of the
    object. *)
Definition stable {A} (P : UniTable -> Prop) (m : M A) : Prop :=
  forall t, P t -> P (snd (m t)).

(** The attributes other than the stored widths and the three alignment
    arrays. *)
Definition content_of (t : UniTable) : UniTable :=
  set_width_field None
    (set_header_align_field None
       (set_align_field None (set_valign_field None t))).

(** What [_check_align] leaves in an alignment array: the array when it
    is set, the default letter once per column otherwise. *)
Definition defaulted (c : char) (o : option (list char)) (rs : option Z)
  : option (list char) :=
  match o with
  | Some a => Some a
  | None => option_map (fun n => repeat c (Z.to_nat n)) rs
  end.

(** A call keeps the stored widths, whatever they are and whatever its
    outcome. *)
Definition keeps_widths {A} (m : M A) : Prop :=
  forall w, stable (fun t => _width t = Some w) m.

(** What [draw] runs once the table is known not to be empty. *)
Definition draw_nonempty : M (option str) :=
  _compute_cols_width ;;; _check_align ;;;
  t <- get ;; out <- lift (draw_body t) ;; ret (Some out).

Definition one_column : UniTable :=
  exec (header [s2l "A"] ;;; add_row [s2l "1"]) new_table.

(** [draw()], then [add_row] with a wider cell. *)
Definition stale_table : UniTable :=
  exec (draw ;;; add_row [s2l "wide"]) one_column.

(** The widths left by [draw] are the ones the content calls for. *)
Definition widths_follow_content (t : UniTable) : Prop :=
  forall w, fit_widths t = Ok w -> (exec draw t).(_width) = Some w.

(** An outcome other than the width error. *)
Definition benign {A} (r : result A) : Prop :=
  match r with
  | Raise (WidthTooLow _ _) => False
  | _ => True
  end.

(** The number of columns, the width of the content and the width taken
    by the decorations, as [_compute_cols_width] counts them. *)
Definition columns (t : UniTable) : Z := len (natural_widths t).
Definition content_width (t : UniTable) : Z :=
  fold_right Z.add 0 (natural_widths t).
Definition overhead (t : UniTable) : Z := deco_width t (columns t).

(** The guard under which [_compute_cols_width] raises. *)
Definition too_narrow (t : UniTable) : Prop :=
  t.(_max_width) <> 0
  /\ content_width t + overhead t > t.(_max_width)
  /\ t.(_max_width) < columns t + overhead t.

Definition nonempty (t : UniTable) : Prop :=
  t.(_header) <> [] \/ t.(_rows) <> [].

(** A header of two cells, the first one empty, under a budget of 8. *)
Definition narrow_table : UniTable :=
  exec (set_max_width 8 ;;; header [[]; s2l "x"]) new_table.

(** Two one-character columns under a budget of 5. *)
Definition scenario_C : UniTable :=
  exec (set_max_width 5 ;;; header [s2l "A"; s2l "B"]) new_table.

(** The width error is raised exactly when the budget is below the
    columns plus the decorations. *)
Definition width_error_exactly_when_too_small (t : UniTable) : Prop :=
  (columns t + overhead t <= t.(_max_width) ->
   forall m n, eval draw t <> Raise (WidthTooLow m n))
  /\ (t.(_max_width) < columns t + overhead t ->
      eval draw t = Raise (WidthTooLow t.(_max_width) (columns t + overhead t))).

(** [e] is, from end to end, one match of [ansi_escape]. *)
Definition escape_sequence (e : str) : Prop :=
  ansi_escape_match e = Some (length e).

(** [inserted T T']: [T'] is [T] with escape sequences inserted at any
    positions. *)
Inductive inserted : str -> str -> Prop :=
| inserted_nil : inserted [] []
| inserted_char (c : char) (t t' : str) :
    inserted t t' -> inserted (c :: t) (c :: t')
| inserted_escape (e t t' : str) :
    escape_sequence e -> inserted t t' -> inserted t (e ++ t').

(** [styled T T']: [T] is made of characters other than the escape
    character and of whole escape sequences, and [T'] is [T] with escape
    sequences inserted between those. *)
Inductive styled : str -> str -> Prop :=
| styled_nil : styled [] []
| styled_char (c : char) (t t' : str) :
    c <> ESC -> styled t t' -> styled (c :: t) (c :: t')
| styled_keep (e t t' : str) :
    escape_sequence e -> styled t t' -> styled (e ++ t) (e ++ t')
| styled_insert (e t t' : str) :
    escape_sequence e -> styled t t' -> styled t (e ++ t').

(** The text [ESC [ m], and the same with a reset inserted after its
    second character. *)
Definition bare_sgr : str := [ESC; 91; 109].
Definition bare_sgr_split : str := [ESC; 91] ++ ansi_norm ++ [109].

(** The structure of a match of [[0-?]*[ -/]*[@-~]]. *)
Definition csi_body (b : str) : Prop :=
  exists ps ins f,
    b = ps ++ ins ++ [f]
    /\ Forall (fun c => is_param c = true) ps
    /\ Forall (fun c => is_inter c = true) ins
    /\ is_final f = true.

(** A match of [non_reset_sequence]: an escape sequence introduced by
    [ESC [] whose body does not begin with [0m]. *)
Definition nonreset_csi (g : str) : Prop :=
  exists b, g = ESC :: 91 :: b /\ csi_body b /\ starts_with [48; 109] b = false.

(** The pending buffer is a run of whole non-reset sequences. *)
Definition carried (u : str) : Prop :=
  exists gs, u = List.concat gs /\ Forall nonreset_csi gs.

(** A glyph that takes one cell. *)
Definition narrow (g : str) : Prop := exists c, g = [c] /\ wcwidth c = 1.

(** The width of [n] columns joined by separators of width [sep]. *)
Fixpoint row_width (sep : Z) (widths : list Z) : Z :=
  match widths with
  | [] => 0
  | [w] => w
  | w :: ws => w + sep + row_width sep ws
  end.

(** The fifteen glyphs of the style. *)
Definition glyphs (t : UniTable) : list str :=
  [t.(_char_ew); t.(_char_ns); t.(_char_se); t.(_char_sw); t.(_char_ne);
   t.(_char_nw); t.(_char_nse); t.(_char_nsw); t.(_char_sew); t.(_char_new);
   t.(_char_nsew); t.(_char_hew); t.(_char_hnse); t.(_char_hnsw);
   t.(_char_hnsew)].


(** A text that, its escape sequences removed, holds regular characters
    only. *)
Definition regular (l : str) : Prop :=
  Forall (fun c => regular_char c = true) (ansi_escape_sub l).


(** [measures l w]: the text is regular and [w] cells wide. *)
Definition measures (l : str) (w : Z) : Prop := regular l /\ vislen l = w.












(** The table of scenario A before it is drawn. *)
Definition scenario_A_table : UniTable :=
  exec (__init__ None 80 (s2l "light") 1 None ;;;
        set_table_lines (chars_of (s2l "-|+-")) ;;;
        header [s2l "A"; s2l "B"] ;;;
        add_row [s2l "1"; s2l "2"]) fresh.

(** Column [j] is below its natural width. *)
Definition below (maxi newmaxi : list Z) (j : nat) : bool :=
  match nth_error newmaxi j, nth_error maxi j with
  | Some a, Some b => a <? b
  | _, _ => false
  end.

(** The first column below its natural width among the [k] columns
    from [j] on. *)
Fixpoint search_below (maxi newmaxi : list Z) (k j : nat) : option nat :=
  match k with
  | O => None
  | S k' =>
      if below maxi newmaxi j then Some j
      else search_below maxi newmaxi k' (S j)
  end.

(** The number of full columns the width loop passes, from column [i]
    round the table, before it reaches a column it can widen. *)
Definition steps_to_below (maxi newmaxi : list Z) (i : nat) : nat :=
  match search_below maxi newmaxi (length maxi - i) i with
  | Some j => j - i
  | None =>
      (length maxi - i)
      + match search_below maxi newmaxi (length maxi) O with
        | Some j => j
        | None => O
        end
  end.

(** The sum of a list of widths. *)
Definition total (l : list Z) : Z := fold_right Z.add 0 l.

(** * Further vocabulary *)

(** A table with a recorded positive arity [r]: every stored row has [r]
    cells, the header is absent or has [r] cells, and every per-column
    array that is set has [r] entries. *)
Definition has_arity {A} (r : Z) (o : option (list A)) : Prop :=
  match o with
  | Some l => len l = r
  | None => True
  end.

Record well_shaped (t : UniTable) (r : Z) : Prop := {
  ws_row_size : t.(_row_size) = Some r;
  ws_positive : 0 < r;
  ws_rows : Forall (fun row => len row = r) t.(_rows);
  ws_header : t.(_header) = [] \/ len t.(_header) = r;
  ws_dtype : has_arity r t.(_dtype);
  ws_header_align : has_arity r t.(_header_align);
  ws_align : has_arity r t.(_align);
  ws_valign : has_arity r t.(_valign)
}.

(** The shape, the stored widths included. *)
Definition shaped (t : UniTable) (r : Z) : Prop :=
  well_shaped t r /\ has_arity r t.(_width).

(** A table on which nothing was inserted or configured per column. *)
Definition untouched (t : UniTable) : Prop :=
  row_size_unset t = true /\ t.(_rows) = [] /\ t.(_header) = []
  /\ t.(_dtype) = None /\ t.(_header_align) = None /\ t.(_align) = None
  /\ t.(_valign) = None.

(** A header of two cells on a default table. *)
Definition two_columns : UniTable :=
  exec (header [s2l "a"; s2l "b"]) new_table.

(** The widths reached by handing out one unit per column in turn: the
    first [i] columns are filled up to the level [r + 1], the others up to
    the level [r], and no column beyond its natural width. *)
Fixpoint level_widths (i : nat) (r : Z) (maxi : list Z) : list Z :=
  match maxi with
  | [] => []
  | m :: rest =>
      Z.min m (match i with O => r | S _ => r + 1 end)
      :: level_widths (pred i) r rest
  end.

(** Three columns of natural widths 10, 2 and 1 under a budget of 15. *)
Definition three_columns : UniTable :=
  exec (set_max_width 15 ;;;
        header [s2l "aaaaaaaaaa"; s2l "bb"; s2l "c"]) new_table.

(** A two-line cell that opens red on its first line and never closes it,
    followed by a plain cell. *)
Definition red_row : list (list str) :=
  [[[ESC] ++ s2l "[31mab"; s2l "cd"]; [s2l "ef"]].

(** A row of plain cells. *)
Definition plain_row : list (list str) :=
  [[s2l "ab"; s2l "cd"]; [s2l "ef"]].

(** Every declared column type is one of the letters [_str] knows. *)
Definition known_dtypes (t : UniTable) : Prop :=
  forall d, t.(_dtype) = Some d -> Forall (fun c => format_map c <> None) d.

(** A cell that [float] rejects, as far as [float_of] follows [float]:
    a text of ASCII characters and blanks that, blanks stripped, does not
    have the form of a literal, or a text that holds a character between
    U+0080 and U+065F other than a blank. *)
Definition textual (x : str) : Prop := float_of x = NotFloat.

(** A letter of the format map of [_str]. *)
Definition known_dtype (c : char) : bool :=
  match format_map c with Some _ => true | None => false end.

(** A word in the sense of [str.split]: not empty, and without a blank. *)
Definition word (w : str) : Prop :=
  w <> [] /\ Forall (fun c => py_isspace c = false) w.

(** ** [split_list]

    The module-level helper that cuts the list of style names into rows
    for the demonstration.  A negative [split_length] is not followed. *)
Inductive split_list_outcome (A : Type) : Type :=
| Chunks (chunks : list (list A))
| ZeroDivisionError            (* [// split_length] with [split_length == 0] *)
| ChunksIndexError             (* [chunks[-1]] on an empty list of chunks *)
| NegativeSplitLength.         (* not modelled *)
Arguments Chunks {A} chunks.
Arguments ZeroDivisionError {A}.
Arguments ChunksIndexError {A}.
Arguments NegativeSplitLength {A}.

(** [input_list[i * split_length:(i + 1) * split_length]], for indices
    that are not negative. *)
Definition chunk_at {A} (input_list : list A) (split_length i : nat)
  : list A :=
  firstn ((i + 1) * split_length - i * split_length)
         (skipn (i * split_length) input_list).

Definition split_list {A} (input_list : list A) (split_length : Z)
  (fill_value : A) : split_list_outcome A :=
  if split_length =? 0 then ZeroDivisionError
  else if split_length <? 0 then NegativeSplitLength
  else
    let num_chunks := (len input_list + split_length - 1) / split_length in
    let chunks :=
      map (chunk_at input_list (Z.to_nat split_length))
          (seq 0 (Z.to_nat num_chunks)) in
    match rev chunks with
    | [] => ChunksIndexError
    | c :: before =>
        if len c <? split_length
        then Chunks (rev before
                     ++ [c ++ repeat fill_value
                                (Z.to_nat (split_length - len c))])
        else Chunks chunks
    end.

(** Two objects that differ at most in the decoration flags, and agree on
    whether lines are drawn between the columns and between the rows. *)
Definition same_lines (t1 t2 : UniTable) : Prop :=
  set_deco_field 0 t1 = set_deco_field 0 t2
  /\ has_vlines t1 = has_vlines t2 /\ has_hlines t1 = has_hlines t2.

(** A method that cannot tell two such objects apart. *)
Definition agrees {A} (m : M A) : Prop :=
  forall t1 t2, same_lines t1 t2 ->
    fst (m t1) = fst (m t2) /\ same_lines (snd (m t1)) (snd (m t2)).

(** Two columns, the first one aligned on the middle, and one row. *)
Definition middle_table : UniTable :=
  exec (set_cols_valign (s2l "mt") ;;; add_row [s2l "x"; s2l "y"]) two_columns.

(** Two columns with one row. *)
Definition one_row_table : UniTable :=
  exec (add_row [s2l "x"; s2l "y"]) two_columns.

(** Two columns declared as text, with one row. *)
Definition text_table : UniTable :=
  exec (set_cols_dtype (s2l "tt") ;;; add_row [s2l "x"; s2l "y"]) two_columns.

(** * Properties *)

Example textwrap_demo :
  textwrapper (s2l "This is some text to wrap") 10
  = Ok [s2l "This is"; s2l "some text"; s2l "to wrap"].
Proof. reflexivity. Qed.

Example textwrap_long_word :
  textwrapper (s2l "ab cdefghij k") 4
  = Ok [s2l "ab c"; s2l "defg"; s2l "hij"; s2l "k"].
Proof. reflexivity. Qed.


Lemma bind_ok {A B} (m : M A) (k : A -> M B) (t t' : UniTable) (a : A) :
  m t = (Ok a, t') -> bind m k t = k a t'.
Proof. intros H. unfold bind. rewrite H. reflexivity. Qed.

Lemma bind_raise {A B} (m : M A) (k : A -> M B) (t t' : UniTable) (e : exn) :
  m t = (Raise e, t') -> bind m k t = (Raise e, t').
Proof. intros H. unfold bind. rewrite H. reflexivity. Qed.

(** ** Scenario A: the exact render *)

(** C1: with header A, B, one row 1, 2, the glyphs "-|+-", padding 1, all
    decorations and the default alignments, [draw] returns the five lines
    of the scenario joined by newlines, with no newline at the end. *)
Theorem scenario_A_exact_render :
  eval scenario_A fresh = Ok (Some scenario_A_expected)
  /\ eval scenario_A_named fresh = Ok (Some scenario_A_expected)
  /\ last scenario_A_expected 0 <> NL
  /\ length (split_on NL scenario_A_expected) = 5%nat.
Proof.
  repeat split; try reflexivity.
  vm_compute. discriminate.
Qed.

(** ** The shape check *)

(** Once a non-zero arity is recorded, an array of another length is
    refused on the spot and the object is left as it was. *)
Lemma _check_row_size_rejects {A} (array : list A) (t : UniTable) (r : Z) :
  t.(_row_size) = Some r -> r <> 0 -> r <> len array ->
  _check_row_size array t = (Raise (ArraySizeError [r] (len array)), t).
Proof.
  intros Hr Hr0 Hne.
  unfold _check_row_size, bind, get, row_size_unset. simpl. rewrite Hr.
  destruct (r =? 0) eqn:E0; [apply Z.eqb_eq in E0; contradiction|].
  destruct (r =? len array) eqn:E; [apply Z.eqb_eq in E; contradiction|].
  reflexivity.
Qed.

Lemma _check_row_size_spec {A} (array : list A) (t : UniTable) :
  _check_row_size array t =
  if row_size_unset t then (Ok tt, set_row_size (Some (len array)) t)
  else match t.(_row_size) with
       | Some r =>
           if negb (r =? len array)
           then (Raise (ArraySizeError [r] (len array)), t)
           else (Ok tt, t)
       | None => (Ok tt, t)
       end.
Proof.
  unfold _check_row_size, bind, get. simpl.
  destruct (row_size_unset t); [reflexivity|].
  destruct (_row_size t) as [r|]; [|reflexivity].
  destruct (negb (r =? len array)); reflexivity.
Qed.

(** C2: after [add_row([])] the recorded arity is 0, which
    [_check_row_size] reads as "not set": the following
    [header(["a", "b"])] is accepted, and the table stores a row of 0
    cells under a header of 2 cells without any [ArraySizeError]. *)
Theorem empty_first_row_escapes_shape_check :
  eval empty_row_then_header new_table = Ok tt
  /\ (exec (add_row []) new_table).(_row_size) = Some 0
  /\ (exec empty_row_then_header new_table).(_rows) = [[]]
  /\ (exec empty_row_then_header new_table).(_header) = [s2l "a"; s2l "b"]
  /\ (exec empty_row_then_header new_table).(_row_size) = Some 2.
Proof. repeat split; reflexivity. Qed.

(** ** Setters *)

(** C9, as the claim states it for padding 0: refuted, [set_padding(0)]
    is accepted. *)
Lemma set_padding_zero_accepted : ~ refused (set_padding 0) new_table.
Proof. intros [e He]. vm_compute in He. discriminate. Qed.

(** C9: a negative padding and a negative precision are refused at the
    call and leave the object untouched, padding 0 is accepted and
    stored, and an array of fixed widths holding a non-positive width is
    refused at the call, leaving the stored widths untouched and, once
    the arity of the table is recorded, the whole object. *)
Theorem invalid_settings_refused (t : UniTable) (n : Z) (array : list Z) :
  (n < 0 -> refused (set_padding n) t /\ refused (set_precision n) t)
  /\ set_padding 0 t = (Ok tt, set_pad_field 0 t)
  /\ ((exists w, In w array /\ w <= 0) ->
      (exists e, eval (set_cols_width array) t = Raise e)
      /\ (exec (set_cols_width array) t).(_width) = t.(_width)
      /\ (row_size_unset t = false -> exec (set_cols_width array) t = t)).
Proof.
  split; [|split].
  - intros Hn. unfold refused, set_padding, set_precision.
    apply Z.ltb_lt in Hn. rewrite Hn. split; eexists; reflexivity.
  - reflexivity.
  - intros (w & Hin & Hw).
    assert (Hmin : forall m, reduce_min array = Ok m -> m <= 0).
    { destruct array as [|x rest]; [contradiction|]. simpl.
      intros m Hm. inversion Hm; subst m.
      assert (G : forall l a, fold_left Z.min l a <= a
                /\ forall v, In v l -> fold_left Z.min l a <= v).
      { induction l as [|y l IH]; simpl; intros a.
        - split; [lia | contradiction].
        - destruct (IH (Z.min a y)) as [H1 H2]. split; [lia|].
          intros v [->|Hv]; [lia | auto]. }
      destruct (G rest x) as [G1 G2].
      destruct Hin as [->|Hin]; [lia | specialize (G2 _ Hin); lia]. }
    unfold eval, exec, set_cols_width.
    pose proof (_check_row_size_spec array t) as Hc.
    assert (Hred : forall s : UniTable, exists e,
              (m <- lift (reduce_min array) ;;
               if m <=? 0
               then raise (ValueError "Values less than or equal to zero not allowed.")
               else modify (set_width_field (Some array))) s = (Raise e, s)).
    { intros s. unfold bind, lift.
      destruct (reduce_min array) as [m|e] eqn:Hm.
      - specialize (Hmin m eq_refl). apply Z.leb_le in Hmin. rewrite Hmin.
        eexists; reflexivity.
      - eexists; reflexivity. }
    destruct (row_size_unset t) eqn:Hu.
    + destruct (Hred (set_row_size (Some (len array)) t)) as [e He].
      rewrite (bind_ok _ _ _ _ _ Hc), He. simpl.
      repeat split; [eexists; reflexivity | discriminate].
    + destruct (_row_size t) as [r|] eqn:Hr.
      * destruct (negb (r =? len array)).
        -- rewrite (bind_raise _ _ _ _ _ Hc). simpl.
           repeat split. eexists; reflexivity.
        -- destruct (Hred t) as [e He].
           rewrite (bind_ok _ _ _ _ _ Hc), He. simpl.
           repeat split; eexists; reflexivity.
      * unfold row_size_unset in Hu. rewrite Hr in Hu. discriminate.
Qed.

(** The setters of C9 at -1, 0 and [[3; 0]] on a default table. *)
Lemma invalid_settings_refused_witness :
  (refused (set_padding (-1)) new_table /\ refused (set_precision (-1)) new_table)
  /\ (exists e, eval (set_cols_width [3; 0]) new_table = Raise e).
Proof.
  destruct (invalid_settings_refused new_table (-1) [3; 0]) as (H1 & _ & H3).
  split.
  - apply H1. lia.
  - apply H3. exists 0. split; [simpl; auto | lia].
Defined.

(** ** Wrapping a styled cell *)

(** C5: [_splitit] wraps with [textwrapper], which counts the bytes of
    the escape sequences.  The red text has display width 5 and is given
    a column of 5, yet it is cut in three physical lines through its
    escape sequences, where the plain text stays on one line; stripped of
    escapes the three lines are not the plain line.  The wrapper of
    [ColorAwareWrapper], which measures with the display width, keeps the
    red text on one line whose visible text is the plain line. *)
Theorem styled_cell_wrapped_by_byte_count :
  vislen red_ab_cd = 5 /\ vislen plain_ab_cd = 5
  /\ red_table.(_width) = Some [5]
  /\ textwrapper plain_ab_cd 5 = Ok [plain_ab_cd]
  /\ textwrapper red_ab_cd 5
     = Ok [[ESC] ++ s2l "[31m"; s2l "ab" ++ [ESC] ++ s2l "[0"; s2l "m cd"]
  /\ (forall lines, textwrapper red_ab_cd 5 = Ok lines ->
      map ansi_escape_sub lines <> [plain_ab_cd])
  /\ (exists l1 l2 l3, _splitit red_table [red_ab_cd] true = Ok [[l1; l2; l3]])
  /\ ColorAwareWrapper.wrap red_ab_cd 5 = red_ab_cd
  /\ ansi_escape_sub (ColorAwareWrapper.wrap red_ab_cd 5) = plain_ab_cd.
Proof.
  repeat split; try reflexivity.
  - intros lines H. vm_compute in H. inversion H; subst lines.
    vm_compute. discriminate.
  - vm_compute. do 3 eexists. reflexivity.
Qed.

(** ** What a method leaves untouched *)

Section Stable.
Variable P : UniTable -> Prop.

Lemma stable_ret {A} (a : A) : stable P (ret a).
Proof. intros t H. exact H. Qed.

Lemma stable_raise {A} (e : exn) : stable P (raise (A:=A) e).
Proof. intros t H. exact H. Qed.

Lemma stable_lift {A} (r : result A) : stable P (lift r).
Proof. intros t H. exact H. Qed.

Lemma stable_get : stable P get.
Proof. intros t H. exact H. Qed.

Lemma stable_modify (f : UniTable -> UniTable) :
  (forall t, P t -> P (f t)) -> stable P (modify f).
Proof. intros Hf t H. simpl. auto. Qed.

Lemma stable_bind {A B} (m : M A) (k : A -> M B) :
  stable P m -> (forall a, stable P (k a)) -> stable P (bind m k).
Proof.
  intros Hm Hk t H. unfold bind.
  specialize (Hm t H). destruct (m t) as [[a|e] t']; simpl in *.
  - apply Hk. exact Hm.
  - exact Hm.
Qed.

Lemma stable_for_each {A} (xs : list A) (body : A -> M unit) :
  (forall x, stable P (body x)) -> stable P (for_each xs body).
Proof.
  intros Hb. induction xs as [|x xs IH]; simpl.
  - apply stable_ret.
  - apply stable_bind; auto.
Qed.

Lemma stable__str (i : nat) (x : str) : stable P (_str i x).
Proof.
  unfold _str. apply stable_bind; [apply stable_get|]. intros t.
  destruct (_dtype t) as [d|]; [|apply stable_raise].
  destruct (nth_error d i) as [c|]; [|apply stable_raise].
  destruct (format_map c) as [f|]; [|apply stable_raise].
  destruct (f x) as [s|[]]; apply stable_lift.
Qed.

Lemma stable_format_cells (array : list str) (i : nat) :
  stable P (format_cells i array).
Proof.
  revert i. induction array as [|x rest IH]; intros i; simpl.
  - apply stable_ret.
  - apply stable_bind; [apply stable__str|]. intros c.
    apply stable_bind; [apply IH|]. intros cs. apply stable_ret.
Qed.
End Stable.

Lemma stable_content__compute_cols_width (c : UniTable) :
  stable (fun t => content_of t = c) _compute_cols_width.
Proof.
  unfold _compute_cols_width. apply stable_bind; [apply stable_get|].
  intros t. destruct (_width t); [apply stable_ret|].
  apply stable_bind; [apply stable_lift|]. intros w.
  apply stable_modify. intros [] H. exact H.
Qed.

Lemma stable_content__check_align (c : UniTable) :
  stable (fun t => content_of t = c) _check_align.
Proof.
  unfold _check_align.
  repeat (first
    [ apply stable_bind; [|intros ?]
    | apply stable_get
    | apply stable_ret
    | apply stable_lift
    | apply stable_modify; intros [] H; exact H
    | match goal with |- stable _ (match ?x with _ => _ end) => destruct x end ]).
Qed.

Lemma stable_content_draw (c : UniTable) :
  stable (fun t => content_of t = c) draw.
Proof.
  unfold draw. apply stable_bind; [apply stable_get|]. intros t.
  assert (H : stable (fun t => content_of t = c)
                (_compute_cols_width ;;; _check_align ;;;
                 t0 <- get ;; out <- lift (draw_body t0) ;; ret (Some out))).
  { apply stable_bind; [apply stable_content__compute_cols_width|]. intros _.
    apply stable_bind; [apply stable_content__check_align|]. intros _.
    apply stable_bind; [apply stable_get|]. intros t0.
    apply stable_bind; [apply stable_lift|]. intros out. apply stable_ret. }
  destruct (_header t); destruct (_rows t); try exact H. apply stable_ret.
Qed.

Lemma stable_width__check_row_size {A} (w : option (list Z)) (array : list A) :
  stable (fun t => _width t = w) (_check_row_size array).
Proof.
  intros t H. rewrite _check_row_size_spec.
  destruct (row_size_unset t).
  - destruct t; exact H.
  - destruct (_row_size t) as [r|]; [destruct (negb _)|]; exact H.
Qed.

Lemma stable_width_header (w : option (list Z)) (array : list str) :
  stable (fun t => _width t = w) (header array).
Proof.
  unfold header. apply stable_bind; [apply stable_width__check_row_size|].
  intros _. apply stable_modify. intros [] H; exact H.
Qed.

Lemma stable_width_add_row (w : option (list Z)) (array : list str) :
  stable (fun t => _width t = w) (add_row array).
Proof.
  unfold add_row. apply stable_bind; [apply stable_width__check_row_size|].
  intros _. apply stable_bind; [apply stable_get|]. intros t.
  apply stable_bind.
  - destruct (_dtype t); [apply stable_ret|].
    destruct (_row_size t); [|apply stable_raise].
    apply stable_modify. intros [] H; exact H.
  - intros _. apply stable_bind; [apply stable_format_cells|]. intros cells.
    apply stable_modify. intros [] H; exact H.
Qed.

Lemma stable_width__check_align (w : option (list Z)) :
  stable (fun t => _width t = w) _check_align.
Proof.
  unfold _check_align.
  repeat (first
    [ apply stable_bind; [|intros ?]
    | apply stable_get
    | apply stable_ret
    | apply stable_lift
    | apply stable_modify; intros [] H; exact H
    | match goal with |- stable _ (match ?x with _ => _ end) => destruct x end ]).
Qed.

Lemma draw_unfold (t : UniTable) :
  draw t = match t.(_header), t.(_rows) with
           | [], [] => (Ok None, t)
           | _, _ => draw_nonempty t
           end.
Proof.
  unfold draw, draw_nonempty, bind at 1, get.
  destruct (_header t); destruct (_rows t); reflexivity.
Qed.

Lemma stable_width_after_compute (w : option (list Z)) :
  stable (fun t => _width t = w)
    (_check_align ;;; t <- get ;; out <- lift (draw_body t) ;; ret (Some out)).
Proof.
  apply stable_bind; [apply stable_width__check_align|]. intros _.
  apply stable_bind; [apply stable_get|]. intros t0.
  apply stable_bind; [apply stable_lift|]. intros out. apply stable_ret.
Qed.

Lemma stable_width_draw (w : list Z) :
  stable (fun t => _width t = Some w) draw.
Proof.
  intros t H. rewrite draw_unfold.
  assert (G : _width (snd (draw_nonempty t)) = Some w).
  { unfold draw_nonempty.
    apply (stable_bind (fun t => _width t = Some w)); [| |exact H].
    - intros t1 H1. unfold _compute_cols_width, bind, get. simpl.
      rewrite H1. exact H1.
    - intros _. apply stable_width_after_compute. }
  destruct (_header t); destruct (_rows t); try exact G. exact H.
Qed.

Lemma _compute_cols_width_sets (t t' : UniTable) (u : unit) :
  _compute_cols_width t = (Ok u, t') -> exists w, _width t' = Some w.
Proof.
  unfold _compute_cols_width, bind, get, lift, modify, ret. simpl.
  destruct (_width t) as [w|] eqn:Hw.
  - intros H. inversion H; subst. eauto.
  - destruct (fit_widths t) as [w|e]; intros H; inversion H; subst.
    exists w. destruct t; reflexivity.
Qed.

(** ** The width cache *)

(** C7, as the claim states it: refuted.  After a first [draw] and an
    [add_row] with a four-character cell the content calls for a column
    of 4, and the second [draw] keeps the stored column of 1. *)
Lemma second_draw_reuses_stored_widths :
  ~ widths_follow_content stale_table.
Proof.
  intros H. specialize (H [4] eq_refl). vm_compute in H. discriminate.
Qed.

Lemma _compute_cols_width_effect (t : UniTable) :
  _compute_cols_width t
  = match t.(_width) with
    | Some _ => (Ok tt, t)
    | None =>
        match fit_widths t with
        | Ok w' => (Ok tt, set_width_field (Some w') t)
        | Raise e => (Raise e, t)
        end
    end.
Proof.
  unfold _compute_cols_width, bind, get, lift, modify, ret. simpl.
  destruct (_width t); [reflexivity|].
  destruct (fit_widths t); reflexivity.
Qed.

(** [_check_align] touches the three alignment arrays only, and fills
    those that are unset. *)
Lemma _check_align_effect (t : UniTable) :
  content_of (snd (_check_align t)) = content_of t
  /\ (snd (_check_align t)).(_width) = t.(_width)
  /\ ((snd (_check_align t)).(_header_align) = t.(_header_align)
      \/ (snd (_check_align t)).(_header_align)
         = defaulted 99 t.(_header_align) t.(_row_size))
  /\ ((snd (_check_align t)).(_align) = t.(_align)
      \/ (snd (_check_align t)).(_align)
         = defaulted 108 t.(_align) t.(_row_size))
  /\ ((snd (_check_align t)).(_valign) = t.(_valign)
      \/ (snd (_check_align t)).(_valign)
         = defaulted 116 t.(_valign) t.(_row_size))
  /\ (forall u, fst (_check_align t) = Ok u ->
      (snd (_check_align t)).(_header_align)
      = defaulted 99 t.(_header_align) t.(_row_size)
      /\ (snd (_check_align t)).(_align)
         = defaulted 108 t.(_align) t.(_row_size)
      /\ (snd (_check_align t)).(_valign)
         = defaulted 116 t.(_valign) t.(_row_size)).
Proof.
  destruct t. unfold _check_align, bind, get, lift, modify, ret, defaulted.
  simpl.
  destruct _header_align0, _align0, _valign0, _row_size0; simpl;
    (split; [reflexivity|]); (split; [reflexivity|]);
    (split; [auto|]); (split; [auto|]); (split; [auto|]);
    intros u H; try discriminate H; repeat split.
Qed.

(** The three ways [draw] ends on a table that is not empty. *)
Lemma draw_nonempty_effect (t : UniTable) :
  (exists e, draw_nonempty t = (Raise e, t)
             /\ t.(_width) = None /\ fit_widths t = Raise e)
  \/ (exists w',
        (t.(_width) = Some w' \/ (t.(_width) = None /\ fit_widths t = Ok w'))
        /\ snd (draw_nonempty t)
           = snd (_check_align (set_width_field (Some w') t))
        /\ ((exists e, fst (draw_nonempty t) = Raise e)
            \/ (exists u out,
                  fst (_check_align (set_width_field (Some w') t)) = Ok u
                  /\ fst (draw_nonempty t) = Ok (Some out)))).
Proof.
  unfold draw_nonempty.
  assert (Hrest : forall w',
             (t.(_width) = Some w'
              \/ (t.(_width) = None /\ fit_widths t = Ok w')) ->
             _compute_cols_width t = (Ok tt, set_width_field (Some w') t) ->
             exists w'0,
               (t.(_width) = Some w'0
                \/ (t.(_width) = None /\ fit_widths t = Ok w'0))
               /\ snd ((_compute_cols_width ;;; _check_align ;;;
                        t0 <- get ;; out <- lift (draw_body t0) ;;
                        ret (Some out)) t)
                  = snd (_check_align (set_width_field (Some w'0) t))
               /\ ((exists e,
                      fst ((_compute_cols_width ;;; _check_align ;;;
                            t0 <- get ;; out <- lift (draw_body t0) ;;
                            ret (Some out)) t) = Raise e)
                   \/ (exists u out,
                         fst (_check_align (set_width_field (Some w'0) t))
                         = Ok u
                         /\ fst ((_compute_cols_width ;;; _check_align ;;;
                                  t0 <- get ;; out <- lift (draw_body t0) ;;
                                  ret (Some out)) t) = Ok (Some out)))).
  { intros w' Hw' Hc. exists w'. split; [exact Hw'|].
    rewrite (bind_ok _ _ _ _ _ Hc).
    destruct (_check_align (set_width_field (Some w') t)) as [[u|e] t2] eqn:Ha.
    - rewrite (bind_ok _ _ _ _ _ Ha). unfold bind, get, lift, ret.
      cbn [fst snd].
      destruct (draw_body t2) as [out|e]; cbn [fst snd];
        (split; [reflexivity|]).
      + right. exists u, out. split; reflexivity.
      + left. exists e. reflexivity.
    - rewrite (bind_raise _ _ _ _ _ Ha). cbn [fst snd].
      split; [reflexivity|]. left. exists e. reflexivity. }
  pose proof (_compute_cols_width_effect t) as Hc.
  destruct (_width t) as [w0|] eqn:Hw.
  - right. apply (Hrest w0); [left; reflexivity|].
    rewrite Hc. f_equal. destruct t; simpl in Hw; subst; reflexivity.
  - destruct (fit_widths t) as [w'|e] eqn:Hf.
    + right. apply (Hrest w'); [right; split; reflexivity | exact Hc].
    + left. exists e. rewrite (bind_raise _ _ _ _ _ Hc).
      repeat split; reflexivity.
Qed.

Ltac keeps_core :=
  repeat (first
    [ apply stable_width__check_row_size
    | apply stable_width_header
    | apply stable_width_add_row
    | apply stable_width_draw
    | apply stable_format_cells
    | apply stable_get
    | apply stable_ret
    | apply stable_raise
    | apply stable_lift
    | apply stable_modify; intros [] ?H; assumption
    | apply stable_for_each; intros ?
    | apply stable_bind; [|intros ?]
    | match goal with
      | |- stable _ (match ?x with _ => _ end) => destruct x
      end ]).

Ltac keeps := intros ?w; keeps_core.

Lemma keeps_widths_set_table_lines (g : list str) :
  keeps_widths (set_table_lines g).
Proof.
  unfold set_table_lines, _set_table_lines. keeps.
Qed.

(** C7: [draw] changes no attribute other than the stored widths and the
    three alignment arrays.  A [draw] that returns nothing changes
    nothing.  A [draw] that returns a text leaves stored the widths that
    were stored before or, when none were, the widths computed from the
    content, and leaves each alignment array as it was set or, when it
    was unset, filled with its default letter once per column.  Stored
    widths are kept by every other method of the table, whatever its
    outcome, so that a [draw] after an [add_row] uses the widths of the
    earlier [draw]; and a [set_cols_width] that succeeds replaces
    them. *)
Theorem draw_touches_only_stored_widths_and_alignments
  (t : UniTable) (w : list Z) (row : list str) :
  content_of (exec draw t) = content_of t
  /\ (eval draw t = Ok None -> exec draw t = t)
  /\ (forall out, eval draw t = Ok (Some out) ->
      (exists w', (exec draw t).(_width) = Some w'
                  /\ (t.(_width) = Some w'
                      \/ (t.(_width) = None /\ fit_widths t = Ok w')))
      /\ (exec draw t).(_header_align)
         = defaulted 99 t.(_header_align) t.(_row_size)
      /\ (exec draw t).(_align) = defaulted 108 t.(_align) t.(_row_size)
      /\ (exec draw t).(_valign) = defaulted 116 t.(_valign) t.(_row_size))
  /\ (((exec draw t).(_header_align) = t.(_header_align)
       \/ (exec draw t).(_header_align)
          = defaulted 99 t.(_header_align) t.(_row_size))
      /\ ((exec draw t).(_align) = t.(_align)
          \/ (exec draw t).(_align)
             = defaulted 108 t.(_align) t.(_row_size))
      /\ ((exec draw t).(_valign) = t.(_valign)
          \/ (exec draw t).(_valign)
             = defaulted 116 t.(_valign) t.(_row_size)))
  /\ ((forall array, keeps_widths (header array))
      /\ (forall array, keeps_widths (add_row array))
      /\ (forall rows b, keeps_widths (add_rows rows b))
      /\ (forall rows b, keeps_widths (set_rows rows b))
      /\ keeps_widths reset
      /\ (forall m, keeps_widths (set_max_width m))
      /\ (forall name, keeps_widths (set_style name))
      /\ (forall g, keeps_widths (set_table_lines g))
      /\ (forall d, keeps_widths (set_decorations d))
      /\ (forall b, keeps_widths (set_has_border b))
      /\ (forall b, keeps_widths (set_has_header b))
      /\ (forall a, keeps_widths (set_header_align a))
      /\ (forall a, keeps_widths (set_cols_align a))
      /\ (forall a, keeps_widths (set_cols_valign a))
      /\ (forall a, keeps_widths (set_cols_dtype a))
      /\ (forall p, keeps_widths (set_precision p))
      /\ (forall p, keeps_widths (set_padding p))
      /\ keeps_widths draw)
  /\ (forall array, eval (set_cols_width array) t = Ok tt ->
      (exec (set_cols_width array) t).(_width) = Some array)
  /\ (t.(_width) = Some w ->
      (exec (add_row row ;;; draw) t).(_width) = Some w).
Proof.
  assert (Hsame : forall t0 : UniTable,
             _row_size (set_width_field (_width t0) t0) = _row_size t0)
    by (intros []; reflexivity).
  assert (Hfields : forall (t0 : UniTable) w0,
             _row_size (set_width_field w0 t0) = _row_size t0
             /\ _header_align (set_width_field w0 t0) = _header_align t0
             /\ _align (set_width_field w0 t0) = _align t0
             /\ _valign (set_width_field w0 t0) = _valign t0
             /\ _width (set_width_field w0 t0) = w0)
    by (intros [] w0; repeat split).
  split; [apply (stable_content_draw (content_of t)); reflexivity|].
  split.
  { unfold eval, exec. rewrite draw_unfold.
    destruct (_header t), (_rows t); try reflexivity;
      intros H; exfalso;
      destruct (draw_nonempty_effect t)
        as [(e & He & _)|(w' & _ & _ & [(e & He)|(u & out & _ & He)])];
      rewrite He in H; discriminate H. }
  split.
  { intros out. unfold eval, exec. rewrite draw_unfold.
    assert (G : fst (draw_nonempty t) = Ok (Some out) ->
                (exists w', _width (snd (draw_nonempty t)) = Some w'
                   /\ (_width t = Some w'
                       \/ (_width t = None /\ fit_widths t = Ok w')))
                /\ _header_align (snd (draw_nonempty t))
                   = defaulted 99 (_header_align t) (_row_size t)
                /\ _align (snd (draw_nonempty t))
                   = defaulted 108 (_align t) (_row_size t)
                /\ _valign (snd (draw_nonempty t))
                   = defaulted 116 (_valign t) (_row_size t)).
    { intros H.
      destruct (draw_nonempty_effect t)
        as [(e & He & _)|(w' & Hw' & Hs & [(e & He)|(u & o & Hu & _)])];
        [rewrite He in H; discriminate H | rewrite He in H; discriminate H|].
      rewrite Hs.
      destruct (_check_align_effect (set_width_field (Some w') t))
        as (_ & Hwd & _ & _ & _ & Hok).
      destruct (Hok u Hu) as (H1 & H2 & H3).
      destruct (Hfields t (Some w')) as (F1 & F2 & F3 & F4 & F5).
      rewrite F1, F2 in H1. rewrite F1, F3 in H2. rewrite F1, F4 in H3.
      rewrite F5 in Hwd.
      split; [exists w'; split; [exact Hwd | exact Hw']|].
      split; [exact H1|]. split; [exact H2 | exact H3]. }
    destruct (_header t), (_rows t); try exact G. discriminate. }
  split.
  { unfold exec. rewrite draw_unfold.
    assert (G : (_header_align (snd (draw_nonempty t)) = _header_align t
                 \/ _header_align (snd (draw_nonempty t))
                    = defaulted 99 (_header_align t) (_row_size t))
                /\ (_align (snd (draw_nonempty t)) = _align t
                    \/ _align (snd (draw_nonempty t))
                       = defaulted 108 (_align t) (_row_size t))
                /\ (_valign (snd (draw_nonempty t)) = _valign t
                    \/ _valign (snd (draw_nonempty t))
                       = defaulted 116 (_valign t) (_row_size t))).
    { destruct (draw_nonempty_effect t)
        as [(e & He & _)|(w' & Hw' & Hs & _)].
      - rewrite He. cbn [snd]. auto.
      - rewrite Hs.
        destruct (_check_align_effect (set_width_field (Some w') t))
          as (_ & _ & H1 & H2 & H3 & _).
        destruct (Hfields t (Some w')) as (F1 & F2 & F3 & F4 & _).
        rewrite F1, F2 in H1. rewrite F1, F3 in H2. rewrite F1, F4 in H3.
        auto. }
    destruct (_header t), (_rows t); try exact G. cbn [snd]. auto. }
  split.
  { repeat match goal with |- _ /\ _ => split end.
    - intros array. keeps.
    - intros array. keeps.
    - intros rows b. unfold add_rows. keeps.
    - intros rows b. unfold set_rows, add_rows. keeps.
    - unfold reset. keeps.
    - intros m. unfold set_max_width. keeps.
    - intros name. unfold set_style. intros w0.
      apply stable_bind; [apply stable_modify; intros [] H; exact H|].
      intros _. destruct (lookup_style name STYLES);
        [apply keeps_widths_set_table_lines | apply stable_raise].
    - intros g. apply keeps_widths_set_table_lines.
    - intros d. unfold set_decorations. keeps.
    - intros b. unfold set_has_border. keeps.
    - intros b. unfold set_has_header. keeps.
    - intros a. unfold set_header_align. keeps.
    - intros a. unfold set_cols_align. keeps.
    - intros a. unfold set_cols_valign. keeps.
    - intros a. unfold set_cols_dtype. keeps.
    - intros p. unfold set_precision. keeps.
    - intros p. unfold set_padding. keeps.
    - keeps. }
  split.
  { intros array. unfold eval, exec, set_cols_width.
    destruct (_check_row_size array t) as [[u|e] t1] eqn:Hc.
    - rewrite (bind_ok _ _ _ _ _ Hc). unfold bind, lift, modify, raise.
      destruct (reduce_min array) as [m|e]; cbn [fst snd];
        [|discriminate].
      destruct (m <=? 0); cbn [fst snd]; [discriminate|].
      intros _. destruct t1; reflexivity.
    - rewrite (bind_raise _ _ _ _ _ Hc). discriminate. }
  intros Hw.
  apply (stable_bind (fun t => _width t = Some w)); [| |exact Hw].
  - apply stable_width_add_row.
  - intros _. apply stable_width_draw.
Qed.

(** The widths stored by a first [draw] survive [add_row] and a second
    [draw]; the first [draw] has filled the column alignments with the
    letter l. *)
Lemma draw_touches_only_stored_widths_and_alignments_witness :
  (exec draw one_column).(_width) = Some [1]
  /\ (exec draw one_column).(_align) = Some [108]
  /\ (exec (add_row [s2l "wide"] ;;; draw) (exec draw one_column)).(_width)
     = Some [1].
Proof.
  split; [reflexivity|]. split.
  - destruct (draw_touches_only_stored_widths_and_alignments
                one_column [1] [s2l "wide"]) as (_ & _ & H & _).
    destruct (H (join [NL] [[9484; 9472; 9472; 9472; 9488];
                            [9474; 32; 65; 32; 9474];
                            [9500; 9472; 9472; 9472; 9508];
                            [9474; 32; 49; 32; 9474];
                            [9492; 9472; 9472; 9472; 9496]]) eq_refl)
      as (_ & _ & Ha & _).
    exact Ha.
  - destruct (draw_touches_only_stored_widths_and_alignments
                (exec draw one_column) [1] [s2l "wide"])
      as (_ & _ & _ & _ & _ & _ & H).
    apply H. reflexivity.
Defined.

(** ** The width error *)

Lemma benign_rbind {A B} (r : result A) (k : A -> result B) :
  benign r -> (forall a, benign (k a)) -> benign (rbind r k).
Proof. destruct r as [a|e]; simpl; auto. Qed.

Lemma benign_ok {A} (a : A) : benign (Ok a).
Proof. exact I. Qed.

Lemma benign_index {A} (l : list A) (i : nat) : benign (index l i).
Proof. unfold index. destruct (nth_error l i); exact I. Qed.

Lemma benign_reduce_max (l : list Z) : benign (reduce_max l).
Proof. destruct l; exact I. Qed.

Lemma benign_width_attr (t : UniTable) : benign (width_attr t).
Proof. unfold width_attr. destruct (_width t); exact I. Qed.

Lemma benign__wrap_chunks_loop (fuel : nat) (width : Z) (lines chunks : list str) :
  benign (textwrap._wrap_chunks_loop fuel width lines chunks).
Proof.
  revert lines chunks. induction fuel as [|fuel IH]; intros lines chunks;
    destruct chunks as [|c chunks]; simpl; try exact I.
  destruct (textwrap.one_line width lines (c :: chunks)) as [lines' chunks'].
  apply IH.
Qed.

Lemma benign_textwrapper (txt : str) (width : Z) : benign (textwrapper txt width).
Proof.
  unfold textwrapper, textwrap.wrap, textwrap._wrap_chunks. cbv zeta.
  destruct (existsb (Z.eqb 45) txt && (0 <? width)
            && (width <? textwrap.len (textwrap._munge_whitespace txt)));
    [exact I|].
  destruct (width <=? 0); [exact I|]. apply benign__wrap_chunks_loop.
Qed.

Lemma benign_wrap_parts (parts : list str) (width : Z) :
  benign (wrap_parts parts width).
Proof.
  induction parts as [|c rest IH]; simpl; [exact I|].
  destruct (strip_is_empty c).
  - apply benign_rbind; [exact IH | intros; exact I].
  - apply benign_rbind; [apply benign_textwrapper|]. intros wrapped.
    apply benign_rbind; [exact IH | intros; exact I].
Qed.

Lemma benign_wrap_cells (line : list str) (widths : list Z) :
  benign (wrap_cells line widths).
Proof.
  revert widths. induction line as [|cell line IH]; intros [|w ws]; simpl;
    try exact I.
  apply benign_rbind; [apply benign_wrap_parts|]. intros array.
  apply benign_rbind; [apply IH | intros; exact I].
Qed.

Lemma benign_valign_cells (isheader : bool) (m : Z)
  (cells : list (list str)) (valigns : list char) :
  benign (valign_cells isheader m cells valigns).
Proof.
  revert valigns. induction cells as [|cell cells IH]; intros [|v vs]; simpl;
    try exact I.
  destruct ((if isheader then 116 else v) =? 109); [exact I|].
  apply benign_rbind; [apply IH | intros; exact I].
Qed.

Lemma benign__splitit (t : UniTable) (line : list str) (isheader : bool) :
  benign (_splitit t line isheader).
Proof.
  unfold _splitit.
  apply benign_rbind; [apply benign_width_attr|]. intros widths.
  apply benign_rbind; [apply benign_wrap_cells|]. intros lw.
  apply benign_rbind; [apply benign_reduce_max|]. intros m.
  apply benign_rbind; [destruct (_valign t); exact I|]. intros v.
  apply benign_rbind; [apply benign_valign_cells | intros; exact I].
Qed.

Lemma benign_draw_cells (t : UniTable) (isheader : bool) (i : nat) (n : Z)
  (line : list (list str)) (widths : list Z) (aligns : list char) (k : Z) :
  benign (draw_cells t isheader i n k line widths aligns).
Proof.
  revert widths aligns k.
  induction line as [|cell line IH]; intros [|w ws] [|a als] k; simpl;
    try exact I.
  apply benign_rbind; [apply benign_index|]. intros cell_line.
  apply benign_rbind.
  - destruct isheader; [|exact I].
    destruct (_header_align t); [apply benign_index | exact I].
  - intros al. apply benign_rbind; [apply IH | intros; exact I].
Qed.

Lemma benign_draw_physical_lines (t : UniTable) (isheader : bool)
  (line : list (list str)) (widths : list Z) (aligns : list char)
  (rows : list nat) :
  benign (draw_physical_lines t isheader line widths aligns rows).
Proof.
  induction rows as [|i rows IH]; simpl; [exact I|].
  apply benign_rbind.
  - unfold draw_physical_line.
    apply benign_rbind; [apply benign_draw_cells | intros; exact I].
  - intros l. apply benign_rbind; [exact IH | intros; exact I].
Qed.

Lemma benign__draw_line (t : UniTable) (line : list str) (isheader : bool) :
  benign (_draw_line t line isheader).
Proof.
  unfold _draw_line.
  apply benign_rbind; [apply benign__splitit|]. intros l.
  apply benign_rbind; [apply benign_index|]. intros first.
  apply benign_rbind; [apply benign_width_attr|]. intros widths.
  apply benign_rbind; [destruct (_align t); exact I|]. intros aligns.
  apply benign_draw_physical_lines.
Qed.

Lemma benign__build_hline (t : UniTable) (is_header : bool) (loc : location) :
  benign (_build_hline t is_header loc).
Proof.
  unfold _build_hline.
  destruct (str_eqb (_style t) (s2l "none")); [exact I|].
  unfold width_attr.
  destruct loc, is_header; simpl;
    destruct (_width t); try exact I; destruct (_has_border t); exact I.
Qed.

Lemma benign_draw_rows (t : UniTable) (rows : list (list str)) (num nrows : Z) :
  benign (draw_rows t num nrows rows).
Proof.
  revert num. induction rows as [|row rows IH]; intros num; simpl; [exact I|].
  apply benign_rbind; [apply benign__draw_line|]. intros l.
  apply benign_rbind.
  - destruct (has_hlines t && (num + 1 <? nrows));
      [apply benign__build_hline | exact I].
  - intros h. apply benign_rbind; [apply IH | intros; exact I].
Qed.

Lemma benign_draw_body (t : UniTable) : benign (draw_body t).
Proof.
  unfold draw_body.
  apply benign_rbind;
    [destruct (_has_border t); [apply benign__build_hline | exact I]|].
  intros top. apply benign_rbind.
  - destruct (_header t) as [|h0 hs]; [exact I|].
    apply benign_rbind; [apply benign__draw_line|]. intros hl.
    apply benign_rbind; [|intros; exact I].
    destruct (_has_header t); [apply benign__build_hline | exact I].
  - intros hd. apply benign_rbind; [apply benign_draw_rows|]. intros body.
    apply benign_rbind; [|intros; exact I].
    destruct (_has_border t); [apply benign__build_hline | exact I].
Qed.

Lemma benign_distribute (fuel : nat) (maxi newmaxi : list Z) (i : nat) (a : Z) :
  benign (distribute fuel maxi newmaxi i a).
Proof.
  revert newmaxi i a. induction fuel as [|fuel IH]; intros newmaxi i a; simpl.
  - destruct (a >? 0); exact I.
  - destruct (a >? 0); [|exact I].
    destruct (nth_error newmaxi i) as [x|]; [|exact I].
    destruct (nth_error maxi i) as [y|]; [|exact I].
    destruct (x <? y); apply IH.
Qed.

Lemma benign__check_align (t : UniTable) : benign (fst (_check_align t)).
Proof.
  destruct t. unfold _check_align, bind, get, lift, modify, ret. simpl.
  destruct _header_align0, _align0, _valign0, _row_size0; simpl; exact I.
Qed.

Lemma benign_after_compute (t : UniTable) :
  benign (fst ((_check_align ;;;
                t0 <- get ;; out <- lift (draw_body t0) ;; ret (Some out)) t)).
Proof.
  pose proof (benign__check_align t) as H.
  unfold bind at 1. destruct (_check_align t) as [[u|e] t']; simpl in *.
  - unfold bind, get, lift, ret. simpl.
    pose proof (benign_draw_body t') as Hb.
    destruct (draw_body t') as [out|e]; simpl; [exact I | exact Hb].
  - exact H.
Qed.

Lemma fit_widths_width_error (t : UniTable) (m n : Z) :
  fit_widths t = Raise (WidthTooLow m n)
  <-> too_narrow t /\ m = t.(_max_width) /\ n = columns t + overhead t.
Proof.
  unfold fit_widths, too_narrow, overhead, content_width, columns.
  set (maxi := natural_widths t).
  set (deco := deco_width t (len maxi)).
  set (cw := fold_right Z.add 0 maxi).
  destruct (_max_width t =? 0) eqn:E0; simpl.
  - apply Z.eqb_eq in E0. split; [discriminate | intros [[H _] _]; contradiction].
  - apply Z.eqb_neq in E0.
    destruct (cw + deco >? _max_width t) eqn:E1.
    + destruct (_max_width t <? len maxi + deco) eqn:E2.
      * apply Z.ltb_lt in E2. split.
        -- intros H. inversion H; subst. repeat split; auto. lia.
        -- intros (_ & -> & ->). reflexivity.
      * apply Z.ltb_ge in E2. split.
        -- intros H.
           pose proof (benign_distribute
                         (Z.to_nat ((_max_width t - deco) * len maxi)) maxi
                         (repeat 0 (length maxi)) O (_max_width t - deco)) as B.
           rewrite H in B. contradiction.
        -- intros ((_ & _ & H) & _). lia.
    + split; [discriminate|]. intros ((_ & H & _) & _). lia.
Qed.

Lemma draw_nonempty_width_error (t : UniTable) (m n : Z) :
  fst (draw_nonempty t) = Raise (WidthTooLow m n)
  <-> t.(_width) = None /\ fit_widths t = Raise (WidthTooLow m n).
Proof.
  unfold draw_nonempty.
  assert (Hb : forall t', fst ((_check_align ;;;
                t0 <- get ;; out <- lift (draw_body t0) ;; ret (Some out)) t')
               <> Raise (WidthTooLow m n)).
  { intros t' H. pose proof (benign_after_compute t') as B.
    rewrite H in B. exact B. }
  destruct (_width t) as [w|] eqn:Hw.
  - assert (Hc : _compute_cols_width t = (Ok tt, t)).
    { unfold _compute_cols_width, bind, get. simpl. rewrite Hw. reflexivity. }
    rewrite (bind_ok _ _ _ _ _ Hc). split.
    + intros H. exfalso. exact (Hb _ H).
    + intros [H _]. discriminate.
  - destruct (fit_widths t) as [w|e] eqn:Hf.
    + assert (Hc : _compute_cols_width t = (Ok tt, set_width_field (Some w) t)).
      { unfold _compute_cols_width, bind, get, lift, modify. simpl.
        rewrite Hw, Hf. reflexivity. }
      rewrite (bind_ok _ _ _ _ _ Hc). split.
      * intros H. exfalso. exact (Hb _ H).
      * intros [_ H]. discriminate.
    + assert (Hc : _compute_cols_width t = (Raise e, t)).
      { unfold _compute_cols_width, bind, get, lift. simpl.
        rewrite Hw, Hf. reflexivity. }
      rewrite (bind_raise _ _ _ _ _ Hc). simpl. split.
      * intros H. split; [reflexivity | inversion H; reflexivity].
      * intros [_ H]. inversion H; reflexivity.
Qed.

Lemma _len_cell_nonneg (cell : str) : 0 <= _len_cell cell.
Proof.
  unfold _len_cell.
  assert (G : forall l a, 0 <= a ->
            0 <= fold_left (fun maxi line =>
                   Z.max maxi (len_parts 0 (split_on TAB line))) l a).
  { induction l as [|x l IH]; simpl; intros a Ha; [exact Ha|].
    apply IH. lia. }
  apply G. lia.
Qed.

Lemma list_set_Forall {A} (P : A -> Prop) (i : nat) (v : A) (l : list A) :
  P v -> Forall P l -> Forall P (list_set i v l).
Proof.
  intros Hv. revert i. induction l as [|x l IH]; intros i H; destruct i; simpl;
    try constructor; inversion H; subst; auto.
Qed.

Lemma natural_widths_nonneg (t : UniTable) :
  Forall (fun w => 0 <= w) (natural_widths t).
Proof.
  unfold natural_widths.
  assert (Hrow : forall row i maxi, Forall (fun w => 0 <= w) maxi ->
                   Forall (fun w => 0 <= w) (widen_by_row i row maxi)).
  { induction row as [|cell row IH]; simpl; intros i maxi H; [exact H|].
    apply IH. pose proof (_len_cell_nonneg cell).
    destruct (nth_error maxi i) as [m|].
    - apply list_set_Forall; [lia | exact H].
    - apply Forall_app. split; [exact H | constructor; [assumption|constructor]]. }
  assert (G : forall rows maxi, Forall (fun w => 0 <= w) maxi ->
                Forall (fun w => 0 <= w)
                  (fold_left (fun maxi row => widen_by_row O row maxi) rows maxi)).
  { induction rows as [|row rows IH]; simpl; intros maxi H; [exact H|].
    apply IH. apply Hrow. exact H. }
  apply G. destruct (_header t) as [|h hs]; [constructor|].
  apply Forall_forall. intros w Hin. apply in_map_iff in Hin.
  destruct Hin as (c & <- & _). apply _len_cell_nonneg.
Qed.

Lemma sum_at_least (k : Z) (l : list Z) :
  Forall (fun w => k <= w) l -> k * len l <= fold_right Z.add 0 l.
Proof.
  unfold len. induction 1 as [|x l Hx H IH]; simpl length; simpl fold_right.
  - lia.
  - rewrite Nat2Z.inj_succ. lia.
Qed.

Lemma draw_width_error (t : UniTable) (m n : Z) :
  nonempty t ->
  (eval draw t = Raise (WidthTooLow m n)
   <-> t.(_width) = None /\ too_narrow t
       /\ m = t.(_max_width) /\ n = columns t + overhead t).
Proof.
  intros Hne. unfold eval. rewrite draw_unfold.
  assert (G : fst (draw_nonempty t) = Raise (WidthTooLow m n)
              <-> t.(_width) = None /\ too_narrow t
                  /\ m = t.(_max_width) /\ n = columns t + overhead t).
  { rewrite draw_nonempty_width_error, fit_widths_width_error. tauto. }
  destruct (_header t) eqn:Hh; destruct (_rows t) eqn:Hr; try exact G.
  destruct Hne as [H|H]; contradiction.
Qed.

(** C3, as the claim states it: refuted.  Two columns with a border need
    9, the budget is 8, and the table, whose content and decorations take
    8, is rendered. *)
Lemma narrow_table_is_rendered :
  ~ width_error_exactly_when_too_small narrow_table.
Proof.
  intros [_ H].
  assert (Hlt : _max_width narrow_table
                < columns narrow_table + overhead narrow_table)
    by (vm_compute; reflexivity).
  specialize (H Hlt). vm_compute in H. discriminate.
Qed.

(** C3: on a table that is not empty, [draw] raises the width error
    exactly when no widths are stored, the budget is bounded, the content
    with its decorations exceeds the budget and the budget is below the
    columns plus the decorations; the error then states the budget and
    columns + overhead.  So it is never raised when the budget reaches
    columns + overhead, it is always raised below that when every column
    has content, and for two bordered columns under a budget of 5 it
    states 9. *)
Theorem width_error_raised_under_guard (t : UniTable) (m n : Z) :
  nonempty t ->
  (eval draw t = Raise (WidthTooLow m n)
   <-> t.(_width) = None /\ too_narrow t
       /\ m = t.(_max_width) /\ n = columns t + overhead t)
  /\ (columns t + overhead t <= t.(_max_width) ->
      eval draw t <> Raise (WidthTooLow m n))
  /\ (Forall (fun w => 1 <= w) (natural_widths t) -> t.(_width) = None ->
      0 < t.(_max_width) -> t.(_max_width) < columns t + overhead t ->
      eval draw t
      = Raise (WidthTooLow t.(_max_width) (columns t + overhead t)))
  /\ (t.(_width) = None -> t.(_has_border) = true -> columns t = 2 ->
      t.(_max_width) = 5 -> eval draw t = Raise (WidthTooLow 5 9)).
Proof.
  intros Hne. split; [apply draw_width_error; exact Hne|].
  split; [|split].
  - intros Hge H. apply (draw_width_error t m n Hne) in H.
    destruct H as (_ & (_ & _ & Hlt) & _). lia.
  - intros Hall Hw Hpos Hlt. apply (draw_width_error _ _ _ Hne).
    repeat split; auto; [lia|].
    pose proof (sum_at_least 1 _ Hall) as Hs.
    unfold content_width, columns in *. lia.
  - intros Hw Hb Hc Hm. apply (draw_width_error _ _ _ Hne).
    pose proof (sum_at_least 0 _ (natural_widths_nonneg t)) as Hs.
    unfold too_narrow, content_width, overhead, deco_width in *.
    rewrite Hc, Hb, Hm in *. repeat split; auto; lia.
Qed.

(** Scenario C: two columns, border and vertical lines, a budget of 5. *)
Lemma width_error_raised_under_guard_witness :
  nonempty scenario_C /\ eval draw scenario_C = Raise (WidthTooLow 5 9).
Proof.
  assert (Hne : nonempty scenario_C) by (left; discriminate).
  split; [exact Hne|].
  destruct (width_error_raised_under_guard scenario_C 5 9 Hne)
    as (_ & _ & _ & H).
  apply H; reflexivity.
Defined.

(** ** Escape sequences and the display width *)

Lemma count_while_app (p : char -> bool) (s r : str) :
  (count_while p s < length s)%nat ->
  count_while p (s ++ r) = count_while p s.
Proof.
  induction s as [|c s IH]; simpl; intros H; [lia|].
  destruct (p c); [|reflexivity]. f_equal. apply IH. lia.
Qed.

Lemma count_while_le (p : char -> bool) (s : str) :
  (count_while p s <= length s)%nat.
Proof. induction s as [|c s IH]; simpl; [lia|]. destruct (p c); lia. Qed.

Lemma skipn_app_le {A} (n : nat) (s r : list A) :
  (n <= length s)%nat -> skipn n (s ++ r) = skipn n s ++ r.
Proof.
  intros H. rewrite skipn_app.
  replace (n - length s)%nat with O by lia. reflexivity.
Qed.

Lemma skipn_cons_length {A} (n : nat) (s : list A) (c : A) (rest : list A) :
  skipn n s = c :: rest -> (n < length s)%nat.
Proof.
  intros H. destruct (Nat.lt_ge_cases n (length s)) as [Hlt|Hge]; [exact Hlt|].
  rewrite skipn_all2 in H by exact Hge. discriminate.
Qed.

Lemma csi_body_len_app (s r : str) (n : nat) :
  csi_body_len s = Some n -> csi_body_len (s ++ r) = Some n.
Proof.
  unfold csi_body_len.
  set (np := count_while is_param s).
  set (ni := count_while is_inter (skipn np s)).
  destruct (skipn (np + ni) s) as [|c rest] eqn:Hs; [discriminate|].
  intros H. pose proof (skipn_cons_length _ _ _ _ Hs) as Hlen.
  assert (Hp : count_while is_param (s ++ r) = np).
  { apply count_while_app. fold np. lia. }
  rewrite Hp.
  assert (Hi : count_while is_inter (skipn np (s ++ r)) = ni).
  { rewrite skipn_app_le by lia. apply count_while_app. fold ni.
    rewrite length_skipn. lia. }
  rewrite Hi, skipn_app_le by lia. rewrite Hs. simpl. exact H.
Qed.

Lemma csi_body_len_bound (s : str) (n : nat) :
  csi_body_len s = Some n -> (0 < n <= length s)%nat.
Proof.
  unfold csi_body_len.
  destruct (skipn _ s) as [|c rest] eqn:Hs; [discriminate|].
  pose proof (skipn_cons_length _ _ _ _ Hs) as Hlen.
  destruct (is_final c); [|discriminate]. intros H. inversion H. lia.
Qed.

Lemma ansi_escape_match_app (s r : str) (n : nat) :
  ansi_escape_match s = Some n -> ansi_escape_match (s ++ r) = Some n.
Proof.
  destruct s as [|e [|c rest]]; try discriminate. simpl.
  destruct (e =? ESC); [|discriminate].
  destruct (is_fe c); [auto|].
  destruct (c =? 91); [|discriminate].
  destruct (csi_body_len rest) as [k|] eqn:Hk; [|discriminate].
  rewrite (csi_body_len_app _ r _ Hk). auto.
Qed.

Lemma sub_from_skip (p r : str) :
  sub_from (length p) (p ++ r) = sub_from O r.
Proof. induction p as [|c p IH]; simpl; [reflexivity | exact IH]. Qed.

Lemma sub_escape_sequence (e r : str) :
  escape_sequence e -> sub_from O (e ++ r) = sub_from O r.
Proof.
  unfold escape_sequence. intros H.
  pose proof (ansi_escape_match_app _ r _ H) as Hr.
  destruct e as [|c e]; [discriminate|].
  change ((c :: e) ++ r) with (c :: (e ++ r)) in *.
  cbn [sub_from]. rewrite Hr. simpl. apply sub_from_skip.
Qed.

Lemma sub_plain_char (c : char) (s : str) :
  c <> ESC -> sub_from O (c :: s) = c :: sub_from O s.
Proof.
  intros Hc. cbn [sub_from].
  assert (H : ansi_escape_match (c :: s) = None).
  { destruct s as [|d s]; [reflexivity|]. simpl.
    destruct (c =? ESC) eqn:E; [apply Z.eqb_eq in E; contradiction|].
    reflexivity. }
  rewrite H. reflexivity.
Qed.

Lemma inserted_styled (T T' : str) :
  Forall (fun c => c <> ESC) T -> inserted T T' -> styled T T'.
Proof.
  intros Hall Hins. induction Hins as [|c t t' Hins IH|e t t' He Hins IH].
  - constructor.
  - inversion Hall; subst. apply styled_char; auto.
  - apply styled_insert; auto.
Qed.

Lemma styled_sub (T T' : str) :
  styled T T' -> ansi_escape_sub T' = ansi_escape_sub T.
Proof.
  unfold ansi_escape_sub.
  induction 1 as [|c t t' Hc H IH|e t t' He H IH|e t t' He H IH].
  - reflexivity.
  - rewrite !sub_plain_char by exact Hc. f_equal. exact IH.
  - rewrite !sub_escape_sequence by exact He. exact IH.
  - rewrite sub_escape_sequence by exact He. exact IH.
Qed.

(** C8, as the claim states it: refuted.  A reset inserted inside an
    escape sequence of the text leaves that sequence in two pieces that
    are no longer removed: the width goes from 0 to -1. *)
Lemma width_changed_by_insertion :
  inserted bare_sgr bare_sgr_split
  /\ StringLengthCalculator.len bare_sgr
     <> StringLengthCalculator.len bare_sgr_split.
Proof.
  split.
  - unfold bare_sgr, bare_sgr_split. simpl.
    apply inserted_char. apply inserted_char.
    apply (inserted_escape ansi_norm [109] [109]); [reflexivity|].
    apply inserted_char. apply inserted_nil.
  - vm_compute. discriminate.
Qed.

(** C8: when the text has no escape character, or is made of plain
    characters and whole escape sequences between which the new sequences
    are inserted, the text with the insertions has the visible text and
    the display width of the original. *)
Theorem width_blind_to_styling (T T' : str) :
  (styled T T' ->
   ansi_escape_sub T' = ansi_escape_sub T
   /\ StringLengthCalculator.len T' = StringLengthCalculator.len T)
  /\ (Forall (fun c => c <> ESC) T -> inserted T T' ->
      ansi_escape_sub T' = T
      /\ StringLengthCalculator.len T' = StringLengthCalculator.len T).
Proof.
  assert (Hplain : forall s, Forall (fun c => c <> ESC) s -> sub_from O s = s).
  { induction 1 as [|c s Hc Hs IH]; [reflexivity|].
    rewrite sub_plain_char by exact Hc. f_equal. exact IH. }
  split.
  - intros H. pose proof (styled_sub _ _ H) as Hs. split; [exact Hs|].
    unfold StringLengthCalculator.len. rewrite Hs. reflexivity.
  - intros Hall Hins.
    pose proof (styled_sub _ _ (inserted_styled _ _ Hall Hins)) as Hs.
    unfold StringLengthCalculator.len. rewrite Hs.
    unfold ansi_escape_sub. rewrite (Hplain _ Hall). split; reflexivity.
Qed.

(** The text [ab] wrapped in red, and the red text with a bold sequence
    inserted after its opening sequence. *)
Lemma width_blind_to_styling_witness :
  StringLengthCalculator.len ([ESC] ++ s2l "[31mab" ++ ansi_norm)
  = StringLengthCalculator.len (s2l "ab")
  /\ StringLengthCalculator.len
       ([ESC] ++ s2l "[31m" ++ [ESC] ++ s2l "[1mab" ++ ansi_norm)
     = StringLengthCalculator.len ([ESC] ++ s2l "[31mab" ++ ansi_norm).
Proof.
  split.
  - apply (proj2 (width_blind_to_styling (s2l "ab")
             ([ESC] ++ s2l "[31mab" ++ ansi_norm))).
    + repeat constructor; discriminate.
    + apply (inserted_escape ([ESC] ++ s2l "[31m") (s2l "ab")
               (s2l "ab" ++ ansi_norm)); [reflexivity|].
      apply inserted_char. apply inserted_char.
      apply (inserted_escape ansi_norm [] []); [reflexivity|].
      apply inserted_nil.
  - apply (proj1 (width_blind_to_styling ([ESC] ++ s2l "[31mab" ++ ansi_norm)
             ([ESC] ++ s2l "[31m" ++ [ESC] ++ s2l "[1mab" ++ ansi_norm))).
    apply (styled_keep ([ESC] ++ s2l "[31m") (s2l "ab" ++ ansi_norm)
             ([ESC] ++ s2l "[1mab" ++ ansi_norm)); [reflexivity|].
    apply (styled_insert ([ESC] ++ s2l "[1m") (s2l "ab" ++ ansi_norm)
             (s2l "ab" ++ ansi_norm)); [reflexivity|].
    apply styled_char; [discriminate|]. apply styled_char; [discriminate|].
    apply (styled_keep ansi_norm [] []); [reflexivity|].
    apply styled_nil.
Defined.

(** ** The continuity repair *)

Lemma count_while_firstn (p : char -> bool) (s : str) :
  Forall (fun c => p c = true) (firstn (count_while p s) s).
Proof.
  induction s as [|c s IH]; simpl; [constructor|].
  destruct (p c) eqn:E; simpl; constructor; auto.
Qed.

Lemma count_while_exact (p : char -> bool) (ps r : str) :
  Forall (fun c => p c = true) ps ->
  match r with [] => True | c :: _ => p c = false end ->
  count_while p (ps ++ r) = length ps.
Proof.
  intros Hps Hr. induction Hps as [|c ps Hc Hps IH]; simpl.
  - destruct r as [|c r]; [reflexivity|]. simpl. rewrite Hr. reflexivity.
  - rewrite Hc. f_equal. exact IH.
Qed.

Lemma class_disjoint (c : char) :
  (is_inter c = true -> is_param c = false)
  /\ (is_final c = true -> is_param c = false /\ is_inter c = false).
Proof.
  unfold is_inter, is_param, is_final, in_range. split.
  - intros H. apply andb_true_iff in H. destruct H as [H1 H2].
    apply Z.leb_le in H1, H2. apply andb_false_iff. left. apply Z.leb_gt. lia.
  - intros H. apply andb_true_iff in H. destruct H as [H1 H2].
    apply Z.leb_le in H1, H2.
    split; apply andb_false_iff; right; apply Z.leb_gt; lia.
Qed.

Lemma class_not_ESC (c : char) :
  is_param c = true \/ is_inter c = true \/ is_final c = true -> c <> ESC.
Proof.
  unfold is_inter, is_param, is_final, in_range, ESC.
  intros [H|[H|H]]; apply andb_true_iff in H; destruct H as [H1 H2];
    apply Z.leb_le in H1, H2; lia.
Qed.

Lemma ESC_no_class :
  is_param ESC = false /\ is_inter ESC = false /\ is_final ESC = false
  /\ is_fe ESC = false.
Proof. repeat split; reflexivity. Qed.

Lemma firstn_plus {A} (n m : nat) (l : list A) :
  firstn (n + m) l = firstn n l ++ firstn m (skipn n l).
Proof.
  revert l. induction n as [|n IH]; intros l; simpl; [reflexivity|].
  destruct l as [|x l]; simpl.
  - rewrite firstn_nil. reflexivity.
  - f_equal. apply IH.
Qed.

(** A body followed by anything is matched up to its final byte. *)
Lemma csi_body_len_body (b r : str) :
  csi_body b -> csi_body_len (b ++ r) = Some (length b).
Proof.
  intros (ps & ins & f & -> & Hps & Hins & Hf).
  destruct (class_disjoint f) as [_ Hdf]. destruct (Hdf Hf) as [Hfp Hfi].
  unfold csi_body_len.
  assert (Hnp : count_while is_param ((ps ++ ins ++ [f]) ++ r) = length ps).
  { rewrite <- app_assoc. apply count_while_exact; [exact Hps|].
    destruct ins as [|i ins]; simpl; [exact Hfp|].
    inversion Hins; subst. apply (proj1 (class_disjoint i)). assumption. }
  rewrite Hnp.
  assert (Hsk : skipn (length ps) ((ps ++ ins ++ [f]) ++ r)
                = ins ++ f :: r).
  { rewrite <- !app_assoc. rewrite skipn_app, skipn_all.
    replace (length ps - length ps)%nat with O by lia. reflexivity. }
  rewrite Hsk.
  assert (Hni : count_while is_inter (ins ++ f :: r) = length ins).
  { apply count_while_exact; [exact Hins | exact Hfi]. }
  rewrite Hni.
  assert (Hsk2 : skipn (length ps + length ins) ((ps ++ ins ++ [f]) ++ r)
                 = f :: r).
  { rewrite <- !app_assoc.
    rewrite app_assoc. rewrite skipn_app.
    rewrite skipn_all2 by (rewrite length_app; lia).
    rewrite length_app.
    replace (length ps + length ins - (length ps + length ins))%nat with O by lia.
    reflexivity. }
  rewrite Hsk2, Hf. f_equal. rewrite !length_app. simpl. lia.
Qed.

(** A match of the body pattern has the structure of a body. *)
Lemma csi_body_len_shape (s : str) (n : nat) :
  csi_body_len s = Some n ->
  csi_body (firstn n s) /\ (n <= length s)%nat.
Proof.
  unfold csi_body_len.
  set (np := count_while is_param s).
  set (ni := count_while is_inter (skipn np s)).
  destruct (skipn (np + ni) s) as [|f rest] eqn:Hs; [discriminate|].
  destruct (is_final f) eqn:Hf; [|discriminate].
  intros H. inversion H; subst n. clear H.
  pose proof (skipn_cons_length _ _ _ _ Hs) as Hlen.
  split; [|lia].
  exists (firstn np s), (firstn ni (skipn np s)), f. repeat split.
  - rewrite <- (firstn_skipn (np + ni) s) at 1. rewrite Hs.
    replace (S (np + ni)) with (length (firstn (np + ni) s) + 1)%nat
      by (rewrite length_firstn; lia).
    rewrite firstn_app_2. simpl.
    rewrite (firstn_plus np ni s). rewrite <- app_assoc. reflexivity.
  - apply count_while_firstn.
  - apply count_while_firstn.
  - exact Hf.
Qed.

Lemma csi_body_nonempty (b : str) : csi_body b -> b <> [].
Proof. intros (ps & ins & f & -> & _). destruct ps, ins; discriminate. Qed.

Lemma csi_body_single (x : char) : csi_body [x] -> is_final x = true.
Proof.
  intros (ps & ins & f & H & _ & _ & Hf).
  destruct ps as [|p ps].
  - destruct ins as [|i ins].
    + inversion H; subst. exact Hf.
    + inversion H as [[H1 H2]]. destruct ins; discriminate.
  - inversion H as [[H1 H2]]. destruct ps, ins; discriminate.
Qed.

Lemma starts_with_0m_app (b r : str) :
  csi_body b -> starts_with [48; 109] b = false ->
  starts_with [48; 109] (b ++ r) = false.
Proof.
  intros Hb Hs. destruct b as [|x [|y b]].
  - exfalso. exact (csi_body_nonempty _ Hb eq_refl).
  - apply csi_body_single in Hb. cbn [app starts_with].
    destruct (48 =? x) eqn:E; [|reflexivity].
    apply Z.eqb_eq in E. subst x. discriminate.
  - exact Hs.
Qed.

Lemma starts_with_firstn (p s : str) (n : nat) :
  starts_with p (firstn n s) = true -> starts_with p s = true.
Proof.
  revert s n. induction p as [|x p IH]; intros s n; [reflexivity|].
  destruct n, s as [|y s]; simpl; try discriminate.
  intros H. apply andb_true_iff in H. destruct H as [H1 H2].
  rewrite H1. simpl. exact (IH _ _ H2).
Qed.

Lemma nonreset_csi_escape (g : str) : nonreset_csi g -> escape_sequence g.
Proof.
  intros (b & -> & Hb & _). unfold escape_sequence. simpl.
  pose proof (csi_body_len_body b [] Hb) as H. rewrite app_nil_r in H.
  rewrite H. reflexivity.
Qed.

Lemma nonreset_csi_no_ESC_tail (g : str) :
  nonreset_csi g -> exists tl, g = ESC :: tl /\ Forall (fun c => c <> ESC) tl.
Proof.
  intros (b & -> & (ps & ins & f & -> & Hps & Hins & Hf) & _).
  eexists. split; [reflexivity|]. constructor; [discriminate|].
  rewrite !Forall_app. repeat split.
  - eapply Forall_impl; [|exact Hps]. intros c Hc. apply class_not_ESC. auto.
  - eapply Forall_impl; [|exact Hins]. intros c Hc. apply class_not_ESC. auto.
  - constructor; [|constructor]. apply class_not_ESC. auto.
Qed.

Lemma non_reset_match_csi (g r : str) :
  nonreset_csi g ->
  non_reset_not_followed_by_reset_match (g ++ r)
  = if reset_ahead r then None else Some (length g).
Proof.
  intros (b & -> & Hb & Hs).
  unfold non_reset_not_followed_by_reset_match. cbn [app].
  rewrite !Z.eqb_refl, (starts_with_0m_app _ r Hb Hs). cbn [andb negb].
  rewrite (csi_body_len_body _ r Hb).
  rewrite skipn_app, skipn_all, Nat.sub_diag. cbn [skipn app length].
  destruct (reset_ahead r); reflexivity.
Qed.

Lemma non_reset_match_shape (s : str) (n : nat) :
  non_reset_not_followed_by_reset_match s = Some n ->
  nonreset_csi (firstn n s) /\ (0 < n <= length s)%nat.
Proof.
  destruct s as [|e [|b rest]]; try discriminate.
  unfold non_reset_not_followed_by_reset_match.
  destruct (e =? ESC) eqn:Ee; cbn [andb]; [|discriminate].
  destruct (b =? 91) eqn:Eb; cbn [andb]; [|discriminate].
  destruct (starts_with [48; 109] rest) eqn:Es; cbn [negb]; [discriminate|].
  destruct (csi_body_len rest) as [m|] eqn:Hm; [|discriminate].
  destruct (reset_ahead (skipn m rest)); [discriminate|].
  intros H. inversion H; subst n. clear H.
  apply Z.eqb_eq in Ee, Eb. subst e b.
  destruct (csi_body_len_shape _ _ Hm) as [Hshape Hle].
  split; [|simpl; lia].
  exists (firstn m rest). split; [reflexivity|]. split; [exact Hshape|].
  destruct (starts_with [48; 109] (firstn m rest)) eqn:E; [|reflexivity].
  apply starts_with_firstn in E. congruence.
Qed.

Lemma findall_skip (p r : str) :
  findall_from (length p) (p ++ r) = findall_from O r.
Proof. induction p as [|c p IH]; simpl; [reflexivity | exact IH]. Qed.

Lemma findall_plain (p r : str) :
  Forall (fun c => c <> ESC) p -> findall_from O (p ++ r) = findall_from O r.
Proof.
  induction 1 as [|c p Hc Hp IH]; [reflexivity|].
  change ((c :: p) ++ r) with (c :: (p ++ r)). cbn [findall_from].
  assert (H : non_reset_not_followed_by_reset_match (c :: p ++ r) = None).
  { simpl. destruct (p ++ r); [reflexivity|].
    destruct (c =? ESC) eqn:E; [apply Z.eqb_eq in E; contradiction|].
    reflexivity. }
  rewrite H. exact IH.
Qed.

Lemma findall_groups (s : str) (k : nat) :
  Forall nonreset_csi (findall_from k s).
Proof.
  revert k. induction s as [|c s IH]; intros k; [constructor|].
  cbn [findall_from]. destruct k as [|k]; [|apply IH].
  destruct (non_reset_not_followed_by_reset_match (c :: s)) as [n|] eqn:Hm;
    [|apply IH].
  constructor; [|apply IH]. exact (proj1 (non_reset_match_shape _ _ Hm)).
Qed.

(** A whole sequence in front of a text is reported unless a reset
    follows on the line, and the rest of the text is scanned as it would
    be alone. *)
Lemma findall_csi_app (g r : str) :
  nonreset_csi g ->
  findall_from O (g ++ r)
  = (if reset_ahead r then [] else [g]) ++ findall_from O r.
Proof.
  intros Hg. pose proof (non_reset_match_csi g r Hg) as Hm.
  destruct (nonreset_csi_no_ESC_tail g Hg) as (tl & -> & Htl).
  change ((ESC :: tl) ++ r) with (ESC :: (tl ++ r)) in *.
  cbn [findall_from]. rewrite Hm.
  destruct (reset_ahead r).
  - simpl. apply findall_plain. exact Htl.
  - simpl. f_equal.
    + f_equal. rewrite firstn_app, firstn_all.
      replace (length tl - length tl)%nat with O by lia.
      simpl. apply app_nil_r.
    + apply findall_skip.
Qed.

Lemma findall_carried_app (gs : list str) (r : str) :
  Forall nonreset_csi gs ->
  exists sel, findall_from O (List.concat gs ++ r) = sel ++ findall_from O r.
Proof.
  induction 1 as [|g gs Hg Hgs IH]; simpl.
  - exists []. reflexivity.
  - destruct IH as [sel Hsel]. rewrite <- app_assoc.
    rewrite (findall_csi_app _ _ Hg), Hsel.
    eexists. rewrite app_assoc. reflexivity.
Qed.

Lemma sub_concat_escapes (gs : list str) (r : str) :
  Forall escape_sequence gs -> sub_from O (List.concat gs ++ r) = sub_from O r.
Proof.
  induction 1 as [|g gs Hg Hgs IH]; simpl; [reflexivity|].
  rewrite <- app_assoc, (sub_escape_sequence _ _ Hg). exact IH.
Qed.

Lemma count_while_stop (p : char -> bool) (s r : str) :
  p ESC = false -> count_while p (s ++ ESC :: r) = count_while p s.
Proof.
  intros Hp. induction s as [|c s IH]; simpl.
  - rewrite Hp. reflexivity.
  - destruct (p c); [f_equal; exact IH | reflexivity].
Qed.

Lemma csi_body_len_ESC (s r : str) :
  csi_body_len (s ++ ESC :: r) = csi_body_len s.
Proof.
  unfold csi_body_len.
  rewrite (count_while_stop is_param) by reflexivity.
  set (np := count_while is_param s).
  assert (Hnp : (np <= length s)%nat) by apply count_while_le.
  rewrite (skipn_app_le np s (ESC :: r) Hnp).
  rewrite (count_while_stop is_inter) by reflexivity.
  set (ni := count_while is_inter (skipn np s)).
  assert (Hni : (ni <= length (skipn np s))%nat) by apply count_while_le.
  rewrite length_skipn in Hni.
  rewrite skipn_app_le by lia.
  destruct (skipn (np + ni) s) as [|c rest]; reflexivity.
Qed.

Lemma ansi_escape_match_ESC (c : char) (s r : str) :
  ansi_escape_match ((c :: s) ++ ESC :: r) = ansi_escape_match (c :: s).
Proof.
  destruct s as [|d s]; simpl.
  - destruct (c =? ESC); reflexivity.
  - rewrite csi_body_len_ESC. reflexivity.
Qed.

Lemma ansi_escape_match_bound (s : str) (n : nat) :
  ansi_escape_match s = Some n -> (2 <= n <= length s)%nat.
Proof.
  destruct s as [|e [|c rest]]; try discriminate. simpl.
  destruct (e =? ESC); [|discriminate].
  destruct (is_fe c); [intros H; inversion H; lia|].
  destruct (c =? 91); [|discriminate].
  destruct (csi_body_len rest) as [k|] eqn:Hk; [|discriminate].
  apply csi_body_len_bound in Hk. intros H. inversion H. lia.
Qed.

(** A text that begins with the escape character is scanned on its own
    when it follows another text. *)
Lemma sub_from_app_ESC (l r : str) (k : nat) :
  (k <= length l)%nat ->
  sub_from k (l ++ ESC :: r) = sub_from k l ++ sub_from O (ESC :: r).
Proof.
  revert k. induction l as [|c l IH]; intros k Hk.
  - simpl in Hk. replace k with O by lia. reflexivity.
  - change ((c :: l) ++ ESC :: r) with (c :: (l ++ ESC :: r)).
    destruct k as [|k].
    + cbn [sub_from].
      change (c :: l ++ ESC :: r) with ((c :: l) ++ ESC :: r).
      rewrite ansi_escape_match_ESC.
      destruct (ansi_escape_match (c :: l)) as [n|] eqn:Hm.
      * apply ansi_escape_match_bound in Hm. simpl in Hm.
        apply IH. lia.
      * simpl. f_equal. apply IH. lia.
    + cbn [sub_from]. apply IH. simpl in Hk. lia.
Qed.

Lemma sub_app_reset (l : str) :
  ansi_escape_sub (l ++ ansi_norm) = ansi_escape_sub l.
Proof.
  unfold ansi_escape_sub, ansi_norm.
  rewrite sub_from_app_ESC by lia. simpl. apply app_nil_r.
Qed.

Lemma carried_nil : carried [].
Proof. exists []. split; [reflexivity | constructor]. Qed.

Lemma nonreset_csi_nonempty (g : str) : nonreset_csi g -> g <> [].
Proof. intros (b & -> & _). discriminate. Qed.

Lemma concat_nonempty (gs : list str) (g : str) :
  In g gs -> g <> [] -> List.concat gs <> [].
Proof.
  induction gs as [|x gs IH]; simpl; [contradiction|].
  intros [->|Hin] Hg H; apply app_eq_nil in H; destruct H as [H1 H2].
  - contradiction.
  - exact (IH Hin Hg H2).
Qed.

(** One turn of the repair on a line [l] entered with the pending buffer
    [u]: the line left is [u ++ l ++ closing], the buffer left is the
    run of the sequences of [seqs], which holds every sequence left open
    on [l]; the closing is a reset as soon as some sequence is left open;
    the visible text of the line is unchanged. *)
Lemma process_line_spec (u l : str) :
  carried u ->
  exists sel closing,
    process_line u l
    = (u ++ l ++ closing, List.concat (sel ++ findall_unterminated l))
    /\ Forall nonreset_csi (sel ++ findall_unterminated l)
    /\ (closing = [] \/ closing = ansi_norm)
    /\ (findall_unterminated l <> [] -> closing = ansi_norm)
    /\ ansi_escape_sub (u ++ l ++ closing) = ansi_escape_sub l.
Proof.
  intros (gs & -> & Hgs).
  destruct (findall_carried_app gs l Hgs) as [sel Hsel].
  assert (Hall : Forall nonreset_csi (sel ++ findall_unterminated l)).
  { unfold findall_unterminated. rewrite <- Hsel. apply findall_groups. }
  assert (Hesc : Forall escape_sequence gs).
  { eapply Forall_impl; [|exact Hgs]. apply nonreset_csi_escape. }
  assert (Hsub : ansi_escape_sub (List.concat gs ++ l) = ansi_escape_sub l).
  { apply sub_concat_escapes. exact Hesc. }
  unfold process_line, findall_unterminated. rewrite Hsel.
  fold (findall_unterminated l).
  destruct (List.concat (sel ++ findall_unterminated l)) as [|c w] eqn:Hc.
  - exists sel, []. rewrite Hc, app_nil_r. repeat split; auto.
    intros Hne. exfalso.
    destruct (findall_unterminated l) as [|g fs] eqn:Hf; [contradiction|].
    assert (Hin : In g (sel ++ g :: fs)) by (apply in_or_app; right; left; reflexivity).
    apply (concat_nonempty _ _ Hin); [|exact Hc].
    apply nonreset_csi_nonempty.
    rewrite Forall_forall in Hall. exact (Hall _ Hin).
  - exists sel, ansi_norm. rewrite Hc, <- app_assoc. repeat split; auto.
    rewrite app_assoc, sub_app_reset. exact Hsub.
Qed.

Lemma process_line_carried (u l : str) :
  carried u -> carried (snd (process_line u l)).
Proof.
  intros Hu. destruct (process_line_spec u l Hu) as (sel & cl & -> & Hall & _).
  simpl. eexists. split; [reflexivity | exact Hall].
Qed.

Lemma process_cell_cons (u line : str) (rest : list str) :
  process_cell u (line :: rest)
  = (fst (process_line u line)
       :: fst (process_cell (snd (process_line u line)) rest),
     snd (process_cell (snd (process_line u line)) rest)).
Proof.
  simpl. destruct (process_line u line) as [l' u1]. simpl.
  destruct (process_cell u1 rest) as [rest' u2]. reflexivity.
Qed.

Lemma process_cell_carried (lines : list str) (u : str) :
  carried u -> carried (snd (process_cell u lines)).
Proof.
  revert u. induction lines as [|line rest IH]; intros u Hu; [exact Hu|].
  rewrite process_cell_cons. simpl. apply IH. apply process_line_carried.
  exact Hu.
Qed.

Lemma process_cell_length (lines : list str) (u : str) :
  length (fst (process_cell u lines)) = length lines.
Proof.
  revert u. induction lines as [|line rest IH]; intros u; [reflexivity|].
  rewrite process_cell_cons. simpl. f_equal. apply IH.
Qed.

(** Line [k] of a cell is repaired from some pending buffer [uk], the
    given one for the first line, and the next line from the buffer that
    line [k] leaves. *)
Lemma process_cell_nth (lines : list str) (u : str) (k : nat) (line : str) :
  carried u -> nth_error lines k = Some line ->
  exists uk,
    carried uk
    /\ (k = O -> uk = u)
    /\ nth_error (fst (process_cell u lines)) k
       = Some (fst (process_line uk line))
    /\ (forall next, nth_error lines (S k) = Some next ->
        nth_error (fst (process_cell u lines)) (S k)
        = Some (fst (process_line (snd (process_line uk line)) next))).
Proof.
  revert u k. induction lines as [|l0 rest IH]; intros u k Hu Hk.
  - destruct k; discriminate.
  - rewrite process_cell_cons. destruct k as [|k]; simpl in Hk.
    + inversion Hk; subst l0. exists u. repeat split; auto.
      intros next Hn. simpl in Hn. destruct rest as [|l1 rest]; [discriminate|].
      inversion Hn; subst l1. rewrite process_cell_cons. reflexivity.
    + destruct (IH (snd (process_line u l0)) k
                  (process_line_carried _ _ Hu) Hk)
        as (uk & Huk & _ & H1 & H2).
      exists uk. repeat split; auto. discriminate.
Qed.

Lemma process_cell_last (cell : list str) (last u : str) :
  carried u ->
  exists uk, carried uk
    /\ snd (process_cell u (cell ++ [last])) = snd (process_line uk last).
Proof.
  revert u. induction cell as [|l0 cell IH]; intros u Hu.
  - exists u. split; [exact Hu|]. simpl.
    destruct (process_line u last). reflexivity.
  - change ((l0 :: cell) ++ [last]) with (l0 :: (cell ++ [last])).
    rewrite process_cell_cons. simpl.
    apply IH. apply process_line_carried. exact Hu.
Qed.

Lemma process_line_nil (l : str) :
  snd (process_line [] l) = List.concat (findall_unterminated l).
Proof.
  unfold process_line. simpl.
  destruct (List.concat (findall_unterminated l)); reflexivity.
Qed.

(** What a line with a sequence [e] left open does to itself and to the
    buffer it hands on. *)
Lemma process_line_open (u l e : str) :
  carried u -> In e (findall_unterminated l) ->
  fst (process_line u l) = u ++ l ++ ansi_norm
  /\ exists seqs,
       snd (process_line u l) = List.concat seqs
       /\ In e seqs /\ Forall escape_sequence seqs
       /\ (u = [] -> seqs = findall_unterminated l).
Proof.
  intros Hu He.
  destruct (process_line_spec u l Hu) as (sel & cl & Hp & Hall & _ & Hcl & _).
  assert (Hne : findall_unterminated l <> []).
  { intros H. rewrite H in He. contradiction. }
  rewrite (Hcl Hne) in Hp. split; [rewrite Hp; reflexivity|].
  assert (Hesc : forall gs, Forall nonreset_csi gs -> Forall escape_sequence gs).
  { intros gs H. eapply Forall_impl; [|exact H]. apply nonreset_csi_escape. }
  destruct u as [|c u].
  - exists (findall_unterminated l). repeat split; auto.
    + apply process_line_nil.
    + apply Hesc. apply findall_groups.
  - exists (sel ++ findall_unterminated l). rewrite Hp. repeat split; auto.
    + apply in_or_app. right. exact He.
    + discriminate.
Qed.

(** C4: in one cell, when a non-reset escape sequence [e] is left open on
    physical line [k] (no reset follows it on that line), the repair ends
    line [k] with a reset and starts line [k+1] with a run of whole escape
    sequences that holds [e] (for the first line of the cell, exactly the
    sequences left open on it, so [e] itself when it is the only one);
    the repaired cell has as many lines as the cell, and every repaired
    line, stripped of escape sequences, is the original line stripped of
    escape sequences. *)
Theorem repair_closes_and_reopens
  (lines : list str) (k : nat) (line e : str) :
  nth_error lines k = Some line ->
  In e (findall_unterminated line) ->
  let out := fst (process_cell [] lines) in
  length out = length lines
  /\ (forall j l, nth_error lines j = Some l ->
      exists l', nth_error out j = Some l'
                 /\ ansi_escape_sub l' = ansi_escape_sub l)
  /\ (exists before,
        Forall escape_sequence before
        /\ (k = O -> before = [])
        /\ nth_error out k = Some (List.concat before ++ line ++ ansi_norm))
  /\ (forall next, nth_error lines (S k) = Some next ->
      exists seqs closing,
        In e seqs /\ Forall escape_sequence seqs
        /\ (closing = [] \/ closing = ansi_norm)
        /\ (k = O -> seqs = findall_unterminated line)
        /\ nth_error out (S k) = Some (List.concat seqs ++ next ++ closing)).
Proof.
  intros Hk He out. subst out.
  split; [apply process_cell_length|]. split; [|split].
  - intros j l Hj.
    destruct (process_cell_nth lines [] j l carried_nil Hj)
      as (uj & Huj & _ & Hnth & _).
    destruct (process_line_spec uj l Huj) as (sel & cl & Hp & _ & _ & _ & Hsub).
    exists (fst (process_line uj l)). split; [exact Hnth|].
    rewrite Hp. exact Hsub.
  - destruct (process_cell_nth lines [] k line carried_nil Hk)
      as (uk & Huk & Hk0 & Hnth & _).
    destruct (process_line_open uk line e Huk He) as [Hfst _].
    rewrite Hfst in Hnth.
    destruct k as [|k].
    + exists []. rewrite (Hk0 eq_refl) in Hnth.
      repeat split; [constructor | exact Hnth].
    + destruct Huk as (gs & -> & Hgs). exists gs. repeat split.
      * eapply Forall_impl; [|exact Hgs]. apply nonreset_csi_escape.
      * discriminate.
      * exact Hnth.
  - intros next Hnext.
    destruct (process_cell_nth lines [] k line carried_nil Hk)
      as (uk & Huk & Hk0 & _ & Hnth).
    specialize (Hnth next Hnext).
    destruct (process_line_open uk line e Huk He)
      as (_ & seqs & Hsnd & Hin & Hesc & Hnil).
    pose proof (process_line_carried uk line Huk) as Hcar.
    destruct (process_line_spec _ next Hcar) as (sel & cl & Hp & _ & Hcl & _).
    exists seqs, cl.
    split; [exact Hin|]. split; [exact Hesc|]. split; [exact Hcl|]. split.
    + intros ->. apply Hnil. apply Hk0. reflexivity.
    + rewrite Hnth, Hp. simpl. rewrite Hsnd. reflexivity.
Qed.

(** Scenario D: a red word wrapped over two physical lines. *)
Lemma repair_closes_and_reopens_witness :
  fst (process_cell [] [[ESC] ++ s2l "[31mcolo"; s2l "ured"])
  = [[ESC] ++ s2l "[31mcolo" ++ ansi_norm;
     [ESC] ++ s2l "[31mured" ++ ansi_norm]
  /\ exists seqs closing,
       In ([ESC] ++ s2l "[31m") seqs
       /\ nth_error (fst (process_cell [] [[ESC] ++ s2l "[31mcolo"; s2l "ured"])) 1
          = Some (List.concat seqs ++ s2l "ured" ++ closing).
Proof.
  split; [reflexivity|].
  destruct (repair_closes_and_reopens
              [[ESC] ++ s2l "[31mcolo"; s2l "ured"] O
              ([ESC] ++ s2l "[31mcolo") ([ESC] ++ s2l "[31m")
              eq_refl (or_introl eq_refl))
    as (_ & _ & _ & H).
  destruct (H (s2l "ured") eq_refl) as (seqs & closing & Hin & _ & _ & _ & Hn).
  exists seqs, closing. split; [exact Hin | exact Hn].
Defined.

(** C10: the pending buffer is carried from one cell of a row to the
    next.  When a non-reset escape sequence [e] is left open on the last
    physical line of a cell, the first physical line of the next cell of
    the row is given a run of whole escape sequences that holds [e] in
    front of its own text. *)
Theorem pending_escape_crosses_cells
  (cell : list str) (last e next_first : str) (next_rest : list str)
  (others : list (list str)) :
  In e (findall_unterminated last) ->
  exists seqs closing tail,
    In e seqs /\ Forall escape_sequence seqs
    /\ (closing = [] \/ closing = ansi_norm)
    /\ nth_error (_process_lines
                    ((cell ++ [last]) :: (next_first :: next_rest) :: others)) 1
       = Some ((List.concat seqs ++ next_first ++ closing) :: tail).
Proof.
  intros He. unfold _process_lines. cbn [process_cells].
  destruct (process_cell_last cell last [] carried_nil) as (uk & Huk & Hlast).
  destruct (process_cell [] (cell ++ [last])) as [c1' u] eqn:Hc1.
  simpl in Hlast. subst u.
  destruct (process_line_open uk last e Huk He)
    as (_ & seqs & Hsnd & Hin & Hesc & _).
  pose proof (process_line_carried uk last Huk) as Hcar.
  destruct (process_line_spec _ next_first Hcar)
    as (sel & cl & Hp & _ & Hcl & _).
  pose proof (process_cell_cons (snd (process_line uk last)) next_first next_rest)
    as Hcons.
  destruct (process_cell (snd (process_line uk last)) (next_first :: next_rest))
    as [c2' u2].
  inversion Hcons; subst c2' u2.
  exists seqs, cl. eexists.
  split; [exact Hin|]. split; [exact Hesc|]. split; [exact Hcl|].
  cbn [nth_error]. rewrite Hp. cbn [fst]. rewrite Hsnd. reflexivity.
Qed.

(** A red cell without a reset next to a plain cell: the second cell is
    rendered with the red sequence in front. *)
Lemma pending_escape_crosses_cells_witness :
  _process_lines [[[ESC] ++ s2l "[31mred"]; [s2l "plain"]]
  = [[[ESC] ++ s2l "[31mred" ++ ansi_norm];
     [[ESC] ++ s2l "[31mplain" ++ ansi_norm]]
  /\ exists seqs closing tail,
       In ([ESC] ++ s2l "[31m") seqs
       /\ nth_error (_process_lines [[[ESC] ++ s2l "[31mred"]; [s2l "plain"]]) 1
          = Some ((List.concat seqs ++ s2l "plain" ++ closing) :: tail).
Proof.
  split; [reflexivity|].
  destruct (pending_escape_crosses_cells
              [] ([ESC] ++ s2l "[31mred") ([ESC] ++ s2l "[31m")
              (s2l "plain") [] [] (or_introl eq_refl))
    as (seqs & closing & tail & Hin & _ & _ & Hn).
  exists seqs, closing, tail. split; [exact Hin | exact Hn].
Defined.

(** ** The display width of assembled lines *)

Lemma wcswidth_from_nonneg (s : str) (acc : Z) :
  0 <= acc -> 0 <= wcswidth_from acc s ->
  Forall (fun c => 0 <= wcwidth c) s.
Proof.
  revert acc. induction s as [|c s IH]; intros acc Ha H; [constructor|].
  cbn [wcswidth_from] in H. cbv zeta in H.
  destruct (wcwidth c <? 0) eqn:E; [lia|].
  apply Z.ltb_ge in E. constructor; [exact E|].
  apply (IH (acc + wcwidth c)); [lia | exact H].
Qed.

Lemma wcswidth_from_app (a b : str) (acc : Z) :
  Forall (fun c => 0 <= wcwidth c) a ->
  wcswidth_from acc (a ++ b) = wcswidth_from (wcswidth_from acc a) b.
Proof.
  intros Ha. revert acc. induction Ha as [|c a Hc Ha IH]; intros acc;
    [reflexivity|].
  cbn [app wcswidth_from]. cbv zeta.
  destruct (wcwidth c <? 0) eqn:E; [apply Z.ltb_lt in E; lia|]. apply IH.
Qed.

Lemma wcswidth_from_shift (s : str) (acc : Z) :
  Forall (fun c => 0 <= wcwidth c) s ->
  wcswidth_from acc s = acc + wcswidth_from 0 s.
Proof.
  intros Hs. revert acc. induction Hs as [|c s Hc Hs IH]; intros acc;
    cbn [wcswidth_from]; cbv zeta; [lia|].
  destruct (wcwidth c <? 0) eqn:E; [apply Z.ltb_lt in E; lia|].
  rewrite (IH (acc + wcwidth c)), (IH (0 + wcwidth c)). lia.
Qed.

Lemma wcswidth_app (a b : str) :
  0 <= wcswidth a -> 0 <= wcswidth b ->
  wcswidth (a ++ b) = wcswidth a + wcswidth b.
Proof.
  unfold wcswidth. intros Ha Hb.
  pose proof (wcswidth_from_nonneg a 0 ltac:(lia) Ha) as Fa.
  pose proof (wcswidth_from_nonneg b 0 ltac:(lia) Hb) as Fb.
  rewrite (wcswidth_from_app a b 0 Fa).
  apply wcswidth_from_shift. exact Fb.
Qed.

Lemma sub_plain (s : str) :
  Forall (fun c => c <> ESC) s -> ansi_escape_sub s = s.
Proof.
  unfold ansi_escape_sub. induction 1 as [|c s Hc Hs IH]; [reflexivity|].
  rewrite sub_plain_char by exact Hc. f_equal. exact IH.
Qed.

(** A text whose visible part holds no escape character is scanned to its
    end, and what follows it is scanned on its own. *)
Lemma sub_from_app_clean (l r : str) (k : nat) :
  (k <= length l)%nat -> ~ In ESC (sub_from k l) ->
  sub_from k (l ++ r) = sub_from k l ++ sub_from O r.
Proof.
  revert k. induction l as [|c l IH]; intros k Hk Hno.
  - simpl in Hk. replace k with O by lia. reflexivity.
  - change ((c :: l) ++ r) with (c :: (l ++ r)).
    destruct k as [|k].
    + cbn [sub_from] in *.
      destruct (ansi_escape_match (c :: l)) as [n|] eqn:Hm.
      * change (c :: l ++ r) with ((c :: l) ++ r).
        rewrite (ansi_escape_match_app _ r _ Hm).
        apply ansi_escape_match_bound in Hm. simpl in Hm.
        apply IH; [lia | exact Hno].
      * assert (Hc : c <> ESC).
        { intros ->. apply Hno. left. reflexivity. }
        assert (Hm' : ansi_escape_match (c :: l ++ r) = None).
        { simpl. destruct (l ++ r); [reflexivity|].
          destruct (c =? ESC) eqn:E; [apply Z.eqb_eq in E; contradiction|].
          reflexivity. }
        rewrite Hm'. simpl. f_equal. apply IH; [lia|].
        intros Hin. apply Hno. right. exact Hin.
    + cbn [sub_from] in *. apply IH; [simpl in Hk; lia | exact Hno].
Qed.

Lemma vislen_nonneg_visible (l : str) :
  0 <= vislen l -> Forall (fun c => 0 <= wcwidth c) (ansi_escape_sub l).
Proof. intros H. apply (wcswidth_from_nonneg _ 0); [lia | exact H]. Qed.

(** Display widths add up over texts that have a width. *)
Lemma vislen_app (a b : str) :
  0 <= vislen a -> 0 <= vislen b -> vislen (a ++ b) = vislen a + vislen b.
Proof.
  intros Ha Hb. unfold vislen, StringLengthCalculator.len in *.
  assert (Hno : ~ In ESC (ansi_escape_sub a)).
  { intros Hin. pose proof (vislen_nonneg_visible a Ha) as F.
    rewrite Forall_forall in F. specialize (F _ Hin). vm_compute in F.
    apply F. reflexivity. }
  unfold ansi_escape_sub in *.
  rewrite (sub_from_app_clean a b O ltac:(lia) Hno).
  apply wcswidth_app; assumption.
Qed.

Lemma vislen_app_eq (a b : str) (x y : Z) :
  vislen a = x -> vislen b = y -> 0 <= x -> 0 <= y ->
  vislen (a ++ b) = x + y.
Proof. intros <- <- Hx Hy. apply vislen_app; assumption. Qed.

(** The characters of a match: none is a newline. *)
Lemma ansi_escape_match_no_NL (s : str) (n : nat) :
  ansi_escape_match s = Some n -> ~ In NL (firstn n s).
Proof.
  destruct s as [|e [|c rest]]; try discriminate.
  unfold ansi_escape_match.
  destruct (e =? ESC) eqn:Ee; [|discriminate]. apply Z.eqb_eq in Ee. subst e.
  destruct (is_fe c) eqn:Efe.
  - intros H. inversion H; subst n. simpl. intros [H1|[H1|[]]];
      [discriminate|]. subst c. discriminate.
  - destruct (c =? 91) eqn:Ec; [|discriminate]. apply Z.eqb_eq in Ec. subst c.
    destruct (csi_body_len rest) as [m|] eqn:Hm; [|discriminate].
    intros H. inversion H; subst n. clear H. cbn [firstn].
    destruct (csi_body_len_shape _ _ Hm)
      as [(ps & ins & f & Hb & Hps & Hins & Hf) _].
    rewrite Hb. intros [H1|[H1|Hin]]; try discriminate.
    assert (Hcls : is_param NL = true \/ is_inter NL = true
                   \/ is_final NL = true).
    { apply in_app_or in Hin. destruct Hin as [Hin|Hin].
      - left. rewrite Forall_forall in Hps. exact (Hps _ Hin).
      - apply in_app_or in Hin. destruct Hin as [Hin|[<-|[]]].
        + right. left. rewrite Forall_forall in Hins. exact (Hins _ Hin).
        + right. right. exact Hf. }
    destruct Hcls as [H|[H|H]]; discriminate.
Qed.

Lemma sub_from_keeps_NL (l : str) (k : nat) :
  In NL (skipn k l) -> In NL (sub_from k l).
Proof.
  revert k. induction l as [|c l IH]; intros k.
  - rewrite skipn_nil. contradiction.
  - destruct k as [|k]; cbn [sub_from skipn].
    + intros Hin.
      destruct (ansi_escape_match (c :: l)) as [n|] eqn:Hm.
      * pose proof (ansi_escape_match_no_NL _ _ Hm) as Hno.
        pose proof (ansi_escape_match_bound _ _ Hm) as Hb.
        apply IH. destruct n as [|n]; [lia|]. simpl.
        rewrite <- (firstn_skipn (S n) (c :: l)) in Hin.
        apply in_app_or in Hin. destruct Hin as [Hin|Hin];
          [contradiction | exact Hin].
      * destruct Hin as [->|Hin]; [left; reflexivity|].
        right. apply IH. exact Hin.
    + apply IH.
Qed.

Lemma vislen_nonneg_no_NL (l : str) : 0 <= vislen l -> ~ In NL l.
Proof.
  intros H Hin. pose proof (vislen_nonneg_visible l H) as F.
  rewrite Forall_forall in F.
  specialize (F NL (sub_from_keeps_NL l O Hin)). vm_compute in F.
  apply F. reflexivity.
Qed.


Lemma vislen_space : vislen [SP] = 1.
Proof. reflexivity. Qed.

Lemma vislen_nil : vislen [] = 0.
Proof. reflexivity. Qed.

Lemma vislen_str_mul (g : str) (n : Z) :
  0 <= vislen g -> vislen (str_mul g n) = Z.max 0 n * vislen g.
Proof.
  intros Hg. unfold str_mul.
  replace (Z.max 0 n) with (Z.of_nat (Z.to_nat n)) by lia.
  induction (Z.to_nat n) as [|k IH]; [reflexivity|].
  cbn [repeat List.concat]. rewrite vislen_app; [|exact Hg|nia].
  rewrite IH. lia.
Qed.

Lemma row_width_nonneg (sep : Z) (widths : list Z) :
  0 <= sep -> Forall (fun w => 0 <= w) widths -> 0 <= row_width sep widths.
Proof.
  intros Hs. induction 1 as [|w ws Hw H IH]; simpl; [lia|].
  destruct ws; lia.
Qed.

Lemma vislen_join (sep : str) (parts : list str) :
  0 <= vislen sep -> Forall (fun p => 0 <= vislen p) parts ->
  vislen (join sep parts) = row_width (vislen sep) (map vislen parts).
Proof.
  intros Hs. induction 1 as [|p ps Hp H IH]; [reflexivity|].
  destruct ps as [|q ps]; [reflexivity|].
  change (join sep (p :: q :: ps)) with (p ++ sep ++ join sep (q :: ps)).
  change (row_width (vislen sep) (map vislen (p :: q :: ps)))
    with (vislen p + vislen sep
          + row_width (vislen sep) (map vislen (q :: ps))).
  assert (Hr : 0 <= row_width (vislen sep) (map vislen (q :: ps))).
  { apply row_width_nonneg; [exact Hs|].
    apply Forall_forall. intros w Hin. apply in_map_iff in Hin.
    destruct Hin as (x & <- & Hx). rewrite Forall_forall in H. auto. }
  rewrite vislen_app; [|exact Hp|].
  - rewrite vislen_app; [|exact Hs|rewrite IH; exact Hr]. rewrite IH. lia.
  - rewrite vislen_app; [|exact Hs|rewrite IH; exact Hr]. rewrite IH. lia.
Qed.

Lemma map_id_nonneg (widths : list Z) :
  Forall (fun w => 0 <= w) widths -> map (fun w => Z.max 0 w * 1) widths = widths.
Proof.
  induction 1 as [|w ws Hw H IH]; simpl; [reflexivity|].
  rewrite IH. f_equal. lia.
Qed.

(** *** Regular texts *)

Lemma in_range_spec (lo hi c : Z) : in_range lo hi c = true <-> lo <= c <= hi.
Proof. unfold in_range. rewrite andb_true_iff, !Z.leb_le. tauto. Qed.

Lemma in_range_true (lo hi c : Z) : lo <= c <= hi -> in_range lo hi c = true.
Proof. apply in_range_spec. Qed.

Lemma in_range_false (lo hi c : Z) :
  c < lo \/ hi < c -> in_range lo hi c = false.
Proof.
  intros H. destruct (in_range lo hi c) eqn:E; [|reflexivity].
  apply in_range_spec in E. lia.
Qed.

Ltac ranges c :=
  repeat match goal with
         | |- context [in_range ?a ?b c] =>
             first [ rewrite (in_range_true a b c) by lia
                   | rewrite (in_range_false a b c) by lia ]
         end.

Ltac wcwidth_at c :=
  unfold wcwidth;
  replace (c =? 0) with false by (symmetry; apply Z.eqb_neq; lia);
  replace (c <? 32) with false by (symmetry; apply Z.ltb_ge; lia);
  ranges c; reflexivity.

Lemma one_cell_char_width (c : char) : one_cell_char c = true -> wcwidth c = 1.
Proof.
  unfold one_cell_char. rewrite orb_true_iff, !in_range_spec.
  intros [H|H]; wcwidth_at c.
Qed.

Lemma regular_char_width (c : char) :
  regular_char c = true -> wcwidth c = 1 \/ wcwidth c = 2.
Proof.
  unfold regular_char. rewrite !orb_true_iff, !in_range_spec.
  intros [[[H|H]|H]|H].
  - left. apply one_cell_char_width. exact H.
  - right. wcwidth_at c.
  - right. wcwidth_at c.
  - right. wcwidth_at c.
Qed.

Lemma regular_char_printable (c : char) : regular_char c = true -> 32 <= c.
Proof.
  unfold regular_char, one_cell_char.
  rewrite !orb_true_iff, !in_range_spec. lia.
Qed.


Lemma regular_no_ESC (l : str) : regular l -> ~ In ESC (ansi_escape_sub l).
Proof.
  intros H Hin. unfold regular in H. rewrite Forall_forall in H.
  apply H, regular_char_printable in Hin. unfold ESC in Hin. lia.
Qed.

Lemma wcswidth_from_ge (s : str) :
  Forall (fun c => 0 <= wcwidth c) s ->
  forall acc, 0 <= acc -> acc <= wcswidth_from acc s.
Proof.
  induction 1 as [|c s Hc Hs IH]; intros acc Ha; cbn [wcswidth_from];
    cbv zeta; [lia|].
  destruct (wcwidth c <? 0) eqn:E; [apply Z.ltb_lt in E; lia|].
  specialize (IH (acc + wcwidth c) ltac:(lia)). lia.
Qed.

Lemma regular_nonneg (l : str) : regular l -> 0 <= vislen l.
Proof.
  intros H. unfold vislen, StringLengthCalculator.len, wcswidth.
  apply wcswidth_from_ge; [|lia].
  eapply Forall_impl; [|exact H]. intros c Hc. cbv beta in Hc.
  destruct (regular_char_width c Hc) as [-> | ->]; lia.
Qed.

Lemma regular_app (a b : str) : regular a -> regular b -> regular (a ++ b).
Proof.
  intros Ha Hb. pose proof (regular_no_ESC a Ha) as Hno.
  unfold regular, ansi_escape_sub in *.
  rewrite (sub_from_app_clean a b O ltac:(lia) Hno).
  apply Forall_app. split; assumption.
Qed.

Lemma regular_nil : regular [].
Proof. constructor. Qed.

Lemma regular_one_char (c : char) : regular_char c = true -> regular [c].
Proof.
  intros H. unfold regular.
  rewrite sub_plain.
  - constructor; [exact H | constructor].
  - constructor; [|constructor]. apply regular_char_printable in H.
    unfold ESC. lia.
Qed.

Lemma measures_app (a b : str) (x y : Z) :
  measures a x -> measures b y -> measures (a ++ b) (x + y).
Proof.
  intros [Ra Ha] [Rb Hb]. split; [apply regular_app; assumption|].
  pose proof (regular_nonneg a Ra). pose proof (regular_nonneg b Rb).
  apply vislen_app_eq; [exact Ha | exact Hb | lia | lia].
Qed.

Lemma measures_eq (l : str) (x y : Z) : measures l x -> x = y -> measures l y.
Proof. intros H <-. exact H. Qed.

Lemma measures_self (l : str) : regular l -> measures l (vislen l).
Proof. intros H. split; [exact H | reflexivity]. Qed.

Lemma measures_nonneg (l : str) (w : Z) : measures l w -> 0 <= w.
Proof. intros [R <-]. apply regular_nonneg. exact R. Qed.

Lemma measures_nil : measures [] 0.
Proof. split; [apply regular_nil | reflexivity]. Qed.

Lemma measures_space : measures [SP] 1.
Proof. split; [apply regular_one_char; reflexivity | reflexivity]. Qed.




Lemma measures_join (sep : str) (s : Z) (parts : list str) (ws : list Z) :
  measures sep s -> Forall2 measures parts ws ->
  measures (join sep parts) (row_width s ws).
Proof.
  intros Hs. induction 1 as [|p w ps ws Hp H IH]; [apply measures_nil|].
  destruct H as [|q w2 ps ws Hq H]; [exact Hp|].
  change (join sep (p :: q :: ps)) with (p ++ sep ++ join sep (q :: ps)).
  change (row_width s (w :: w2 :: ws))
    with (w + s + row_width s (w2 :: ws)).
  eapply measures_eq;
    [apply measures_app; [exact Hp | apply measures_app; [exact Hs | exact IH]]|].
  lia.
Qed.


(** *** The lines of the table *)

Lemma rbind_ok {A B} (r : result A) (k : A -> result B) (b : B) :
  rbind r k = Ok b -> exists a, r = Ok a /\ k a = Ok b.
Proof. destruct r as [a|e]; simpl; [eauto | discriminate]. Qed.
















Lemma split_on_no_NL (l : str) : ~ In NL l -> split_on NL l = [l].
Proof.
  induction l as [|c l IH]; intros H; [reflexivity|]. simpl.
  destruct (c =? NL) eqn:E.
  - apply Z.eqb_eq in E. exfalso. apply H. left. exact E.
  - rewrite IH; [reflexivity|]. intros Hin. apply H. right. exact Hin.
Qed.

Lemma split_on_line (l rest : str) :
  ~ In NL l -> split_on NL (l ++ NL :: rest) = l :: split_on NL rest.
Proof.
  induction l as [|c l IH]; intros H.
  - simpl. reflexivity.
  - cbn [app split_on]. destruct (c =? NL) eqn:E.
    + apply Z.eqb_eq in E. exfalso. apply H. left. exact E.
    + rewrite IH; [reflexivity|]. intros Hin. apply H. right. exact Hin.
Qed.



(** ** The width of the rendered lines *)







(** ** The width loop terminates *)

Lemma search_below_some (maxi newmaxi : list Z) (k j m : nat) :
  search_below maxi newmaxi k j = Some m ->
  (j <= m < j + k)%nat /\ below maxi newmaxi m = true.
Proof.
  revert j. induction k as [|k IH]; intros j H; simpl in H; [discriminate|].
  destruct (below maxi newmaxi j) eqn:E.
  - inversion H; subst m. split; [lia | exact E].
  - destruct (IH _ H) as [H1 H2]. split; [lia | exact H2].
Qed.

Lemma search_below_none (maxi newmaxi : list Z) (k j : nat) :
  search_below maxi newmaxi k j = None ->
  forall x, (j <= x < j + k)%nat -> below maxi newmaxi x = false.
Proof.
  revert j. induction k as [|k IH]; intros j H x Hx; [lia|]. simpl in H.
  destruct (below maxi newmaxi j) eqn:E; [discriminate|].
  destruct (Nat.eq_dec x j) as [->|Hne]; [exact E|].
  apply (IH (S j) H). lia.
Qed.

Lemma steps_to_below_bound (maxi newmaxi : list Z) (i x : nat) :
  (i < length maxi)%nat -> (x < length maxi)%nat ->
  below maxi newmaxi x = true ->
  (steps_to_below maxi newmaxi i <= length maxi - 1)%nat.
Proof.
  intros Hi Hx Hb. unfold steps_to_below.
  destruct (search_below maxi newmaxi (length maxi - i) i) as [j|] eqn:E.
  - apply search_below_some in E. lia.
  - pose proof (search_below_none _ _ _ _ E) as Hnone.
    destruct (search_below maxi newmaxi (length maxi) O) as [j|] eqn:E0.
    + apply search_below_some in E0. destruct E0 as [Hj Hbj].
      assert (j < i)%nat.
      { destruct (Nat.lt_ge_cases j i) as [H|H]; [exact H|].
        rewrite (Hnone j) in Hbj by lia. discriminate. }
      lia.
    + rewrite (search_below_none _ _ _ _ E0 x) in Hb by lia. discriminate.
Qed.

Lemma steps_to_below_next (maxi newmaxi : list Z) (i x : nat) :
  (i < length maxi)%nat -> (x < length maxi)%nat ->
  below maxi newmaxi x = true -> below maxi newmaxi i = false ->
  (steps_to_below maxi newmaxi (Nat.modulo (S i) (length maxi))
   < steps_to_below maxi newmaxi i)%nat.
Proof.
  intros Hi Hx Hb Hfull. unfold steps_to_below.
  destruct (Nat.eq_dec (S i) (length maxi)) as [Heq|Hne].
  - rewrite Heq, Nat.Div0.mod_same, Nat.sub_0_r.
    replace (length maxi - i)%nat with 1%nat by lia.
    cbn [search_below]. rewrite Hfull.
    destruct (search_below maxi newmaxi (length maxi) O) as [j|] eqn:E0.
    + lia.
    + rewrite (search_below_none _ _ _ _ E0 x) in Hb by lia. discriminate.
  - rewrite Nat.mod_small by lia.
    replace (length maxi - i)%nat with (S (length maxi - S i)) by lia.
    cbn [search_below]. rewrite Hfull.
    destruct (search_below maxi newmaxi (length maxi - S i) (S i)) as [j|] eqn:E.
    + apply search_below_some in E. lia.
    + lia.
Qed.

Lemma length_list_set {A} (i : nat) (v : A) (l : list A) :
  length (list_set i v l) = length l.
Proof.
  revert i. induction l as [|x l IH]; intros i; destruct i; simpl; auto.
Qed.

Lemma total_list_set (i : nat) (v x : Z) (l : list Z) :
  nth_error l i = Some x -> total (list_set i v l) = total l - x + v.
Proof.
  unfold total. revert i. induction l as [|y l IH]; intros i H;
    destruct i; simpl in *; try discriminate.
  - inversion H; subst. lia.
  - rewrite (IH _ H). lia.
Qed.

Lemma Forall2_list_set (i : nat) (v y : Z) (l m : list Z) :
  Forall2 Z.le l m -> nth_error m i = Some y -> v <= y ->
  Forall2 Z.le (list_set i v l) m.
Proof.
  intros H. revert i. induction H as [|a b l m Hab H IH]; intros i Hy Hv;
    destruct i; simpl in *; try discriminate.
  - inversion Hy; subst. constructor; assumption.
  - constructor; [exact Hab | apply IH; assumption].
Qed.

Lemma exists_below (maxi newmaxi : list Z) :
  Forall2 Z.le newmaxi maxi -> total newmaxi < total maxi ->
  exists x, (x < length maxi)%nat /\ below maxi newmaxi x = true.
Proof.
  unfold total. induction 1 as [|a b l m Hab H IH]; simpl; intros Hlt; [lia|].
  destruct (Z.ltb_spec a b) as [Hl|Hge].
  - exists O. split; [lia|]. unfold below. simpl. apply Z.ltb_lt. exact Hl.
  - destruct IH as (x & Hx & Hb); [lia|].
    exists (S x). split; [lia | exact Hb].
Qed.

(** With enough fuel for the columns it may have to pass, the loop hands
    out the whole budget and stops. *)
Lemma distribute_total (maxi : list Z) (fuel : nat) :
  forall (newmaxi : list Z) (i : nat) (a : Z),
    (i < length maxi)%nat ->
    Forall2 Z.le newmaxi maxi ->
    a <= total maxi - total newmaxi ->
    (0 < a ->
     (a - 1) * len maxi + Z.of_nat (steps_to_below maxi newmaxi i) + 1
     <= Z.of_nat fuel) ->
    exists r, distribute fuel maxi newmaxi i a = Ok r
              /\ Forall2 Z.le r maxi
              /\ total r = total newmaxi + Z.max 0 a.
Proof.
  induction fuel as [|fuel IH]; intros newmaxi i a Hi Hle Hroom Hfuel.
  - destruct (Z.ltb_spec 0 a) as [Hpos|Hnp].
    + specialize (Hfuel Hpos). unfold len in Hfuel. nia.
    + exists newmaxi. simpl.
      destruct (a >? 0) eqn:E; [apply Z.gtb_lt in E; lia|].
      repeat split; [exact Hle | lia].
  - cbn [distribute]. destruct (a >? 0) eqn:E.
    + apply Z.gtb_lt in E. specialize (Hfuel E).
      pose proof (Forall2_length Hle) as Hlen.
      destruct (nth_error newmaxi i) as [x|] eqn:Hx;
        [|apply nth_error_None in Hx; lia].
      destruct (nth_error maxi i) as [y|] eqn:Hy;
        [|apply nth_error_None in Hy; lia].
      assert (Hn : (Nat.modulo (S i) (length maxi) < length maxi)%nat)
        by (apply Nat.mod_upper_bound; lia).
      destruct (x <? y) eqn:Hxy.
      * apply Z.ltb_lt in Hxy.
        pose proof (total_list_set i (x + 1) x newmaxi Hx) as Ht.
        pose proof (Forall2_list_set i (x + 1) y newmaxi maxi Hle Hy
                      ltac:(lia)) as Hle'.
        destruct (IH (list_set i (x + 1) newmaxi)
                    (Nat.modulo (S i) (length maxi)) (a - 1) Hn Hle'
                    ltac:(lia)) as (r & Hr & Hrl & Hrt).
        { intros Hpos.
          destruct (exists_below maxi (list_set i (x + 1) newmaxi) Hle'
                      ltac:(lia)) as (z & Hz & Hbz).
          pose proof (steps_to_below_bound maxi _ _ z Hn Hz Hbz) as Hb.
          unfold len in *. nia. }
        exists r. repeat split; [exact Hr | exact Hrl | lia].
      * apply Z.ltb_ge in Hxy.
        assert (Hfull : below maxi newmaxi i = false).
        { unfold below. rewrite Hx, Hy. apply Z.ltb_ge. exact Hxy. }
        destruct (exists_below maxi newmaxi Hle ltac:(lia)) as (z & Hz & Hbz).
        pose proof (steps_to_below_next maxi newmaxi i z Hi Hz Hbz Hfull) as Hs.
        destruct (IH newmaxi (Nat.modulo (S i) (length maxi)) a Hn Hle Hroom)
          as (r & Hr & Hrl & Hrt).
        { intros _. lia. }
        exists r. repeat split; assumption.
    + rewrite Z.gtb_ltb in E. apply Z.ltb_ge in E.
      exists newmaxi. repeat split; [exact Hle | lia].
Qed.

Lemma total_repeat_zero (n : nat) : total (repeat 0 n) = 0.
Proof. unfold total. induction n as [|n IH]; simpl; lia. Qed.

Lemma Forall2_repeat_zero (maxi : list Z) :
  Forall (fun w => 0 <= w) maxi -> Forall2 Z.le (repeat 0 (length maxi)) maxi.
Proof. induction 1; simpl; constructor; assumption. Qed.

(** [_compute_cols_width] either raises the width error or assigns one
    width per column, none above the natural width of its column; under a
    budget that the content exceeds, the widths use the whole budget left
    by the decorations. *)
Lemma fit_widths_total (t : UniTable) :
  (exists m n, fit_widths t = Raise (WidthTooLow m n))
  \/ (exists w, fit_widths t = Ok w
                /\ Forall2 Z.le w (natural_widths t)
                /\ (w = natural_widths t
                    \/ total w = t.(_max_width) - overhead t)).
Proof.
  unfold fit_widths, overhead, columns.
  set (maxi := natural_widths t).
  set (deco := deco_width t (len maxi)).
  pose proof (natural_widths_nonneg t) as Hnn. fold maxi in Hnn.
  assert (Hrefl : Forall2 Z.le maxi maxi).
  { clear. induction maxi; constructor; [lia | assumption]. }
  destruct (negb (_max_width t =? 0)
            && (fold_right Z.add 0 maxi + deco >? _max_width t)) eqn:E.
  - destruct (_max_width t <? len maxi + deco) eqn:E2; [left; eauto|].
    right. apply andb_true_iff in E. destruct E as [_ E].
    apply Z.gtb_lt in E. apply Z.ltb_ge in E2.
    assert (Hpos : (0 < length maxi)%nat).
    { destruct maxi as [|m0 ms]; [|simpl; lia].
      unfold deco, deco_width, len in *. simpl in *.
      destruct (_has_border t); lia. }
    destruct (distribute_total maxi
                (Z.to_nat ((_max_width t - deco) * len maxi))
                (repeat 0 (length maxi)) O (_max_width t - deco) Hpos
                (Forall2_repeat_zero _ Hnn))
      as (r & Hr & Hrl & Hrt).
    + rewrite total_repeat_zero. unfold total. lia.
    + intros Ha.
      pose proof (steps_to_below_bound maxi (repeat 0 (length maxi)) O) as Hb.
      destruct (exists_below maxi (repeat 0 (length maxi))
                  (Forall2_repeat_zero _ Hnn)) as (z & Hz & Hbz).
      { rewrite total_repeat_zero. unfold total. lia. }
      specialize (Hb z Hpos Hz Hbz). unfold len in *. nia.
    + exists r. repeat split; [exact Hr | exact Hrl|].
      right. rewrite Hrt, total_repeat_zero. unfold len in *. lia.
  - right. exists maxi. repeat split; [exact Hrefl|]. left. reflexivity.
Qed.

(** * Further properties *)

(** ** The shape of a table *)

Lemma check_refused {A B} (array : list A) (k : unit -> M B)
  (t : UniTable) (r : Z) :
  t.(_row_size) = Some r -> r <> 0 -> len array <> r ->
  bind (_check_row_size array) k t
  = (Raise (ArraySizeError [r] (len array)), t).
Proof.
  intros Hr H0 Hne. apply bind_raise.
  apply _check_row_size_rejects; auto.
Qed.

(** X1: once a non-zero arity [r] is recorded, every entry point that
    takes one value per column ([header], [add_row], [set_header_align],
    [set_cols_align], [set_cols_valign], [set_cols_dtype],
    [set_cols_width]) refuses an array of another length with the
    [ArraySizeError] naming [r] and the length received, and leaves the
    table exactly as it was. *)
Theorem arity_mismatch_refused (t : UniTable) (r : Z) :
  t.(_row_size) = Some r -> r <> 0 ->
  (forall array : list str, len array <> r ->
     header array t = (Raise (ArraySizeError [r] (len array)), t)
     /\ add_row array t = (Raise (ArraySizeError [r] (len array)), t))
  /\ (forall array : list char, len array <> r ->
        set_header_align array t = (Raise (ArraySizeError [r] (len array)), t)
        /\ set_cols_align array t = (Raise (ArraySizeError [r] (len array)), t)
        /\ set_cols_valign array t = (Raise (ArraySizeError [r] (len array)), t)
        /\ set_cols_dtype array t = (Raise (ArraySizeError [r] (len array)), t))
  /\ (forall array : list Z, len array <> r ->
        set_cols_width array t = (Raise (ArraySizeError [r] (len array)), t)).
Proof.
  intros Hr H0. split; [|split].
  - intros array Hne. split; apply check_refused; auto.
  - intros array Hne. repeat split; apply check_refused; auto.
  - intros array Hne. apply check_refused; auto.
Qed.

(** A third cell offered to a table of two columns. *)
Lemma arity_mismatch_refused_witness :
  add_row [s2l "1"; s2l "2"; s2l "3"] two_columns
  = (Raise (ArraySizeError [2] 3), two_columns).
Proof.
  destruct (arity_mismatch_refused two_columns 2 eq_refl ltac:(discriminate))
    as (H & _).
  apply (H [s2l "1"; s2l "2"; s2l "3"]). discriminate.
Defined.

Lemma format_cells_cons (x : str) (rest : list str) (i : nat) (t : UniTable) :
  format_cells i (x :: rest) t
  = match _str i x t with
    | (Ok c, t1) =>
        match format_cells (S i) rest t1 with
        | (Ok cs, t2) => (Ok (c :: cs), t2)
        | (Raise e, t2) => (Raise e, t2)
        end
    | (Raise e, t1) => (Raise e, t1)
    end.
Proof.
  cbn [format_cells]. unfold bind, ret.
  destruct (_str i x t) as [[c|e] t1]; [|reflexivity].
  destruct (format_cells (S i) rest t1) as [[cs|e] t2]; reflexivity.
Qed.

Lemma _str_state (i : nat) (x : str) (t : UniTable) : snd (_str i x t) = t.
Proof.
  unfold _str, bind, get, lift, raise. simpl.
  destruct (_dtype t) as [d|]; [|reflexivity].
  destruct (nth_error d i) as [c|]; [|reflexivity].
  destruct (format_map c) as [f|]; [|reflexivity].
  destruct (f x) as [s|[]]; reflexivity.
Qed.

Lemma format_cells_spec (array : list str) (i : nat) (t : UniTable) :
  snd (format_cells i array t) = t
  /\ forall cells, fst (format_cells i array t) = Ok cells ->
                   length cells = length array.
Proof.
  revert i. induction array as [|x rest IH]; intros i.
  - split; [reflexivity|]. intros cells H. inversion H. reflexivity.
  - rewrite format_cells_cons. pose proof (_str_state i x t) as Hs.
    destruct (_str i x t) as [[c|e] t1]; simpl in Hs; subst t1.
    + destruct (IH (S i)) as [IH1 IH2].
      destruct (format_cells (S i) rest t) as [[cs|e] t2]; simpl in *; subst t2.
      * split; [reflexivity|]. intros cells H. inversion H. simpl.
        f_equal. apply IH2. reflexivity.
      * split; [reflexivity | discriminate].
    + split; [reflexivity | discriminate].
Qed.

Lemma stable_shape__check_row_size {A} (r : Z) (array : list A) :
  stable (fun t => well_shaped t r) (_check_row_size array).
Proof.
  intros t H. rewrite _check_row_size_spec.
  assert (Hu : row_size_unset t = false).
  { unfold row_size_unset. rewrite (ws_row_size _ _ H).
    apply Z.eqb_neq. pose proof (ws_positive _ _ H). lia. }
  rewrite Hu. rewrite (ws_row_size _ _ H).
  destruct (negb (r =? len array)); exact H.
Qed.

(** The check passes only for an array of the recorded arity. *)
Lemma _check_row_size_passed {A} (r : Z) (array : list A) (t t' : UniTable)
  (u : unit) :
  well_shaped t r -> _check_row_size array t = (Ok u, t') ->
  t' = t /\ len array = r.
Proof.
  intros H. rewrite _check_row_size_spec.
  assert (Hu : row_size_unset t = false).
  { unfold row_size_unset. rewrite (ws_row_size _ _ H).
    apply Z.eqb_neq. pose proof (ws_positive _ _ H). lia. }
  rewrite Hu, (ws_row_size _ _ H).
  destruct (r =? len array) eqn:E; simpl; intros H1; inversion H1.
  apply Z.eqb_eq in E. auto.
Qed.

Ltac shape_fields H :=
  destruct H; constructor; simpl in *; auto.

Lemma stable_shape_setter (r : Z) (array : list char)
  (f : option (list char) -> UniTable -> UniTable) :
  (forall t, len array = r -> well_shaped t r ->
             well_shaped (f (Some array) t) r) ->
  stable (fun t => well_shaped t r)
    (_check_row_size array ;;; modify (f (Some array))).
Proof.
  intros Hf t H. unfold bind.
  destruct (_check_row_size array t) as [[u|e] t'] eqn:Hc.
  - destruct (_check_row_size_passed _ _ _ _ _ H Hc) as [-> Hl].
    simpl. apply Hf; assumption.
  - pose proof (stable_shape__check_row_size r array t H) as Hs.
    rewrite Hc in Hs. exact Hs.
Qed.

Lemma stable_shape_header (r : Z) (array : list str) :
  stable (fun t => well_shaped t r) (header array).
Proof.
  intros t H. unfold header, bind.
  destruct (_check_row_size array t) as [[u|e] t'] eqn:Hc.
  - destruct (_check_row_size_passed _ _ _ _ _ H Hc) as [-> Hl].
    simpl. destruct t. shape_fields H. right.
    unfold obj2unicode. rewrite map_id. exact Hl.
  - pose proof (stable_shape__check_row_size r array t H) as Hs.
    rewrite Hc in Hs. exact Hs.
Qed.

Lemma stable_shape_add_row (r : Z) (array : list str) :
  stable (fun t => well_shaped t r) (add_row array).
Proof.
  intros t H. unfold add_row. unfold bind at 1.
  destruct (_check_row_size array t) as [[u|e] t'] eqn:Hc.
  - destruct (_check_row_size_passed _ _ _ _ _ H Hc) as [-> Hl].
    unfold bind at 1. unfold get. cbn [fst snd].
    assert (Hd : exists t1, well_shaped t1 r
               /\ (match _dtype t, _row_size t with
                   | None, Some n =>
                       modify (set_dtype_field (Some (repeat 97 (Z.to_nat n))))
                   | None, None => raise TypeError
                   | Some _, _ => ret tt
                   end) t = (Ok tt, t1)).
    { rewrite (ws_row_size _ _ H). destruct (_dtype t) eqn:Ed.
      - exists t. split; [exact H | reflexivity].
      - eexists. split; [|reflexivity].
        pose proof (ws_positive _ _ H) as Hp.
        destruct t. shape_fields H. simpl in Ed. subst.
        unfold len. rewrite repeat_length. lia. }
    destruct Hd as (t1 & H1 & Hd). unfold bind at 1. rewrite Hd.
    unfold bind.
    destruct (format_cells_spec array O t1) as [Hs Hlen].
    destruct (format_cells O array t1) as [[cells|e] t2]; simpl in Hs; subst t2.
    + simpl. specialize (Hlen cells eq_refl).
      destruct t1. shape_fields H1.
      apply Forall_app. split; [assumption|].
      constructor; [|constructor]. unfold len in *. rewrite Hlen. exact Hl.
    + exact H1.
  - pose proof (stable_shape__check_row_size r array t H) as Hs.
    rewrite Hc in Hs. exact Hs.
Qed.

Lemma stable_shape_add_rows (r : Z) (rows : list (list str)) (b : bool) :
  stable (fun t => well_shaped t r) (add_rows rows b).
Proof.
  unfold add_rows. destruct b.
  - destruct rows as [|first rest]; [apply stable_raise|].
    apply stable_bind; [apply stable_shape_header|]. intros _.
    apply stable_for_each. intros row. apply stable_shape_add_row.
  - apply stable_for_each. intros row. apply stable_shape_add_row.
Qed.

Lemma stable_shape__check_align (r : Z) :
  stable (fun t => well_shaped t r) _check_align.
Proof.
  intros t H. pose proof (ws_positive _ _ H) as Hp.
  pose proof (ws_row_size _ _ H) as Hr.
  assert (Hrep : forall c : char, len (repeat c (Z.to_nat r)) = r)
    by (intros c; unfold len; rewrite repeat_length; lia).
  destruct t. simpl in Hr. subst.
  unfold _check_align, bind, get, lift, modify, ret. simpl.
  destruct _header_align0, _align0, _valign0; simpl;
    shape_fields H.
Qed.

Lemma stable_shape_draw (r : Z) : stable (fun t => well_shaped t r) draw.
Proof.
  intros t H. rewrite draw_unfold.
  assert (G : well_shaped (snd (draw_nonempty t)) r).
  { unfold draw_nonempty.
    apply (stable_bind (fun t => well_shaped t r)); [| |exact H].
    - unfold _compute_cols_width. apply stable_bind; [apply stable_get|].
      intros t0. destruct (_width t0); [apply stable_ret|].
      apply stable_bind; [apply stable_lift|]. intros w.
      apply stable_modify. intros t1 H1. destruct t1. shape_fields H1.
    - intros _. apply stable_bind; [apply stable_shape__check_align|].
      intros _. apply stable_bind; [apply stable_get|]. intros t0.
      apply stable_bind; [apply stable_lift|]. intros out. apply stable_ret. }
  destruct (_header t); destruct (_rows t); try exact G. exact H.
Qed.

Lemma widen_by_row_same_length (row : list str) :
  forall i maxi,
    (i + length row <= length maxi)%nat ->
    length (widen_by_row i row maxi) = length maxi.
Proof.
  induction row as [|c row IH]; intros i maxi H; [reflexivity|].
  cbn [widen_by_row]. simpl in H.
  destruct (nth_error maxi i) as [m|] eqn:E;
    [|apply nth_error_None in E; lia].
  rewrite IH; rewrite length_list_set; [reflexivity | lia].
Qed.

Lemma widen_by_row_new_length (row : list str) :
  forall i maxi,
    i = length maxi -> length (widen_by_row i row maxi) = (i + length row)%nat.
Proof.
  induction row as [|c row IH]; intros i maxi H; [simpl; lia|].
  cbn [widen_by_row].
  destruct (nth_error maxi i) as [m|] eqn:E.
  - assert (i < length maxi)%nat; [|lia].
    apply (proj1 (nth_error_Some maxi i)). rewrite E. discriminate.
  - rewrite (IH (S i)); [simpl; lia|]. rewrite length_app. simpl. lia.
Qed.

Lemma widen_rows_same_length (rows : list (list str)) (n : nat) :
  Forall (fun row => length row = n) rows ->
  forall maxi, length maxi = n ->
    length (fold_left (fun maxi row => widen_by_row O row maxi) rows maxi) = n.
Proof.
  induction 1 as [|row rows Hrow H IH]; intros maxi Hm; [exact Hm|].
  cbn [fold_left]. apply IH.
  rewrite widen_by_row_same_length; [exact Hm | simpl; lia].
Qed.

(** On a table that is not empty the natural widths have the arity of
    the table. *)
Lemma natural_widths_arity (t : UniTable) (r : Z) :
  well_shaped t r -> t.(_header) <> [] \/ t.(_rows) <> [] ->
  len (natural_widths t) = r.
Proof.
  intros H Hne. pose proof (ws_positive _ _ H) as Hp.
  assert (Hrows : Forall (fun row => length row = Z.to_nat r) (_rows t)).
  { eapply Forall_impl; [|exact (ws_rows _ _ H)]. intros row Hl.
    cbv beta in Hl. unfold len in Hl. lia. }
  unfold len, natural_widths.
  destruct (_header t) as [|h hs] eqn:Eh.
  - destruct (_rows t) as [|row rows] eqn:Er;
      [destruct Hne as [Hne|Hne]; contradiction|].
    inversion Hrows as [|? ? Hrow Hrest]; subst. cbn [fold_left].
    rewrite (widen_rows_same_length rows (Z.to_nat r) Hrest); [lia|].
    rewrite (widen_by_row_new_length row O []) by reflexivity.
    simpl. exact Hrow.
  - rewrite (widen_rows_same_length (_rows t) (Z.to_nat r) Hrows); [lia|].
    rewrite length_map.
    destruct (ws_header _ _ H) as [E|E]; [rewrite Eh in E; discriminate|].
    rewrite Eh in E. unfold len in E. lia.
Qed.

Lemma stable_arity_width {A} (r : Z) (m : M A) (t : UniTable) :
  (forall w, stable (fun t => _width t = w) m) ->
  has_arity r t.(_width) -> has_arity r (exec m t).(_width).
Proof.
  intros Hm H. unfold exec. rewrite (Hm (_width t) t eq_refl). exact H.
Qed.

(** X2: a table with a recorded positive arity keeps its shape through
    every insertion, every per-column setter, [set_cols_width] included,
    and rendering, whether the call succeeds or raises: the arity stays
    recorded, every stored row and the header have that many cells, and
    every per-column array that is set, the stored widths included, has
    that many entries. *)
Theorem shape_is_kept (t : UniTable) (r : Z) :
  shaped t r ->
  (forall array, shaped (exec (header array) t) r)
  /\ (forall array, shaped (exec (add_row array) t) r)
  /\ (forall rows b, shaped (exec (add_rows rows b) t) r)
  /\ (forall rows b, shaped (exec (set_rows rows b) t) r)
  /\ (forall array, shaped (exec (set_header_align array) t) r
                    /\ shaped (exec (set_cols_align array) t) r
                    /\ shaped (exec (set_cols_valign array) t) r
                    /\ shaped (exec (set_cols_dtype array) t) r)
  /\ (forall array, shaped (exec (set_cols_width array) t) r)
  /\ shaped (exec draw t) r.
Proof.
  intros [H Hw].
  split; [|split; [|split; [|split; [|split; [|split]]]]].
  - intros array. split; [apply stable_shape_header; exact H|].
    apply stable_arity_width; [|exact Hw]. intros w. keeps_core.
  - intros array. split; [apply stable_shape_add_row; exact H|].
    apply stable_arity_width; [|exact Hw]. intros w. keeps_core.
  - intros rows b. split; [apply stable_shape_add_rows; exact H|].
    apply stable_arity_width; [|exact Hw]. intros w.
    unfold add_rows. keeps_core.
  - intros rows b. split.
    + unfold set_rows.
      apply (stable_bind (fun t => well_shaped t r)); [| |exact H].
      * apply stable_modify. intros t1 H1. destruct t1. shape_fields H1.
      * intros _. apply stable_shape_add_rows.
    + apply stable_arity_width; [|exact Hw]. intros w.
      unfold set_rows, add_rows. keeps_core.
  - intros array. split; [|split; [|split]]; split.
    + apply (stable_shape_setter r array set_header_align_field); [|exact H].
      intros t1 Hl H1. destruct t1. shape_fields H1.
    + apply stable_arity_width; [|exact Hw]. intros w.
      unfold set_header_align. keeps_core.
    + apply (stable_shape_setter r array set_align_field); [|exact H].
      intros t1 Hl H1. destruct t1. shape_fields H1.
    + apply stable_arity_width; [|exact Hw]. intros w.
      unfold set_cols_align. keeps_core.
    + apply (stable_shape_setter r array set_valign_field); [|exact H].
      intros t1 Hl H1. destruct t1. shape_fields H1.
    + apply stable_arity_width; [|exact Hw]. intros w.
      unfold set_cols_valign. keeps_core.
    + apply (stable_shape_setter r array set_dtype_field); [|exact H].
      intros t1 Hl H1. destruct t1. shape_fields H1.
    + apply stable_arity_width; [|exact Hw]. intros w.
      unfold set_cols_dtype. keeps_core.
  - intros array. unfold shaped, exec, set_cols_width.
    destruct (_check_row_size array t) as [[u|e] t1] eqn:Hc.
    + destruct (_check_row_size_passed _ _ _ _ _ H Hc) as [-> Hl].
      rewrite (bind_ok _ _ _ _ _ Hc). unfold bind, lift, modify, raise.
      destruct (reduce_min array) as [m|e]; cbn [fst snd];
        [|split; assumption].
      destruct (m <=? 0); cbn [fst snd]; [split; assumption|].
      split; [destruct t; shape_fields H | destruct t; exact Hl].
    + rewrite (bind_raise _ _ _ _ _ Hc). cbn [snd].
      pose proof (stable_shape__check_row_size r array t H) as Hs.
      pose proof (stable_width__check_row_size (_width t) array t eq_refl)
        as Hs2.
      rewrite Hc in Hs, Hs2. cbn [snd] in Hs, Hs2.
      split; [exact Hs | rewrite Hs2; exact Hw].
  - split; [apply stable_shape_draw; exact H|].
    unfold exec. rewrite draw_unfold.
    assert (G : t.(_header) <> [] \/ t.(_rows) <> [] ->
                has_arity r (_width (snd (draw_nonempty t)))).
    { intros Hne.
      destruct (draw_nonempty_effect t)
        as [(e & He & _)|(w' & Hw' & Hs & _)].
      - rewrite He. exact Hw.
      - rewrite Hs.
        destruct (_check_align_effect (set_width_field (Some w') t))
          as (_ & Hwd & _).
        rewrite Hwd.
        replace (_width (set_width_field (Some w') t)) with (Some w')
          by (destruct t; reflexivity).
        destruct Hw' as [Hst|[_ Hfit]].
        + rewrite Hst in Hw. exact Hw.
        + destruct (fit_widths_total t)
            as [(m & n & Hr)|(w0 & Hw0 & Hle & _)];
            [rewrite Hr in Hfit; discriminate|].
          rewrite Hw0 in Hfit. inversion Hfit; subst w0.
          simpl. unfold len. rewrite (Forall2_length Hle).
          exact (natural_widths_arity t r H Hne). }
    destruct (_header t) as [|h hs] eqn:Eh; destruct (_rows t) as [|x xs] eqn:Er;
      try (apply G; first [left; discriminate | right; discriminate]).
    exact Hw.
Qed.

Lemma two_columns_shaped : well_shaped two_columns 2.
Proof.
  constructor; simpl; auto; try lia.
Defined.

Lemma shape_is_kept_witness :
  shaped (exec (set_cols_width [4; 5]) two_columns) 2
  /\ shaped (exec draw two_columns) 2.
Proof.
  destruct (shape_is_kept two_columns 2 (conj two_columns_shaped I))
    as (_ & _ & _ & _ & _ & H & Hd).
  split; [apply H | exact Hd].
Defined.

(** X3: the first [header] or [add_row] on a table on which nothing was
    inserted or configured records the length of its array, when that
    array is not empty, as the arity of the table, and leaves a table of
    that shape, whether the cells could be formatted or not. *)
Theorem shape_is_established (t : UniTable) (array : list str) :
  untouched t -> array <> [] ->
  well_shaped (exec (header array) t) (len array)
  /\ well_shaped (exec (add_row array) t) (len array).
Proof.
  intros (Hu & Hrows & Hh & Hd & Hha & Ha & Hv) Hne.
  assert (Hpos : 0 < len array).
  { destruct array; [contradiction|]. unfold len. simpl. lia. }
  assert (Hc : _check_row_size array t
               = (Ok tt, set_row_size (Some (len array)) t)).
  { rewrite _check_row_size_spec, Hu. reflexivity. }
  assert (W : well_shaped (set_row_size (Some (len array)) t) (len array)).
  { destruct t. simpl in *. subst. constructor; simpl; auto. }
  split.
  - unfold exec, header. rewrite (bind_ok _ _ _ _ _ Hc). simpl.
    destruct t. simpl in *. subst. constructor; simpl; auto.
    right. unfold obj2unicode. rewrite map_id. reflexivity.
  - unfold exec, add_row. rewrite (bind_ok _ _ _ _ _ Hc).
    unfold bind at 1. unfold get. cbn [fst snd].
    assert (Hdt : _dtype (set_row_size (Some (len array)) t) = None)
      by (destruct t; exact Hd).
    assert (Hrs : _row_size (set_row_size (Some (len array)) t)
                  = Some (len array)) by (destruct t; reflexivity).
    rewrite Hdt, Hrs. unfold bind at 1. cbn [modify fst snd].
    set (t1 := set_dtype_field (Some (repeat 97 (Z.to_nat (len array))))
                 (set_row_size (Some (len array)) t)).
    assert (W1 : well_shaped t1 (len array)).
    { unfold t1. destruct t. simpl in *. subst. constructor; simpl; auto.
      unfold len. rewrite repeat_length. lia. }
    clearbody t1. unfold bind.
    destruct (format_cells_spec array O t1) as [Hs Hlen].
    destruct (format_cells O array t1) as [[cells|e] t2]; simpl in Hs; subst t2.
    + simpl. specialize (Hlen cells eq_refl).
      destruct t1. destruct W1. constructor; simpl in *; auto.
      apply Forall_app. split; [assumption|].
      constructor; [|constructor]. unfold len. rewrite Hlen. reflexivity.
    + exact W1.
Qed.

(** The first row of a default table. *)
Lemma shape_is_established_witness :
  well_shaped (exec (add_row [s2l "x"; s2l "y"; s2l "z"]) new_table) 3.
Proof.
  destruct (shape_is_established new_table [s2l "x"; s2l "y"; s2l "z"])
    as [_ H].
  - repeat split.
  - discriminate.
  - exact H.
Defined.

(** ** Styles and glyphs *)

Lemma glyphs_set_chars (g : list str) (t : UniTable) :
  length g = 15%nat -> glyphs (set_chars_field g t) = g.
Proof.
  intros H. destruct t. unfold glyphs, set_chars_field. simpl.
  do 15 (destruct g as [|? g]; [discriminate|]).
  destruct g; [reflexivity | discriminate].
Qed.

(** X4: [set_table_lines] accepts exactly 4 or 15 glyphs.  Any other
    count is refused with the [ArraySizeError] naming 4 and 15 and leaves
    the table as it was; 4 glyphs (horizontal, vertical, corner, header
    line) are expanded with the corner in the nine junction slots; 15
    glyphs are stored as given; and the recorded style name is never
    changed. *)
Theorem glyph_count_checked (t : UniTable) (g : list str) :
  (len g <> 4 -> len g <> 15 ->
   set_table_lines g t = (Raise (ArraySizeError [4; 15] (len g)), t))
  /\ (forall hor ver cor hea,
        eval (set_table_lines [hor; ver; cor; hea]) t = Ok tt
        /\ glyphs (exec (set_table_lines [hor; ver; cor; hea]) t)
           = [hor; ver; cor; cor; cor; cor; cor; cor; cor; cor; cor; hea;
              cor; cor; cor])
  /\ (len g = 15 ->
      eval (set_table_lines g) t = Ok tt
      /\ glyphs (exec (set_table_lines g) t) = g)
  /\ (exec (set_table_lines g) t).(_style) = t.(_style).
Proof.
  split; [|split; [|split]].
  - intros H4 H15. unfold set_table_lines.
    destruct (len g =? 15) eqn:E; [apply Z.eqb_eq in E; contradiction|].
    destruct g as [|a [|b [|c [|d [|e g]]]]]; try reflexivity.
    exfalso. apply H4. reflexivity.
  - intros hor ver cor hea. split; [reflexivity|].
    destruct t; reflexivity.
  - intros H15. unfold eval, exec, set_table_lines, _set_table_lines.
    rewrite H15. simpl. split; [reflexivity|].
    apply glyphs_set_chars. unfold len in H15. lia.
  - unfold exec, set_table_lines, _set_table_lines.
    destruct (len g =? 15) eqn:E.
    + simpl. destruct t; reflexivity.
    + destruct g as [|a [|b [|c [|d [|e g]]]]]; try reflexivity;
        simpl; destruct t; reflexivity.
Qed.

(** Three glyphs are refused; fifteen are stored. *)
Lemma glyph_count_checked_witness :
  set_table_lines (chars_of (s2l "-|+")) new_table
  = (Raise (ArraySizeError [4; 15] 3), new_table)
  /\ glyphs (exec (set_table_lines (chars_of (s2l "-|+++++++++=+++")))
                  new_table)
     = chars_of (s2l "-|+++++++++=+++").
Proof.
  split.
  - apply (glyph_count_checked new_table (chars_of (s2l "-|+"))); discriminate.
  - apply (glyph_count_checked new_table (chars_of (s2l "-|+++++++++=+++"))).
    reflexivity.
Defined.

Lemma lookup_style_In (name : str) (l : list (str * list str)) (g : list str) :
  lookup_style name l = Some g -> In g (map snd l).
Proof.
  induction l as [|[k v] l IH]; simpl; [discriminate|].
  destruct (str_eqb k name).
  - intros H. inversion H. left. reflexivity.
  - intros H. right. exact (IH H).
Qed.

Lemma set_style_unfold (name : str) (t : UniTable) :
  set_style name t
  = match lookup_style name STYLES with
    | Some g => set_table_lines g (set_style_field name t)
    | None => (Raise (ValueError "style must be one of the defined styles"),
               set_style_field name t)
    end.
Proof.
  unfold set_style, bind, modify. cbv beta iota.
  destruct (lookup_style name STYLES); reflexivity.
Qed.

(** X5: [set_style] records the name before it looks it up.  A name
    outside the table of styles raises a [ValueError] and leaves the
    glyphs as they were, but the table keeps the rejected name as its
    style; every name of the table is accepted, and its glyphs each take
    one display cell, except for the two styles without lines, whose
    fifteen glyphs are empty. *)
Theorem style_names (t : UniTable) (name : str) :
  (lookup_style name STYLES = None ->
   set_style name t
   = (Raise (ValueError "style must be one of the defined styles"),
      set_style_field name t)
   /\ glyphs (exec (set_style name) t) = glyphs t)
  /\ (forall g, lookup_style name STYLES = Some g ->
      eval (set_style name) t = Ok tt
      /\ (exec (set_style name) t).(_style) = name
      /\ (Forall narrow (glyphs (exec (set_style name) t))
          \/ glyphs (exec (set_style name) t) = repeat [] 15)).
Proof.
  split.
  - intros H. unfold exec. rewrite set_style_unfold, H.
    split; [reflexivity|]. destruct t; reflexivity.
  - intros g H.
    assert (Hs : set_style name t = set_table_lines g (set_style_field name t)).
    { rewrite set_style_unfold, H. reflexivity. }
    apply lookup_style_In in H. unfold eval, exec. rewrite Hs.
    assert (Hn : forall c, wcwidth c = 1 -> narrow [c])
      by (intros c Hc; exists c; split; [reflexivity | exact Hc]).
    simpl in H.
    repeat (destruct H as [H|H];
            [subst g; split; [reflexivity|]; split;
             [destruct t; reflexivity|];
             first [ right; destruct t; reflexivity
                   | left; destruct t; cbn;
                     repeat (constructor; [apply Hn; reflexivity|]);
                     constructor ]
            |]).
    contradiction.
Qed.

(** The style [double] is accepted; the name [dotted] is refused but
    recorded. *)
Lemma style_names_witness :
  eval (set_style (s2l "double")) new_table = Ok tt
  /\ (exec (set_style (s2l "dotted")) new_table).(_style) = s2l "dotted".
Proof.
  split.
  - apply (proj2 (style_names new_table (s2l "double"))
             (chars_of [9552; 9553; 9556; 9559; 9562; 9565; 9568; 9571;
                        9574; 9577; 9580; 9552; 9568; 9571; 9580])).
    reflexivity.
  - destruct (proj1 (style_names new_table (s2l "dotted")) eq_refl) as [H _].
    unfold exec. rewrite H. reflexivity.
Defined.

(** ** Budget, fixed widths and repeated rendering *)

Lemma draw_empty (t : UniTable) :
  t.(_header) = [] -> t.(_rows) = [] -> draw t = (Ok None, t).
Proof. intros Hh Hr. rewrite draw_unfold, Hh, Hr. reflexivity. Qed.

Lemma nonempty_dec (t : UniTable) :
  nonempty t \/ (t.(_header) = [] /\ t.(_rows) = []).
Proof.
  unfold nonempty. destruct (_header t); destruct (_rows t);
    try (left; (left; discriminate) || (right; discriminate)).
  right. split; reflexivity.
Qed.

Lemma no_width_error_when_stored (t : UniTable) (w : list Z) (a b : Z) :
  t.(_width) = Some w -> eval draw t <> Raise (WidthTooLow a b).
Proof.
  intros Hw H. destruct (nonempty_dec t) as [Hne|[Hh Hr]].
  - apply (draw_width_error t a b Hne) in H. destruct H as [H _]. congruence.
  - unfold eval in H. rewrite (draw_empty t Hh Hr) in H. discriminate.
Qed.



Lemma fold_min_le (l : list Z) (a : Z) :
  fold_left Z.min l a <= a /\ forall v, In v l -> fold_left Z.min l a <= v.
Proof.
  revert a. induction l as [|y l IH]; simpl; intros a.
  - split; [lia | contradiction].
  - destruct (IH (Z.min a y)) as [H1 H2]. split; [lia|].
    intros v [->|Hv]; [lia | auto].
Qed.

(** X7: when [set_cols_width] succeeds, every width of its array is
    positive and the array is stored as the widths of the table; [draw]
    then keeps those widths, whatever the content and the budget, and
    never raises the width error. *)
Theorem fixed_widths_are_kept (t : UniTable) (array : list Z) :
  eval (set_cols_width array) t = Ok tt ->
  Forall (fun w => 0 < w) array
  /\ (exec (set_cols_width array) t).(_width) = Some array
  /\ (exec draw (exec (set_cols_width array) t)).(_width) = Some array
  /\ forall a b, eval draw (exec (set_cols_width array) t)
                 <> Raise (WidthTooLow a b).
Proof.
  intros H. unfold eval, exec in *. unfold set_cols_width in H.
  destruct (_check_row_size array t) as [[u|e] t1] eqn:Hc;
    [rewrite (bind_ok _ _ _ _ _ Hc) in H
    |rewrite (bind_raise _ _ _ _ _ Hc) in H; discriminate].
  unfold bind, lift in H.
  destruct (reduce_min array) as [m|e] eqn:Hm; [|discriminate].
  destruct (m <=? 0) eqn:E; [discriminate|]. clear H.
  apply Z.leb_gt in E.
  assert (Hall : Forall (fun w => 0 < w) array).
  { destruct array as [|x rest]; [constructor|]. simpl in Hm.
    inversion Hm; subst m. destruct (fold_min_le rest x) as [H1 H2].
    constructor; [lia|]. apply Forall_forall. intros v Hv.
    specialize (H2 v Hv). lia. }
  assert (Hw : _width (snd (set_cols_width array t)) = Some array).
  { unfold set_cols_width. rewrite (bind_ok _ _ _ _ _ Hc).
    unfold bind, lift. rewrite Hm.
    destruct (m <=? 0) eqn:E'; [apply Z.leb_le in E'; lia|].
    destruct t1; reflexivity. }
  split; [exact Hall|]. split; [exact Hw|]. split.
  - apply stable_width_draw. exact Hw.
  - intros a b. apply (no_width_error_when_stored _ array). exact Hw.
Qed.

(** Two fixed widths under a budget they exceed. *)
Lemma fixed_widths_are_kept_witness :
  (exec draw (exec (set_cols_width [40; 60])
                (exec (set_max_width 10) two_columns))).(_width)
  = Some [40; 60].
Proof.
  apply (fixed_widths_are_kept (exec (set_max_width 10) two_columns) [40; 60]).
  reflexivity.
Defined.

Lemma _check_align_ok (t t' : UniTable) (u : unit) :
  _check_align t = (Ok u, t') ->
  (exists ha a v, t'.(_header_align) = Some ha /\ t'.(_align) = Some a
                  /\ t'.(_valign) = Some v)
  /\ t'.(_width) = t.(_width)
  /\ t'.(_header) = t.(_header) /\ t'.(_rows) = t.(_rows).
Proof.
  destruct t. unfold _check_align, bind, get, lift, modify, ret. simpl.
  destruct _header_align0, _align0, _valign0, _row_size0; simpl;
    intros H; inversion H; subst; simpl;
    (split; [do 3 eexists; repeat split; reflexivity | repeat split]).
Qed.

Lemma _check_align_fixed (t : UniTable) (ha a v : list char) :
  t.(_header_align) = Some ha -> t.(_align) = Some a ->
  t.(_valign) = Some v -> _check_align t = (Ok tt, t).
Proof.
  destruct t. simpl. intros -> -> ->. reflexivity.
Qed.

(** X8: rendering twice gives the same answer.  When [draw] returns
    (text, or nothing for an empty table), a second [draw] on the table
    it leaves returns the same and changes nothing more. *)
Theorem draw_twice (t : UniTable) (r : option str) :
  eval draw t = Ok r -> draw (exec draw t) = (Ok r, exec draw t).
Proof.
  unfold eval, exec. rewrite draw_unfold.
  assert (G : (t.(_header) <> [] \/ t.(_rows) <> []) ->
              fst (draw_nonempty t) = Ok r ->
              draw (snd (draw_nonempty t))
              = (Ok r, snd (draw_nonempty t))).
  { intros Hne. unfold draw_nonempty.
    destruct (_compute_cols_width t) as [[u|e] t1] eqn:Hc;
      [rewrite (bind_ok _ _ _ _ _ Hc)
      |rewrite (bind_raise _ _ _ _ _ Hc); discriminate].
    destruct (_check_align t1) as [[u'|e] t2] eqn:Ha;
      [rewrite (bind_ok _ _ _ _ _ Ha)
      |rewrite (bind_raise _ _ _ _ _ Ha); discriminate].
    unfold bind, get, lift, ret. cbn [fst snd].
    destruct (draw_body t2) as [out|e] eqn:Hb; cbn [fst snd];
      [|discriminate].
    intros H. inversion H; subst r. clear H.
    destruct (_check_align_ok _ _ _ Ha) as ((ha & a & v & Hha & Hal & Hv)
                                            & Hw & Hh & Hr).
    destruct (_compute_cols_width_sets _ _ _ Hc) as [w Hw1].
    assert (Hc2 : _compute_cols_width t2 = (Ok tt, t2)).
    { unfold _compute_cols_width, bind, get. simpl.
      rewrite Hw, Hw1. reflexivity. }
    assert (Hh1 : _header t1 = _header t /\ _rows t1 = _rows t).
    { pose proof (stable_content__compute_cols_width (content_of t) t
                    eq_refl) as Hs.
      rewrite Hc in Hs. simpl in Hs.
      split; [change (_header t1) with (_header (content_of t1))
             |change (_rows t1) with (_rows (content_of t1))];
        rewrite Hs; reflexivity. }
    destruct Hh1 as [Hh1 Hr1].
    rewrite draw_unfold.
    assert (Hn : draw_nonempty t2 = (Ok (Some out), t2)).
    { unfold draw_nonempty. rewrite (bind_ok _ _ _ _ _ Hc2).
      rewrite (bind_ok _ _ _ _ _ (_check_align_fixed _ _ _ _ Hha Hal Hv)).
      unfold bind, get, lift, ret. cbn [fst snd]. rewrite Hb. reflexivity. }
    rewrite Hh, Hr, Hh1, Hr1.
    destruct (_header t); destruct (_rows t); try exact Hn.
    destruct Hne as [Hx|Hx]; contradiction. }
  destruct (_header t) eqn:Hh; destruct (_rows t) eqn:Hr.
  - simpl. intros H. inversion H; subst r. apply draw_empty; assumption.
  - apply G. right. discriminate.
  - apply G. left. discriminate.
  - apply G. left. discriminate.
Qed.

(** Scenario A drawn a second time. *)
Lemma draw_twice_witness :
  eval draw (exec draw scenario_A_table) = Ok (Some scenario_A_expected).
Proof.
  pose proof (draw_twice scenario_A_table (Some scenario_A_expected) eq_refl)
    as H.
  unfold eval. rewrite H. reflexivity.
Defined.

(** ** The width of a cell *)

Lemma split_on_nonempty (c : char) (s : str) : split_on c s <> [].
Proof.
  destruct s as [|x s]; simpl; [discriminate|].
  destruct (x =? c); [discriminate|].
  destruct (split_on c s); discriminate.
Qed.

Lemma split_on_app (c : char) (a b : str) :
  split_on c (a ++ c :: b) = split_on c a ++ split_on c b.
Proof.
  induction a as [|x a IH].
  - simpl. rewrite Z.eqb_refl. reflexivity.
  - cbn [app split_on]. destruct (x =? c); [rewrite IH; reflexivity|].
    rewrite IH. pose proof (split_on_nonempty c a) as Hne.
    destruct (split_on c a) as [|w ws]; [contradiction | reflexivity].
Qed.

Lemma split_on_absent (c : char) (l : str) :
  ~ In c l -> split_on c l = [l].
Proof.
  induction l as [|x l IH]; intros H; [reflexivity|]. simpl.
  destruct (x =? c) eqn:E.
  - apply Z.eqb_eq in E. exfalso. apply H. left. exact E.
  - rewrite IH; [reflexivity|]. intros Hin. apply H. right. exact Hin.
Qed.

Lemma fold_max_from (g : str -> Z) (l : list str) (a : Z) :
  fold_left (fun m line => Z.max m (g line)) l a
  = Z.max a (fold_left (fun m line => Z.max m (g line)) l 0)
  \/ a < 0.
Proof.
  destruct (Z.ltb_spec a 0) as [Hneg|Hpos]; [right; exact Hneg|]. left.
  revert a Hpos. induction l as [|x l IH]; intros a Hpos; simpl; [lia|].
  rewrite (IH (Z.max a (g x))) by lia.
  rewrite (IH (Z.max 0 (g x))) by lia. lia.
Qed.

(** X9: the width [_len_cell] gives a cell is never negative; the width
    of a cell of several lines is the largest width of its lines; a line
    without a tab counts its display width; and the text before a tab is
    rounded up to the next multiple of 8 before the text after it is
    added. *)
Theorem cell_width_rules (a b : str) :
  0 <= _len_cell a
  /\ _len_cell (a ++ NL :: b) = Z.max (_len_cell a) (_len_cell b)
  /\ (~ In NL a -> ~ In TAB a -> _len_cell a = Z.max 0 (vislen a))
  /\ (~ In NL a -> ~ In TAB a -> ~ In NL b -> ~ In TAB b ->
      _len_cell (a ++ TAB :: b)
      = Z.max 0 ((vislen a / 8 + 1) * 8 + vislen b)).
Proof.
  split; [apply _len_cell_nonneg|]. split; [|split].
  - unfold _len_cell. rewrite split_on_app, fold_left_app.
    pose proof (_len_cell_nonneg a) as Ha. unfold _len_cell in Ha.
    destruct (fold_max_from (fun line => len_parts 0 (split_on TAB line))
                (split_on NL b)
                (fold_left (fun maxi line =>
                              Z.max maxi (len_parts 0 (split_on TAB line)))
                           (split_on NL a) 0)) as [H|H]; [exact H | lia].
  - intros Hn Ht. unfold _len_cell.
    rewrite (split_on_absent NL a Hn). simpl.
    rewrite (split_on_absent TAB a Ht). simpl. reflexivity.
  - intros Hna Hta Hnb Htb. unfold _len_cell.
    assert (Hn : ~ In NL (a ++ TAB :: b)).
    { intros Hin. apply in_app_or in Hin.
      destruct Hin as [Hin|[Hin|Hin]]; [auto | discriminate | auto]. }
    rewrite (split_on_absent NL _ Hn). simpl.
    rewrite split_on_app, (split_on_absent TAB a Hta),
      (split_on_absent TAB b Htb).
    simpl. reflexivity.
Qed.

(** The cell [ab<TAB>c]: 2 is rounded up to 8, and 1 is added. *)
Lemma cell_width_rules_witness :
  _len_cell (s2l "ab" ++ TAB :: s2l "c") = 9.
Proof.
  destruct (cell_width_rules (s2l "ab") (s2l "c")) as (_ & _ & _ & H).
  rewrite H; [reflexivity | | | |];
    intros Hin; simpl in Hin; repeat destruct Hin as [Hin|Hin];
      try discriminate Hin; exact Hin.
Defined.

(** ** The widths under a budget *)

Lemma nth_level_widths (maxi : list Z) (i j : nat) (r : Z) :
  nth_error (level_widths i r maxi) j
  = option_map (fun m => Z.min m (if (j <? i)%nat then r + 1 else r))
               (nth_error maxi j).
Proof.
  revert i j. induction maxi as [|m rest IH]; intros i j.
  - destruct j; reflexivity.
  - destruct j as [|j].
    + destruct i; reflexivity.
    + cbn [level_widths nth_error]. rewrite IH.
      destruct i as [|i]; [reflexivity|]. simpl pred.
      replace (S j <? S i)%nat with (j <? i)%nat; [reflexivity|].
      destruct (Nat.ltb_spec j i), (Nat.ltb_spec (S j) (S i)); auto; lia.
Qed.

Lemma list_set_same {A} (l : list A) (i : nat) (x : A) :
  nth_error l i = Some x -> list_set i x l = l.
Proof.
  revert i. induction l as [|y l IH]; intros i H; destruct i; simpl in *;
    try discriminate.
  - inversion H. reflexivity.
  - f_equal. apply IH. exact H.
Qed.

Lemma level_widths_step (maxi : list Z) (i : nat) (r m : Z) :
  nth_error maxi i = Some m ->
  list_set i (Z.min m (r + 1)) (level_widths i r maxi)
  = level_widths (S i) r maxi.
Proof.
  revert i. induction maxi as [|m0 rest IH]; intros i H.
  - destruct i; discriminate.
  - destruct i as [|i]; simpl in H.
    + inversion H; subst. reflexivity.
    + cbn [level_widths list_set pred]. f_equal. apply IH. exact H.
Qed.

Lemma level_widths_round (maxi : list Z) (i : nat) (r : Z) :
  (length maxi <= i)%nat ->
  level_widths i r maxi = level_widths O (r + 1) maxi.
Proof.
  revert i. induction maxi as [|m rest IH]; intros i H; [reflexivity|].
  destruct i as [|i]; [simpl in H; lia|].
  cbn [level_widths pred]. f_equal.
  rewrite (IH i) by (simpl in H; lia).
  clear. induction rest as [|x rest IH]; [reflexivity|].
  cbn [level_widths pred]. f_equal.
Qed.

Lemma level_widths_zero (maxi : list Z) :
  Forall (fun w => 0 <= w) maxi ->
  level_widths O 0 maxi = repeat 0 (length maxi).
Proof.
  induction 1 as [|m rest Hm H IH]; [reflexivity|].
  cbn [level_widths pred length repeat]. rewrite IH. f_equal. lia.
Qed.

(** The loop keeps the widths level. *)
Lemma distribute_levels (maxi : list Z) (fuel : nat) :
  forall (i : nat) (r a : Z) (res : list Z),
    (i < length maxi)%nat -> 0 <= r ->
    distribute fuel maxi (level_widths i r maxi) i a = Ok res ->
    exists i' r', (i' < length maxi)%nat /\ r <= r'
                  /\ res = level_widths i' r' maxi.
Proof.
  induction fuel as [|fuel IH]; intros i r a res Hi Hr H; cbn [distribute] in H.
  - destruct (a >? 0); [discriminate|]. inversion H. exists i, r.
    repeat split; [exact Hi | lia].
  - destruct (a >? 0); [|inversion H; exists i, r; repeat split; [exact Hi|lia]].
    destruct (nth_error maxi i) as [m|] eqn:Hm;
      [|apply nth_error_None in Hm; lia].
    rewrite nth_level_widths, Hm, Nat.ltb_irrefl in H. cbn [option_map] in H.
    assert (Hnext : forall res a',
               distribute fuel maxi (level_widths (S i) r maxi)
                 (Nat.modulo (S i) (length maxi)) a' = Ok res ->
               exists i' r', (i' < length maxi)%nat /\ r <= r'
                             /\ res = level_widths i' r' maxi).
    { intros res' a' H'.
      destruct (Nat.eq_dec (S i) (length maxi)) as [Heq|Hne].
      - rewrite Heq, Nat.Div0.mod_same in H'.
        rewrite (level_widths_round maxi (length maxi) r) in H' by lia.
        destruct (IH O (r + 1) a' res' ltac:(lia) ltac:(lia) H')
          as (i' & r' & Hi' & Hr' & ->).
        exists i', r'. repeat split; [exact Hi' | lia].
      - rewrite Nat.mod_small in H' by lia.
        apply (IH (S i) r a' res'); [lia | exact Hr | exact H']. }
    destruct (Z.min m r <? m) eqn:E.
    + apply Z.ltb_lt in E.
      replace (Z.min m r + 1) with (Z.min m (r + 1)) in H by lia.
      rewrite (level_widths_step maxi i r m Hm) in H.
      exact (Hnext _ _ H).
    + apply Z.ltb_ge in E.
      assert (Hsame : level_widths i r maxi = level_widths (S i) r maxi).
      { rewrite <- (level_widths_step maxi i r m Hm).
        symmetry. apply list_set_same.
        rewrite nth_level_widths, Hm, Nat.ltb_irrefl. cbn [option_map].
        f_equal. lia. }
      rewrite Hsame in H. exact (Hnext _ _ H).
Qed.

Lemma total_level_zero (maxi : list Z) (i : nat) :
  Forall (fun w => 0 <= w) maxi ->
  total (level_widths i 0 maxi) <= Z.of_nat i.
Proof.
  unfold total. intros H. revert i.
  induction H as [|m rest Hm H IH]; intros i; simpl; [lia|].
  specialize (IH (pred i)). destruct i as [|i]; simpl pred in *; lia.
Qed.

(** What [_compute_cols_width] assigns when the content exceeds a budget
    that is large enough for the columns. *)
Lemma fit_widths_levels (t : UniTable) :
  t.(_max_width) <> 0 ->
  content_width t + overhead t > t.(_max_width) ->
  columns t + overhead t <= t.(_max_width) ->
  exists i r,
    (i < length (natural_widths t))%nat /\ 1 <= r
    /\ fit_widths t = Ok (level_widths i r (natural_widths t))
    /\ total (level_widths i r (natural_widths t))
       = t.(_max_width) - overhead t.
Proof.
  intros Hnz Hgt Hle.
  pose proof (natural_widths_nonneg t) as Hnn.
  assert (Hshrink : fit_widths t
            = distribute (Z.to_nat ((_max_width t - overhead t) * columns t))
                (natural_widths t) (repeat 0 (length (natural_widths t))) O
                (_max_width t - overhead t)).
  { unfold fit_widths, overhead, columns, content_width in *.
    destruct (_max_width t =? 0) eqn:E0; [apply Z.eqb_eq in E0; contradiction|].
    destruct (fold_right Z.add 0 (natural_widths t)
              + deco_width t (len (natural_widths t)) >? _max_width t) eqn:E1;
      [|rewrite Z.gtb_ltb in E1; apply Z.ltb_ge in E1; lia].
    destruct (_max_width t <? len (natural_widths t)
                              + deco_width t (len (natural_widths t))) eqn:E2;
      [apply Z.ltb_lt in E2; lia|].
    reflexivity. }
  assert (Hpos : (0 < length (natural_widths t))%nat).
  { destruct (natural_widths t) as [|m0 ms] eqn:En; [|simpl; lia].
    unfold overhead, columns, content_width, deco_width, len in *.
    rewrite En in *. simpl in *. destruct (_has_border t); lia. }
  destruct (distribute_total (natural_widths t)
              (Z.to_nat ((_max_width t - overhead t) * columns t))
              (repeat 0 (length (natural_widths t))) O
              (_max_width t - overhead t) Hpos
              (Forall2_repeat_zero _ Hnn)) as (w & Hw & _ & Hwt).
  { rewrite total_repeat_zero. unfold content_width, total in *. lia. }
  { intros Ha.
    destruct (exists_below (natural_widths t)
                (repeat 0 (length (natural_widths t)))
                (Forall2_repeat_zero _ Hnn)) as (z & Hz & Hbz).
    { rewrite total_repeat_zero. unfold content_width, total in *. lia. }
    pose proof (steps_to_below_bound (natural_widths t)
                  (repeat 0 (length (natural_widths t))) O z Hpos Hz Hbz).
    unfold columns, len in *. nia. }
  rewrite total_repeat_zero in Hwt.
  rewrite <- (level_widths_zero _ Hnn) in Hw.
  destruct (distribute_levels _ _ O 0 _ w Hpos ltac:(lia) Hw)
    as (i & r & Hi & Hr & ->).
  assert (Hav : 0 < _max_width t - overhead t).
  { unfold columns, len in *. lia. }
  exists i, r. split; [exact Hi|]. split; [|split].
  - destruct (Z.eq_dec r 0) as [->|Hne]; [|lia].
    pose proof (total_level_zero (natural_widths t) i Hnn) as Hz.
    unfold columns, len in *. lia.
  - rewrite Hshrink, <- (level_widths_zero _ Hnn). exact Hw.
  - lia.
Qed.


(** X10: when the content is wider than a budget that still leaves one
    character per column, [_compute_cols_width] stores widths that are
    level: for some level [r >= 1] and some column [i], every column
    before [i] gets its natural width capped at [r + 1], every other
    column its natural width capped at [r]; these widths and the
    decorations add up to exactly [max_width]. *)
Theorem budget_is_shared_level (t : UniTable) :
  t.(_width) = None ->
  t.(_max_width) <> 0 ->
  content_width t + overhead t > t.(_max_width) ->
  columns t + overhead t <= t.(_max_width) ->
  exists i r,
    (i < length (natural_widths t))%nat /\ 1 <= r
    /\ _compute_cols_width t
       = (Ok tt, set_width_field
                   (Some (level_widths i r (natural_widths t))) t)
    /\ total (level_widths i r (natural_widths t)) + overhead t
       = t.(_max_width).
Proof.
  intros Hnone Hnz Hgt Hle.
  destruct (fit_widths_levels t Hnz Hgt Hle) as (i & r & Hi & Hr & Hw & Ht).
  exists i, r. split; [exact Hi|]. split; [exact Hr|]. split; [|lia].
  unfold _compute_cols_width, bind, get, lift, modify, ret. simpl.
  rewrite Hnone, Hw. reflexivity.
Qed.

Lemma budget_is_shared_level_witness :
  exists i r,
    (i < length (natural_widths three_columns))%nat /\ 1 <= r
    /\ _compute_cols_width three_columns
       = (Ok tt, set_width_field
                   (Some (level_widths i r (natural_widths three_columns)))
                   three_columns)
    /\ total (level_widths i r (natural_widths three_columns))
       + overhead three_columns
       = three_columns.(_max_width).
Proof.
  apply (budget_is_shared_level three_columns).
  - reflexivity.
  - vm_compute. discriminate.
  - vm_compute. reflexivity.
  - vm_compute. discriminate.
Defined.

(** X11: under the same conditions the shrinking is fair: no column gets
    more than its natural width, a column whose content is not empty
    keeps at least one character, and a column that was cut below its
    natural width is at most one character narrower than any other
    column. *)
Theorem shrinking_is_fair (t : UniTable) :
  t.(_max_width) <> 0 ->
  content_width t + overhead t > t.(_max_width) ->
  columns t + overhead t <= t.(_max_width) ->
  exists w,
    fit_widths t = Ok w
    /\ length w = length (natural_widths t)
    /\ forall j m x,
         nth_error (natural_widths t) j = Some m ->
         nth_error w j = Some x ->
         x <= m
         /\ (1 <= m -> 1 <= x)
         /\ (x < m -> forall k y, nth_error w k = Some y -> y <= x + 1).
Proof.
  intros Hnz Hgt Hle.
  destruct (fit_widths_levels t Hnz Hgt Hle) as (i & r & Hi & Hr & Hw & _).
  exists (level_widths i r (natural_widths t)).
  split; [exact Hw|]. split.
  { clear. generalize i. induction (natural_widths t) as [|m l IH];
      intros i0; simpl; [reflexivity|]. rewrite IH. reflexivity. }
  intros j m x Hm Hx. rewrite nth_level_widths, Hm in Hx.
  cbn [option_map] in Hx. inversion Hx as [Ex]. clear Hx.
  split; [lia|]. split; [destruct (j <? i)%nat; lia|].
  intros Hcut k y Hy. rewrite nth_level_widths in Hy.
  destruct (nth_error (natural_widths t) k) as [mk|]; [|discriminate].
  cbn [option_map] in Hy. inversion Hy as [Ey]. clear Hy.
  rewrite Ex. destruct (j <? i)%nat, (k <? i)%nat; lia.
Qed.

Lemma shrinking_is_fair_witness :
  exists w,
    fit_widths three_columns = Ok w
    /\ length w = length (natural_widths three_columns)
    /\ forall j m x,
         nth_error (natural_widths three_columns) j = Some m ->
         nth_error w j = Some x ->
         x <= m
         /\ (1 <= m -> 1 <= x)
         /\ (x < m -> forall k y, nth_error w k = Some y -> y <= x + 1).
Proof.
  apply (shrinking_is_fair three_columns).
  - vm_compute. discriminate.
  - vm_compute. reflexivity.
  - vm_compute. discriminate.
Defined.


(** ** The repair of escape sequences over a whole row *)

Lemma process_cells_cons (u : str) (lines : list str)
  (rest : list (list str)) :
  process_cells u (lines :: rest)
  = fst (process_cell u lines)
      :: process_cells (snd (process_cell u lines)) rest.
Proof.
  cbn [process_cells]. destruct (process_cell u lines). reflexivity.
Qed.

Lemma process_cell_related (R : str -> str -> Prop) :
  (forall u l, carried u -> R l (fst (process_line u l))) ->
  forall lines u, carried u -> Forall2 R lines (fst (process_cell u lines)).
Proof.
  intros HR lines. induction lines as [|l lines IH]; intros u Hu.
  - constructor.
  - rewrite process_cell_cons. cbn [fst]. constructor.
    + apply HR. exact Hu.
    + apply IH. apply process_line_carried. exact Hu.
Qed.

Lemma process_cells_related (R : str -> str -> Prop) :
  (forall u l, carried u -> R l (fst (process_line u l))) ->
  forall rows u, carried u ->
                 Forall2 (Forall2 R) rows (process_cells u rows).
Proof.
  intros HR rows. induction rows as [|c rows IH]; intros u Hu.
  - constructor.
  - rewrite process_cells_cons. constructor.
    + apply process_cell_related; assumption.
    + apply IH. apply process_cell_carried. exact Hu.
Qed.

(** X12: [_process_lines] keeps the shape of the row (as many cells, as
    many lines in each cell), and every line keeps its visible text and
    its visible width: only escape sequences are added. *)
Theorem row_repair_keeps_text (lines_2d : list (list str)) :
  Forall2 (Forall2 (fun l l' => ansi_escape_sub l' = ansi_escape_sub l
                                /\ vislen l' = vislen l))
    lines_2d (_process_lines lines_2d).
Proof.
  unfold _process_lines. apply process_cells_related; [|apply carried_nil].
  intros u l Hu.
  destruct (process_line_spec u l Hu) as (sel & closing & Hp & _ & _ & _ & Hs).
  rewrite Hp. cbn [fst]. split; [exact Hs|].
  unfold vislen, StringLengthCalculator.len. rewrite Hs. reflexivity.
Qed.

Lemma process_line_plain (l : str) :
  Forall (fun c => c <> ESC) l -> process_line [] l = (l, []).
Proof.
  intros H. unfold process_line. cbn [app].
  pose proof (findall_plain l [] H) as Hf. rewrite app_nil_r in Hf.
  unfold findall_unterminated. rewrite Hf. reflexivity.
Qed.

Lemma process_cell_plain (lines : list str) :
  Forall (Forall (fun c => c <> ESC)) lines ->
  process_cell [] lines = (lines, []).
Proof.
  induction 1 as [|l lines Hl H IH]; [reflexivity|].
  rewrite process_cell_cons, (process_line_plain l Hl). cbn [fst snd].
  rewrite IH. reflexivity.
Qed.

(** X13: a row in which no line holds the escape character comes out of
    [_process_lines] unchanged. *)
Theorem plain_rows_untouched (lines_2d : list (list str)) :
  Forall (Forall (Forall (fun c => c <> ESC))) lines_2d ->
  _process_lines lines_2d = lines_2d.
Proof.
  unfold _process_lines.
  induction 1 as [|c rows Hc H IH]; [reflexivity|].
  rewrite process_cells_cons, (process_cell_plain c Hc). cbn [fst snd].
  rewrite IH. reflexivity.
Qed.

Lemma plain_rows_untouched_witness : _process_lines plain_row = plain_row.
Proof.
  apply (plain_rows_untouched plain_row).
  unfold plain_row. repeat constructor; discriminate.
Defined.

Lemma reset_ahead_closed (x : str) :
  Forall (fun c => c <> NL) x -> reset_ahead (x ++ ansi_norm) = true.
Proof.
  induction 1 as [|c x Hc H IH]; [reflexivity|].
  cbn [app reset_ahead]. rewrite IH.
  destruct (c =? NL) eqn:E; [apply Z.eqb_eq in E; contradiction|].
  apply orb_true_r.
Qed.

Lemma Forall_skipn {A} (P : A -> Prop) (n : nat) (l : list A) :
  Forall P l -> Forall P (skipn n l).
Proof.
  revert l. induction n as [|n IH]; intros l H; [exact H|].
  destruct l as [|x l]; [constructor|]. inversion H; subst.
  apply IH. assumption.
Qed.

(** Once the reset is appended, no sequence of the line is left open. *)
Lemma findall_closed (s : str) :
  Forall (fun c => c <> NL) s ->
  forall k, findall_from k (s ++ ansi_norm) = [].
Proof.
  induction 1 as [|c s Hc H IH]; intros k.
  - destruct k as [|[|[|[|k]]]]; reflexivity.
  - cbn [app findall_from]. destruct k as [|k]; [|apply IH].
    destruct (non_reset_not_followed_by_reset_match (c :: s ++ ansi_norm))
      as [n|] eqn:Hm; [|apply IH].
    exfalso. destruct s as [|b s].
    + unfold ansi_norm in Hm.
      cbn [app non_reset_not_followed_by_reset_match] in Hm.
      replace (ESC =? 91) with false in Hm by reflexivity.
      rewrite andb_false_r in Hm. cbn [andb] in Hm. discriminate.
    + cbn [app non_reset_not_followed_by_reset_match] in Hm.
      destruct ((c =? ESC) && (b =? 91)
                && negb (starts_with [48; 109] (s ++ ansi_norm)));
        [|discriminate].
      rewrite (csi_body_len_ESC s [91; 48; 109]
               : csi_body_len (s ++ ansi_norm) = csi_body_len s) in Hm.
      destruct (csi_body_len s) as [m|] eqn:Hb; [|discriminate].
      apply csi_body_len_bound in Hb.
      rewrite skipn_app in Hm.
      replace (m - length s)%nat with O in Hm by lia. cbn [skipn] in Hm.
      rewrite reset_ahead_closed in Hm; [discriminate|].
      apply Forall_skipn. inversion H; assumption.
Qed.

Lemma carried_no_NL (u : str) : carried u -> Forall (fun c => c <> NL) u.
Proof.
  intros (gs & -> & Hgs). induction Hgs as [|g gs Hg Hgs IH]; [constructor|].
  cbn [List.concat]. apply Forall_app. split; [|exact IH].
  apply Forall_forall. intros c Hin ->.
  pose proof (nonreset_csi_escape g Hg) as He. unfold escape_sequence in He.
  apply (ansi_escape_match_no_NL g (length g) He).
  rewrite firstn_all. exact Hin.
Qed.

Lemma process_line_closed (u l : str) :
  carried u -> Forall (fun c => c <> NL) l ->
  findall_unterminated (fst (process_line u l)) = [].
Proof.
  intros Hu Hl. unfold process_line.
  destruct (List.concat (findall_unterminated (u ++ l))) as [|c w] eqn:Hc;
    cbn [fst].
  - destruct (findall_unterminated (u ++ l)) as [|g fs] eqn:Hf;
      [reflexivity|].
    exfalso. apply (concat_nonempty (g :: fs) g); [left; reflexivity| |exact Hc].
    apply nonreset_csi_nonempty.
    pose proof (findall_groups (u ++ l) O) as Hg.
    unfold findall_unterminated in Hf. rewrite Hf in Hg.
    inversion Hg; assumption.
  - unfold findall_unterminated. apply findall_closed.
    apply Forall_app. split; [apply carried_no_NL; exact Hu | exact Hl].
Qed.

(** X14: when no line of the row holds a newline (as for the lines
    [_splitit] produces), no line that comes out of [_process_lines]
    leaves a colour or style open: the pattern for sequences that are
    not followed by a reset finds nothing in it. *)
Theorem repaired_lines_are_closed (lines_2d : list (list str)) :
  Forall (Forall (Forall (fun c => c <> NL))) lines_2d ->
  Forall (Forall (fun l' => findall_unterminated l' = []))
    (_process_lines lines_2d).
Proof.
  intros Hnl.
  assert (HR : Forall2 (Forall2 (fun l l' =>
                 Forall (fun c => c <> NL) l -> findall_unterminated l' = []))
                 lines_2d (_process_lines lines_2d)).
  { unfold _process_lines. apply process_cells_related; [|apply carried_nil].
    intros u l Hu Hl. apply process_line_closed; assumption. }
  revert Hnl. induction HR as [|c c' rows rows' Hc HR IH]; intros Hnl;
    [constructor|].
  inversion Hnl as [|? ? Hcl Hrl]; subst. constructor; [|apply IH; exact Hrl].
  clear - Hc Hcl. induction Hc as [|l l' ls ls' Hl Hc IH]; [constructor|].
  inversion Hcl; subst. constructor; [apply Hl; assumption|].
  apply IH. assumption.
Qed.

Lemma repaired_lines_are_closed_witness :
  Forall (Forall (fun l' => findall_unterminated l' = []))
    (_process_lines red_row).
Proof.
  apply (repaired_lines_are_closed red_row).
  unfold red_row. repeat constructor; discriminate.
Defined.


(** ** Cell formatting *)

Lemma _check_row_size_fits {A} (array : list A) (t : UniTable) (r : Z) :
  well_shaped t r -> len array = r -> _check_row_size array t = (Ok tt, t).
Proof.
  intros H Hl. rewrite _check_row_size_spec.
  assert (Hu : row_size_unset t = false).
  { unfold row_size_unset. rewrite (ws_row_size _ _ H).
    apply Z.eqb_neq. pose proof (ws_positive _ _ H). lia. }
  rewrite Hu, (ws_row_size _ _ H), Hl, Z.eqb_refl. reflexivity.
Qed.

(** What [add_row] does once the row has the arity of the table. *)
Lemma add_row_fits (array : list str) (t : UniTable) (r : Z) :
  well_shaped t r -> len array = r ->
  exists t1,
    (t1 = t \/ (t.(_dtype) = None
                /\ t1 = set_dtype_field (Some (repeat 97 (Z.to_nat r))) t))
    /\ (exists d, t1.(_dtype) = Some d /\ len d = r
                  /\ (t.(_dtype) = None -> d = repeat 97 (Z.to_nat r)))
    /\ add_row array t
       = match format_cells O array t1 with
         | (Ok cells, t2) =>
             (Ok tt, set_rows_field (t2.(_rows) ++ [cells]) t2)
         | (Raise e, t2) => (Raise e, t2)
         end.
Proof.
  intros H Hl. unfold add_row.
  rewrite (bind_ok _ _ t t tt (_check_row_size_fits array t r H Hl)).
  unfold bind at 1. unfold get. cbn [fst snd].
  rewrite (ws_row_size _ _ H).
  destruct (_dtype t) as [d|] eqn:Ed.
  - exists t. split; [left; reflexivity|]. split.
    + exists d. split; [exact Ed|]. split; [|discriminate].
      pose proof (ws_dtype _ _ H) as Hd. rewrite Ed in Hd. exact Hd.
    + unfold bind, ret, modify.
      destruct (format_cells O array t) as [[cells|e] t2]; reflexivity.
  - exists (set_dtype_field (Some (repeat 97 (Z.to_nat r))) t).
    split; [right; split; reflexivity|]. split.
    + exists (repeat 97 (Z.to_nat r)). split; [destruct t; reflexivity|].
      split; [|reflexivity]. unfold len. rewrite repeat_length.
      pose proof (ws_positive _ _ H). lia.
    + unfold bind, ret, modify.
      destruct (format_cells O array
                  (set_dtype_field (Some (repeat 97 (Z.to_nat r))) t))
        as [[cells|e] t2]; reflexivity.
Qed.

Lemma format_map_textual (c : char) (f : str -> result str) (x : str) :
  format_map c = Some f -> textual x ->
  f x = Ok x \/ f x = Raise FallbackToText.
Proof.
  unfold format_map, textual. intros Hf Hx.
  repeat match type of Hf with
         | (if ?b then _ else _) = _ => destruct b
         end;
    inversion Hf; subst f;
    unfold _fmt_auto, _fmt_int, _fmt_comma_int, _fmt_float, _fmt_exp,
      _fmt_needs_float, _fmt_text, obj2unicode;
    rewrite ?Hx; auto.
Qed.

Lemma _str_textual (t : UniTable) (d : list char) (i : nat) (c : char)
  (x : str) :
  t.(_dtype) = Some d -> nth_error d i = Some c -> format_map c <> None ->
  textual x -> _str i x t = (Ok x, t).
Proof.
  intros Hd Hi Hc Hx. unfold _str, bind, get. cbn [fst snd].
  rewrite Hd, Hi. destruct (format_map c) as [f|] eqn:Hf; [|contradiction].
  destruct (format_map_textual c f x Hf Hx) as [-> | ->]; reflexivity.
Qed.

Lemma format_cells_textual (t : UniTable) (d : list char) (array : list str) :
  t.(_dtype) = Some d -> Forall (fun c => format_map c <> None) d ->
  Forall textual array ->
  forall i, (i + length array <= length d)%nat ->
            format_cells i array t = (Ok array, t).
Proof.
  intros Hd Hk Harr. induction Harr as [|x rest Hx Hrest IH]; intros i Hi.
  - reflexivity.
  - rewrite format_cells_cons.
    destruct (nth_error d i) as [c|] eqn:Hc;
      [|apply nth_error_None in Hc; simpl in Hi; lia].
    assert (Hkc : format_map c <> None).
    { rewrite Forall_forall in Hk. apply Hk. eapply nth_error_In. exact Hc. }
    rewrite (_str_textual t d i c x Hd Hc Hkc Hx).
    rewrite (IH (S i)) by (simpl in Hi; lia). reflexivity.
Qed.

(** X15: a row of the right arity whose cells [float] rejects (texts of
    ASCII characters and blanks that, blanks stripped, are not of the
    form of a literal, such as words and empty cells, and texts with a
    character between U+0080 and U+065F other than a blank) is stored
    exactly as given, whatever the known column types are; the header is
    not touched. *)
Theorem text_cells_stored_verbatim (t : UniTable) (r : Z) (array : list str) :
  well_shaped t r -> known_dtypes t -> len array = r ->
  Forall textual array ->
  eval (add_row array) t = Ok tt
  /\ (exec (add_row array) t).(_rows) = t.(_rows) ++ [array]
  /\ (exec (add_row array) t).(_header) = t.(_header).
Proof.
  intros H Hk Hl Hx.
  destruct (add_row_fits array t r H Hl)
    as (t1 & Ht1 & (d & Hd & Hdl & Hdef) & Heq).
  assert (Hkd : Forall (fun c => format_map c <> None) d).
  { destruct Ht1 as [-> | [Hnone ->]].
    - apply Hk. exact Hd.
    - rewrite (Hdef Hnone). clear. induction (Z.to_nat r); constructor;
        [discriminate | assumption]. }
  rewrite (format_cells_textual t1 d array Hd Hkd Hx O) in Heq
    by (unfold len in *; lia).
  unfold eval, exec. rewrite Heq. cbn [fst snd].
  destruct Ht1 as [-> | [_ ->]]; destruct t; repeat split; reflexivity.
Qed.

Lemma text_cells_stored_verbatim_witness :
  eval (add_row [s2l "brown"; s2l "Name 1"]) two_columns = Ok tt
  /\ (exec (add_row [s2l "brown"; s2l "Name 1"]) two_columns).(_rows)
     = two_columns.(_rows) ++ [[s2l "brown"; s2l "Name 1"]]
  /\ (exec (add_row [s2l "brown"; s2l "Name 1"]) two_columns).(_header)
     = two_columns.(_header).
Proof.
  apply (text_cells_stored_verbatim two_columns 2).
  - exact two_columns_shaped.
  - intros d Hd. discriminate Hd.
  - reflexivity.
  - repeat constructor.
Defined.

(** X16: [set_cols_dtype] accepts a letter that names no format; the
    error comes later: the next [add_row] of the right arity raises
    KeyError at the first cell and stores nothing. *)
Theorem unknown_dtype_fails_late (t : UniTable) (r : Z) (c : char)
  (ds : list char) (x : str) (xs : list str) :
  well_shaped t r -> format_map c = None ->
  len (c :: ds) = r -> len (x :: xs) = r ->
  set_cols_dtype (c :: ds) t
  = (Ok tt, set_dtype_field (Some (c :: ds)) t)
  /\ add_row (x :: xs) (set_dtype_field (Some (c :: ds)) t)
     = (Raise KeyError, set_dtype_field (Some (c :: ds)) t).
Proof.
  intros H Hc Hd Hx. split.
  - unfold set_cols_dtype.
    rewrite (bind_ok _ _ t t tt (_check_row_size_fits (c :: ds) t r H Hd)).
    reflexivity.
  - set (t' := set_dtype_field (Some (c :: ds)) t).
    assert (H' : well_shaped t' r).
    { subst t'. clear - H Hd. destruct t. shape_fields H. }
    destruct (add_row_fits (x :: xs) t' r H' Hx)
      as (t1 & Ht1 & _ & Heq).
    assert (Hdt : _dtype t' = Some (c :: ds)) by (destruct t; reflexivity).
    destruct Ht1 as [-> | [Hnone _]]; [|rewrite Hdt in Hnone; discriminate].
    rewrite Heq, format_cells_cons.
    unfold _str, bind, get, raise. cbn [fst snd].
    rewrite Hdt. cbn [nth_error]. rewrite Hc. reflexivity.
Qed.

Lemma unknown_dtype_fails_late_witness :
  set_cols_dtype (s2l "xt") two_columns
  = (Ok tt, set_dtype_field (Some (s2l "xt")) two_columns)
  /\ add_row [s2l "1"; s2l "2"]
       (set_dtype_field (Some (s2l "xt")) two_columns)
     = (Raise KeyError, set_dtype_field (Some (s2l "xt")) two_columns).
Proof.
  apply (unknown_dtype_fails_late two_columns 2).
  - exact two_columns_shaped.
  - reflexivity.
  - reflexivity.
  - reflexivity.
Defined.


(** ** The colour-aware wrapper *)

Lemma split_ws_aux_sep (c : char) (a b cur : str) :
  py_isspace c = true ->
  split_ws_aux cur (a ++ c :: b) = split_ws_aux cur a ++ split_ws b.
Proof.
  intros Hc. revert cur. induction a as [|x a IH]; intros cur.
  - cbn [app split_ws_aux]. rewrite Hc. destruct cur; reflexivity.
  - cbn [app split_ws_aux]. destruct (py_isspace x).
    + destruct cur; rewrite IH; reflexivity.
    + apply IH.
Qed.

Lemma split_ws_join (c : char) (ps : list str) :
  py_isspace c = true ->
  split_ws (join [c] ps) = List.concat (map split_ws ps).
Proof.
  intros Hc. induction ps as [|p rest IH]; [reflexivity|].
  destruct rest as [|q rest].
  - cbn [join map List.concat]. rewrite app_nil_r. reflexivity.
  - change (join [c] (p :: q :: rest)) with (p ++ c :: join [c] (q :: rest)).
    unfold split_ws at 1. rewrite (split_ws_aux_sep c p _ [] Hc), IH.
    reflexivity.
Qed.

Lemma split_ws_aux_word (p cur : str) :
  Forall (fun c => py_isspace c = false) p -> cur <> [] \/ p <> [] ->
  split_ws_aux cur p = [rev cur ++ p].
Proof.
  intros Hp. revert cur. induction Hp as [|x p Hx Hp IH]; intros cur Hne.
  - destruct Hne as [Hne|Hne]; [|contradiction].
    rewrite app_nil_r. destruct cur; [contradiction | reflexivity].
  - cbn [split_ws_aux]. rewrite Hx, IH by (left; discriminate).
    cbn [rev]. rewrite <- app_assoc. reflexivity.
Qed.

Lemma split_ws_word (p : str) : word p -> split_ws p = [p].
Proof.
  intros [Hne Hp]. unfold split_ws.
  rewrite (split_ws_aux_word p [] Hp) by (right; exact Hne). reflexivity.
Qed.

Lemma split_ws_words (line : list str) :
  Forall word line -> List.concat (map split_ws line) = line.
Proof.
  induction 1 as [|p line Hp H IH]; [reflexivity|].
  cbn [map List.concat]. rewrite (split_ws_word p Hp), IH. reflexivity.
Qed.

Lemma split_ws_line (line : list str) :
  Forall word line -> split_ws (join [SP] line) = line.
Proof.
  intros H. rewrite split_ws_join by reflexivity. apply split_ws_words, H.
Qed.

Lemma split_ws_aux_are_words (s cur : str) :
  Forall (fun c => py_isspace c = false) cur ->
  Forall word (split_ws_aux cur s).
Proof.
  revert cur. induction s as [|c s IH]; intros cur Hcur.
  - cbn [split_ws_aux]. destruct cur as [|x cur]; [constructor|].
    constructor; [|constructor]. split.
    + cbn [rev]. destruct (rev cur); discriminate.
    + apply Forall_rev. exact Hcur.
  - cbn [split_ws_aux]. destruct (py_isspace c) eqn:Ec.
    + destruct cur as [|x cur]; [apply IH; constructor|].
      constructor; [|apply IH; constructor]. split.
      * cbn [rev]. destruct (rev cur); discriminate.
      * apply Forall_rev. exact Hcur.
    + apply IH. constructor; assumption.
Qed.

Lemma split_ws_are_words (s : str) : Forall word (split_ws s).
Proof. apply split_ws_aux_are_words. constructor. Qed.

Lemma wrap_loop_words (width : Z) (words : list str) :
  Forall word words ->
  forall line result,
    Forall word line ->
    Forall word (fst (ColorAwareWrapper.wrap_loop width line result words))
    /\ List.concat
         (map split_ws
            (snd (ColorAwareWrapper.wrap_loop width line result words)))
       ++ fst (ColorAwareWrapper.wrap_loop width line result words)
       = List.concat (map split_ws result) ++ line ++ words.
Proof.
  induction 1 as [|w words Hw Hws IH]; intros line result Hl.
  - cbn [ColorAwareWrapper.wrap_loop fst snd]. rewrite app_nil_r. auto.
  - cbn [ColorAwareWrapper.wrap_loop]. cbv zeta.
    destruct (width <? StringLengthCalculator.len (join [SP] line)
                       + StringLengthCalculator.len w
                       + Z.of_nat (length line)).
    + destruct (IH [w] (result ++ [join [SP] line])) as [H1 H2];
        [constructor; [exact Hw | constructor]|].
      split; [exact H1|]. rewrite H2, map_app, concat_app.
      cbn [map List.concat]. rewrite app_nil_r, (split_ws_line line Hl).
      rewrite <- app_assoc. reflexivity.
    + destruct (IH (line ++ [w]) result) as [H1 H2].
      { apply Forall_app. split; [exact Hl|]. constructor; [exact Hw|constructor]. }
      split; [exact H1|]. rewrite H2, <- app_assoc. reflexivity.
Qed.

(** The lines [wrap] joins. *)
Lemma wrap_lines (text : str) (width : Z) :
  ColorAwareWrapper.wrap text width
  = join [NL]
      (match fst (ColorAwareWrapper.wrap_loop width [] [] (split_ws text)) with
       | [] => snd (ColorAwareWrapper.wrap_loop width [] [] (split_ws text))
       | _ => snd (ColorAwareWrapper.wrap_loop width [] [] (split_ws text))
              ++ [join [SP]
                    (fst (ColorAwareWrapper.wrap_loop width [] []
                            (split_ws text)))]
       end).
Proof.
  unfold ColorAwareWrapper.wrap.
  destruct (ColorAwareWrapper.wrap_loop width [] [] (split_ws text)).
  reflexivity.
Qed.

(** X17: [ColorAwareWrapper.wrap] only changes the blanks: whatever the
    width, the wrapped text holds the words of the input, in the same
    order. *)
Theorem wrap_keeps_the_words (text : str) (width : Z) :
  split_ws (ColorAwareWrapper.wrap text width) = split_ws text.
Proof.
  rewrite wrap_lines.
  destruct (wrap_loop_words width (split_ws text) (split_ws_are_words text)
              [] [] ltac:(constructor)) as [Hl Heq].
  cbn [map List.concat app] in Heq.
  rewrite split_ws_join by reflexivity.
  destruct (fst (ColorAwareWrapper.wrap_loop width [] [] (split_ws text)))
    as [|w line] eqn:El.
  - rewrite app_nil_r in Heq. exact Heq.
  - rewrite map_app, concat_app. cbn [map List.concat].
    rewrite app_nil_r, (split_ws_line _ Hl). exact Heq.
Qed.

Lemma row_width_snoc (sep w x : Z) (ws : list Z) :
  row_width sep ((w :: ws) ++ [x]) = row_width sep (w :: ws) + sep + x.
Proof.
  revert w. induction ws as [|y ws IH]; intros w.
  - cbn [app row_width]. lia.
  - change (row_width sep ((w :: y :: ws) ++ [x]))
      with (w + sep + row_width sep ((y :: ws) ++ [x])).
    rewrite IH.
    change (row_width sep (w :: y :: ws))
      with (w + sep + row_width sep (y :: ws)). lia.
Qed.

Lemma measures_line (line : list str) :
  Forall regular line ->
  measures (join [SP] line) (row_width 1 (map vislen line)).
Proof.
  intros H. apply measures_join; [apply measures_space|].
  induction H as [|w line Hw H IH]; constructor;
    [apply measures_self; exact Hw | exact IH].
Qed.

Lemma wrap_loop_fits (width : Z) (words : list str) :
  Forall word words -> Forall regular words ->
  forall line result,
    Forall word line -> Forall regular line ->
    ((2 <= length line)%nat -> vislen (join [SP] line) <= width) ->
    Forall (fun l => regular l
                     /\ ((2 <= length (split_ws l))%nat -> vislen l <= width))
      result ->
    let out := ColorAwareWrapper.wrap_loop width line result words in
    Forall word (fst out) /\ Forall regular (fst out)
    /\ ((2 <= length (fst out))%nat -> vislen (join [SP] (fst out)) <= width)
    /\ Forall (fun l => regular l
                        /\ ((2 <= length (split_ws l))%nat
                            -> vislen l <= width))
         (snd out).
Proof.
  intros Hws Hvs. revert Hvs.
  induction Hws as [|w words Hw Hws IH]; intros Hvs line result Hl Hv Hfit Hres.
  - cbn [ColorAwareWrapper.wrap_loop fst snd]. auto.
  - inversion Hvs as [|? ? Hvw Hvs']; subst.
    cbn [ColorAwareWrapper.wrap_loop]. cbv zeta.
    fold (vislen (join [SP] line)). fold (vislen w).
    destruct (width <? vislen (join [SP] line) + vislen w
                       + Z.of_nat (length line)) eqn:E.
    + apply (IH Hvs' [w] (result ++ [join [SP] line])).
      * constructor; [exact Hw | constructor].
      * constructor; [exact Hvw | constructor].
      * simpl. lia.
      * apply Forall_app. split; [exact Hres|].
        constructor; [|constructor]. split.
        -- apply (measures_line line Hv).
        -- rewrite (split_ws_line line Hl). exact Hfit.
    + apply Z.ltb_ge in E.
      assert (Hv' : Forall regular (line ++ [w])).
      { apply Forall_app. split; [exact Hv|].
        constructor; [exact Hvw | constructor]. }
      apply (IH Hvs' (line ++ [w]) result).
      * apply Forall_app. split; [exact Hl|].
        constructor; [exact Hw | constructor].
      * exact Hv'.
      * intros _. destruct line as [|x line]; [simpl in *; lia|].
        destruct (measures_line (x :: line) Hv) as [Rl El].
        destruct (measures_line ((x :: line) ++ [w]) Hv') as [_ El'].
        pose proof (regular_nonneg _ Rl) as Hn.
        rewrite El in E, Hn. rewrite El'.
        rewrite map_app. cbn [map]. rewrite row_width_snoc.
        cbn [map] in E, Hn. cbn [length] in E. lia.
      * exact Hres.
Qed.

Lemma split_on_join (lines : list str) :
  Forall (fun l => ~ In NL l) lines ->
  split_on NL (join [NL] lines)
  = match lines with [] => [[]] | _ => lines end.
Proof.
  induction 1 as [|l lines Hl H IH]; [reflexivity|].
  destruct lines as [|l2 lines].
  - apply split_on_no_NL. exact Hl.
  - change (join [NL] (l :: l2 :: lines))
      with (l ++ NL :: join [NL] (l2 :: lines)).
    rewrite (split_on_line l _ Hl), IH. reflexivity.
Qed.

(** X18: when every word of the text is regular (its escape sequences
    removed, it holds only characters that the display width counts one
    by one), every line of the text [ColorAwareWrapper.wrap] returns is
    regular, and every line that holds two words or more is at most
    [width] wide; only a line made of one word can be wider. *)
Theorem wrapped_lines_fit (text : str) (width : Z) :
  Forall regular (split_ws text) ->
  Forall (fun l => regular l
                   /\ ((2 <= length (split_ws l))%nat -> vislen l <= width))
    (split_on NL (ColorAwareWrapper.wrap text width)).
Proof.
  intros Hv. rewrite wrap_lines.
  destruct (wrap_loop_fits width (split_ws text) (split_ws_are_words text) Hv
              [] [] ltac:(constructor) ltac:(constructor)
              ltac:(simpl; lia) ltac:(constructor))
    as (Hl & Hlv & Hfit & Hres).
  set (out := ColorAwareWrapper.wrap_loop width [] [] (split_ws text)) in *.
  assert (Hall : Forall (fun l => regular l
                   /\ ((2 <= length (split_ws l))%nat -> vislen l <= width))
                   (match fst out with
                    | [] => snd out
                    | _ => snd out ++ [join [SP] (fst out)]
                    end)).
  { destruct (fst out) as [|w line] eqn:El; [exact Hres|].
    apply Forall_app. split; [exact Hres|]. constructor; [|constructor].
    split; [apply (measures_line _ Hlv)|].
    rewrite (split_ws_line _ Hl). exact Hfit. }
  rewrite split_on_join.
  - destruct (match fst out with
              | [] => snd out
              | _ => snd out ++ [join [SP] (fst out)]
              end) as [|l ls].
    + constructor; [|constructor].
      split; [apply regular_nil | simpl; lia].
    + exact Hall.
  - eapply Forall_impl; [|exact Hall]. intros a [Ha _].
    apply vislen_nonneg_no_NL, regular_nonneg, Ha.
Qed.

Lemma wrapped_lines_fit_witness :
  Forall (fun l => regular l
                   /\ ((2 <= length (split_ws l))%nat -> vislen l <= 5))
    (split_on NL (ColorAwareWrapper.wrap (s2l "ab cd ef") 5)).
Proof.
  apply (wrapped_lines_fit (s2l "ab cd ef") 5).
  assert (E : split_ws (s2l "ab cd ef") = [s2l "ab"; s2l "cd"; s2l "ef"])
    by reflexivity.
  rewrite E. repeat constructor.
Defined.

(** ** Cutting a list into rows *)

Lemma chunk_at_step {A} (l : list A) (n i : nat) :
  chunk_at l n (S i) = chunk_at (skipn n l) n i.
Proof.
  unfold chunk_at. rewrite skipn_skipn.
  replace (S i * n)%nat with (i * n + n)%nat by lia.
  f_equal. lia.
Qed.

Lemma chunks_step {A} (l : list A) (n k : nat) :
  map (chunk_at l n) (seq 0 (S k))
  = firstn n l :: map (chunk_at (skipn n l) n) (seq 0 k).
Proof.
  cbn [seq map]. f_equal.
  - unfold chunk_at. cbn [Nat.mul skipn]. f_equal. lia.
  - rewrite <- seq_shift, map_map. apply map_ext. intros i.
    apply chunk_at_step.
Qed.

(** The slices cover the list: all of them are full except possibly the
    last one, which is not empty. *)
Lemma chunks_cover {A} (n : nat) (k : nat) :
  (0 < n)%nat ->
  forall l : list A,
    (k * n < length l <= S k * n)%nat ->
    exists init lastc,
      map (chunk_at l n) (seq 0 (S k)) = init ++ [lastc]
      /\ length init = k
      /\ Forall (fun c => length c = n) init
      /\ List.concat init ++ lastc = l
      /\ (0 < length lastc <= n)%nat.
Proof.
  intros Hn. induction k as [|k IH]; intros l Hl.
  - exists [], l. cbn [seq map app List.concat].
    split; [|split; [reflexivity | split; [constructor | split; [reflexivity | lia]]]].
    unfold chunk_at. cbn [Nat.mul skipn]. f_equal.
    apply firstn_all2. lia.
  - rewrite chunks_step.
    destruct (IH (skipn n l)) as (init & lastc & He & Hk & Hi & Hc & Hlast).
    { rewrite length_skipn. lia. }
    exists (firstn n l :: init), lastc. rewrite He.
    split; [reflexivity|]. split; [simpl; lia|]. split.
    + constructor; [|exact Hi]. rewrite length_firstn. lia.
    + split; [|exact Hlast]. cbn [List.concat]. rewrite <- app_assoc, Hc.
      apply firstn_skipn.
Qed.

(** X19: for a positive [split_length] and a list that is not empty,
    [split_list] returns chunks that all have [split_length] elements;
    put end to end they are the input followed by fewer than
    [split_length] copies of the fill value; there are
    ceil(len / split_length) of them. *)
Theorem split_list_chunks {A} (input_list : list A) (split_length : Z)
  (fill_value : A) :
  0 < split_length -> input_list <> [] ->
  exists chunks pad,
    split_list input_list split_length fill_value = Chunks chunks
    /\ Forall (fun c => len c = split_length) chunks
    /\ List.concat chunks = input_list ++ repeat fill_value pad
    /\ (pad < Z.to_nat split_length)%nat
    /\ len chunks = (len input_list + split_length - 1) / split_length.
Proof.
  intros Hn Hne. unfold split_list.
  destruct (split_length =? 0) eqn:E0; [apply Z.eqb_eq in E0; lia|].
  destruct (split_length <? 0) eqn:E1; [apply Z.ltb_lt in E1; lia|].
  cbv zeta.
  set (n := Z.to_nat split_length).
  set (q := (len input_list + split_length - 1) / split_length).
  assert (HL : 0 < len input_list).
  { unfold len. destruct input_list; [contradiction | simpl; lia]. }
  assert (Hq : (q - 1) * split_length < len input_list <= q * split_length).
  { subst q.
    pose proof (Z.div_mod (len input_list + split_length - 1) split_length
                  ltac:(lia)) as Hdm.
    pose proof (Z.mod_pos_bound (len input_list + split_length - 1)
                  split_length Hn) as Hmb.
    nia. }
  assert (Hq1 : 1 <= q) by nia.
  destruct (Z.to_nat q) as [|k] eqn:Ek; [lia|].
  destruct (chunks_cover n k ltac:(lia) input_list)
    as (init & lastc & He & Hk & Hi & Hc & Hlast).
  { unfold len in Hq. subst n. nia. }
  rewrite He, rev_app_distr. cbn [rev app].
  exists (init ++ [lastc ++ repeat fill_value (n - length lastc)]),
         (n - length lastc)%nat.
  split.
  - unfold len.
    destruct (Z.of_nat (length lastc) <? split_length) eqn:El.
    + rewrite rev_involutive.
      replace (Z.to_nat (split_length - Z.of_nat (length lastc)))
        with (n - length lastc)%nat by (subst n; lia).
      reflexivity.
    + apply Z.ltb_ge in El. f_equal.
      replace (n - length lastc)%nat with O by (subst n; lia).
      cbn [repeat]. rewrite app_nil_r. reflexivity.
  - split; [|split; [|split]].
    + apply Forall_app. split.
      * eapply Forall_impl; [|exact Hi]. intros c Hcn. unfold len.
        rewrite Hcn. subst n. lia.
      * constructor; [|constructor]. unfold len.
        rewrite length_app, repeat_length. subst n. lia.
    + rewrite concat_app. cbn [List.concat]. rewrite app_nil_r.
      rewrite app_assoc, Hc. reflexivity.
    + subst n. lia.
    + unfold len. rewrite length_app. cbn [length]. lia.
Qed.

Lemma split_list_chunks_witness :
  exists chunks pad,
    split_list [1; 2; 3; 4; 5; 6; 7; 8] 3 0 = Chunks chunks
    /\ Forall (fun c => len c = 3) chunks
    /\ List.concat chunks = [1; 2; 3; 4; 5; 6; 7; 8] ++ repeat 0 pad
    /\ (pad < Z.to_nat 3)%nat
    /\ len chunks = (len [1; 2; 3; 4; 5; 6; 7; 8] + 3 - 1) / 3.
Proof.
  apply (split_list_chunks [1; 2; 3; 4; 5; 6; 7; 8] 3 0).
  - lia.
  - discriminate.
Defined.

(** X20: the edges of [split_list]: an empty input does not give an empty
    list of chunks but the index error of [chunks[-1]], whatever the
    positive length; a length of zero is a division by zero, whatever the
    input. *)
Theorem split_list_edges {A} (input_list : list A) (split_length : Z)
  (fill_value : A) :
  (0 < split_length ->
   split_list [] split_length fill_value = ChunksIndexError)
  /\ split_list input_list 0 fill_value = ZeroDivisionError.
Proof.
  split; [|reflexivity]. intros Hn. unfold split_list.
  destruct (split_length =? 0) eqn:E0; [apply Z.eqb_eq in E0; lia|].
  destruct (split_length <? 0) eqn:E1; [apply Z.ltb_lt in E1; lia|].
  cbv zeta. unfold len. cbn [length].
  replace ((Z.of_nat 0 + split_length - 1) / split_length) with 0;
    [reflexivity|].
  symmetry. apply Z.div_small. lia.
Qed.


(** ** The decoration flags *)

Ltac same_fields H :=
  let H0 := fresh "H0" in
  destruct H as (H0 & Hv & Hh);
  pose proof (f_equal _has_border H0) as E_has_border;
  pose proof (f_equal _has_header H0) as E_has_header;
  pose proof (f_equal _row_size H0) as E_row_size;
  pose proof (f_equal _header H0) as E_header;
  pose proof (f_equal _rows H0) as E_rows;
  pose proof (f_equal _style H0) as E_style;
  pose proof (f_equal _max_width H0) as E_max_width;
  pose proof (f_equal _pad H0) as E_pad;
  pose proof (f_equal _char_ew H0) as E_ew;
  pose proof (f_equal _char_ns H0) as E_ns;
  pose proof (f_equal _char_se H0) as E_se;
  pose proof (f_equal _char_sw H0) as E_sw;
  pose proof (f_equal _char_ne H0) as E_ne;
  pose proof (f_equal _char_nw H0) as E_nw;
  pose proof (f_equal _char_nse H0) as E_nse;
  pose proof (f_equal _char_nsw H0) as E_nsw;
  pose proof (f_equal _char_sew H0) as E_sew;
  pose proof (f_equal _char_new H0) as E_new;
  pose proof (f_equal _char_nsew H0) as E_nsew;
  pose proof (f_equal _char_hew H0) as E_hew;
  pose proof (f_equal _char_hnse H0) as E_hnse;
  pose proof (f_equal _char_hnsw H0) as E_hnsw;
  pose proof (f_equal _char_hnsew H0) as E_hnsew;
  pose proof (f_equal _width H0) as E_width;
  pose proof (f_equal _header_align H0) as E_header_align;
  pose proof (f_equal _align H0) as E_align;
  pose proof (f_equal _valign H0) as E_valign;
  cbn in E_has_border, E_has_header, E_row_size, E_header, E_rows, E_style,
    E_max_width, E_pad, E_ew, E_ns, E_se, E_sw, E_ne, E_nw, E_nse, E_nsw,
    E_sew, E_new, E_nsew, E_hew, E_hnse, E_hnsw, E_hnsew, E_width,
    E_header_align, E_align, E_valign.

Ltac same_rw :=
  repeat match goal with
         | E : ?f ?a = ?f ?b |- _ => progress (rewrite E)
         end.

Lemma draw_cells_same (t1 t2 : UniTable) :
  same_lines t1 t2 ->
  forall isheader i ncells line length widths aligns,
    draw_cells t1 isheader i ncells length line widths aligns
    = draw_cells t2 isheader i ncells length line widths aligns.
Proof.
  intros H. same_fields H. intros isheader i ncells line.
  induction line as [|cell line IH]; intros length widths aligns;
    [reflexivity|].
  destruct widths as [|w widths]; [reflexivity|].
  destruct aligns as [|a aligns]; [reflexivity|].
  cbn [draw_cells]. cbv zeta. rewrite IH. same_rw. reflexivity.
Qed.

Lemma draw_physical_lines_same (t1 t2 : UniTable) :
  same_lines t1 t2 ->
  forall isheader line widths aligns rows,
    draw_physical_lines t1 isheader line widths aligns rows
    = draw_physical_lines t2 isheader line widths aligns rows.
Proof.
  intros H isheader line widths aligns rows.
  induction rows as [|i rows IH]; [reflexivity|].
  cbn [draw_physical_lines]. rewrite IH. unfold draw_physical_line.
  rewrite (draw_cells_same t1 t2 H). same_fields H. same_rw. reflexivity.
Qed.

Lemma _draw_line_same (t1 t2 : UniTable) :
  same_lines t1 t2 ->
  forall line isheader, _draw_line t1 line isheader = _draw_line t2 line isheader.
Proof.
  intros H line isheader. unfold _draw_line, _splitit, width_attr.
  assert (Hl : forall isheader line widths aligns rows,
             draw_physical_lines t1 isheader line widths aligns rows
             = draw_physical_lines t2 isheader line widths aligns rows)
    by (apply draw_physical_lines_same; exact H).
  same_fields H. same_rw.
  destruct (_width t2) as [w|]; [|reflexivity]. cbn [rbind].
  destruct (wrap_cells line w) as [lw|e]; [|reflexivity]. cbn [rbind].
  destruct (reduce_max (map len lw)) as [m|e]; [|reflexivity]. cbn [rbind].
  destruct (_valign t2) as [v|]; [|reflexivity]. cbn [rbind].
  destruct (valign_cells isheader m lw v) as [al|e]; [|reflexivity].
  cbn [rbind].
  destruct (index (_process_lines al) 0) as [first|e]; [|reflexivity].
  cbn [rbind].
  destruct (_align t2) as [a|]; [|reflexivity]. cbn [rbind].
  apply Hl.
Qed.

Lemma _build_hline_same (t1 t2 : UniTable) :
  same_lines t1 t2 ->
  forall is_header loc, _build_hline t1 is_header loc = _build_hline t2 is_header loc.
Proof.
  intros H is_header loc. unfold _build_hline, width_attr.
  same_fields H. same_rw. reflexivity.
Qed.

Lemma draw_rows_same (t1 t2 : UniTable) :
  same_lines t1 t2 ->
  forall rows num nrows, draw_rows t1 num nrows rows = draw_rows t2 num nrows rows.
Proof.
  intros H rows. induction rows as [|row rows IH]; intros num nrows;
    [reflexivity|].
  cbn [draw_rows]. cbv zeta.
  rewrite IH, (_draw_line_same t1 t2 H). unfold _hline.
  rewrite (_build_hline_same t1 t2 H).
  destruct H as (_ & _ & Hh). rewrite Hh. reflexivity.
Qed.

Lemma draw_body_same (t1 t2 : UniTable) :
  same_lines t1 t2 -> draw_body t1 = draw_body t2.
Proof.
  intros H. unfold draw_body, _hline, _hline_header.
  rewrite (draw_rows_same t1 t2 H).
  rewrite !(_build_hline_same t1 t2 H).
  rewrite (_draw_line_same t1 t2 H).
  same_fields H. same_rw. reflexivity.
Qed.

Lemma fit_widths_same (t1 t2 : UniTable) :
  same_lines t1 t2 -> fit_widths t1 = fit_widths t2.
Proof.
  intros H. unfold fit_widths, natural_widths, deco_width.
  same_fields H. same_rw. reflexivity.
Qed.

Lemma same_lines_set (f : UniTable -> UniTable) (t1 t2 : UniTable) :
  (forall t, _deco (f t) = _deco t) ->
  (forall t, set_deco_field 0 (f t) = f (set_deco_field 0 t)) ->
  same_lines t1 t2 -> same_lines (f t1) (f t2).
Proof.
  intros Hd Hc (H0 & Hv & Hh). unfold same_lines, has_vlines, has_hlines in *.
  rewrite !Hd, !Hc, H0. auto.
Qed.

Lemma agrees_bind {A B} (m : M A) (k : A -> M B) :
  agrees m -> (forall a, agrees (k a)) -> agrees (bind m k).
Proof.
  intros Hm Hk t1 t2 H. unfold bind.
  destruct (Hm t1 t2 H) as [Hr Hs].
  destruct (m t1) as [[a1|e1] s1], (m t2) as [[a2|e2] s2];
    cbn [fst snd] in *; try discriminate.
  - inversion Hr; subst. apply Hk. exact Hs.
  - inversion Hr; subst. split; [reflexivity | exact Hs].
Qed.

Lemma agrees_get {A} (k : UniTable -> M A) :
  (forall t1 t2, same_lines t1 t2 ->
     fst (k t1 t1) = fst (k t2 t2)
     /\ same_lines (snd (k t1 t1)) (snd (k t2 t2))) ->
  agrees (bind get k).
Proof. intros Hk t1 t2 H. unfold bind, get. apply Hk. exact H. Qed.

Lemma agrees__compute_cols_width : agrees _compute_cols_width.
Proof.
  apply agrees_get. intros t1 t2 H.
  pose proof (fit_widths_same t1 t2 H) as Hf.
  assert (Hw : _width t1 = _width t2) by (same_fields H; exact E_width).
  rewrite Hw, Hf. destruct (_width t2) as [w|]; [split; [reflexivity|exact H]|].
  unfold bind, lift, modify. destruct (fit_widths t2) as [w|e];
    cbn [fst snd]; [|split; [reflexivity | exact H]].
  split; [reflexivity|].
  apply (same_lines_set (set_width_field (Some w))); [| |exact H];
    intros t; destruct t; reflexivity.
Qed.

Lemma agrees_default_align (c : char)
  (f : option (list char) -> UniTable -> UniTable)
  (o : option (list char)) (rs : option Z) :
  (forall a t, _deco (f a t) = _deco t) ->
  (forall a t, set_deco_field 0 (f a t) = f a (set_deco_field 0 t)) ->
  agrees (match o with
          | Some _ => ret tt
          | None =>
              a <- lift (match rs with
                         | Some n => Ok (repeat c (Z.to_nat n))
                         | None => Raise TypeError
                         end) ;;
              modify (f (Some a))
          end).
Proof.
  intros Hd Hc t1 t2 H. destruct o; [split; [reflexivity | exact H]|].
  unfold bind, lift, modify. destruct rs as [n|]; cbn [fst snd];
    [|split; [reflexivity | exact H]].
  split; [reflexivity|]. apply same_lines_set; auto.
Qed.

Lemma agrees__check_align : agrees _check_align.
Proof.
  unfold _check_align. cbv zeta.
  apply agrees_get. intros t1 t2 H.
  assert (E1 : _header_align t1 = _header_align t2)
    by (same_fields H; exact E_header_align).
  assert (E2 : _row_size t1 = _row_size t2)
    by (same_fields H; exact E_row_size).
  rewrite E1, E2.
  refine (agrees_bind _ _ _ _ t1 t2 H);
    [apply agrees_default_align; intros a t; destruct t; reflexivity|].
  intros u1. clear. apply agrees_get. intros t1 t2 H.
  assert (E1 : _align t1 = _align t2) by (same_fields H; exact E_align).
  assert (E2 : _row_size t1 = _row_size t2)
    by (same_fields H; exact E_row_size).
  rewrite E1, E2.
  refine (agrees_bind _ _ _ _ t1 t2 H);
    [apply agrees_default_align; intros a t; destruct t; reflexivity|].
  intros u2. clear. apply agrees_get. intros t1 t2 H.
  assert (E1 : _valign t1 = _valign t2) by (same_fields H; exact E_valign).
  assert (E2 : _row_size t1 = _row_size t2)
    by (same_fields H; exact E_row_size).
  rewrite E1, E2.
  refine (agrees_default_align _ _ _ _ _ _ t1 t2 H);
    intros a t; destruct t; reflexivity.
Qed.

Lemma agrees_draw : agrees draw.
Proof.
  intros t1 t2 H. rewrite !draw_unfold.
  assert (E1 : _header t1 = _header t2) by (same_fields H; exact E_header).
  assert (E2 : _rows t1 = _rows t2) by (same_fields H; exact E_rows).
  rewrite E1, E2.
  assert (Hn : agrees draw_nonempty).
  { unfold draw_nonempty.
    apply agrees_bind; [apply agrees__compute_cols_width|]. intros u1.
    apply agrees_bind; [apply agrees__check_align|]. intros u2.
    apply agrees_get. intros s1 s2 Hs.
    unfold bind, lift, ret. rewrite (draw_body_same s1 s2 Hs).
    destruct (draw_body s2); cbn [fst snd]; split;
      try reflexivity; exact Hs. }
  destruct (_header t2), (_rows t2); try (apply Hn; exact H).
  split; [reflexivity | exact H].
Qed.

(** X21: [draw] reads the decoration flags only through [has_vlines] and
    [has_hlines]: two values given to [set_decorations] that agree on the
    VLINES and HLINES bits give the same rendering, so that the BORDER
    and HEADER bits change nothing (the border and the header line follow
    the attributes [has_border] and [has_header]). *)
Theorem border_and_header_flags_are_ignored (t : UniTable) (d d' : Z) :
  (Z.land d VLINES >? 0) = (Z.land d' VLINES >? 0) ->
  (Z.land d HLINES >? 0) = (Z.land d' HLINES >? 0) ->
  eval draw (exec (set_decorations d) t)
  = eval draw (exec (set_decorations d') t).
Proof.
  intros Hv Hh. unfold eval. apply agrees_draw.
  unfold same_lines, exec, set_decorations, modify, has_vlines, has_hlines.
  cbn [snd]. destruct t; cbn. auto.
Qed.

Lemma border_and_header_flags_are_ignored_witness :
  eval draw (exec (set_decorations
                     (Z.lor (Z.lor (Z.lor VLINES HLINES) BORDER) HEADER))
               two_columns)
  = eval draw (exec (set_decorations (Z.lor VLINES HLINES)) two_columns).
Proof.
  apply (border_and_header_flags_are_ignored two_columns); reflexivity.
Defined.


(** ** The natural widths *)

Lemma nth_error_list_set_eq {A} (l : list A) (i : nat) (v x : A) :
  nth_error l i = Some x -> nth_error (list_set i v l) i = Some v.
Proof.
  revert i. induction l as [|y l IH]; intros i H; destruct i; simpl in *;
    try discriminate; [reflexivity | apply IH; exact H].
Qed.

Lemma nth_error_list_set_neq {A} (l : list A) (i j : nat) (v : A) :
  i <> j -> nth_error (list_set i v l) j = nth_error l j.
Proof.
  revert i j. induction l as [|y l IH]; intros i j H.
  - destruct i; reflexivity.
  - destruct i, j; simpl; try reflexivity; [contradiction|].
    apply IH. intros ->. apply H. reflexivity.
Qed.

(** One cell never narrows a column and never removes one. *)
Lemma widen_step_grows (maxi : list Z) (i : nat) (x : Z) (j : nat) (m : Z) :
  nth_error maxi j = Some m ->
  exists m',
    nth_error (match nth_error maxi i with
               | Some m0 => list_set i (Z.max m0 x) maxi
               | None => maxi ++ [x]
               end) j = Some m'
    /\ m <= m'.
Proof.
  intros H. destruct (nth_error maxi i) as [m0|] eqn:Hi.
  - destruct (Nat.eq_dec i j) as [->|Hne].
    + rewrite (nth_error_list_set_eq _ _ _ _ Hi). rewrite H in Hi.
      inversion Hi; subst. eexists. split; [reflexivity | lia].
    + rewrite (nth_error_list_set_neq _ _ _ _ Hne). exists m.
      split; [exact H | lia].
  - exists m. split; [|lia]. rewrite nth_error_app1; [exact H|].
    apply nth_error_Some. rewrite H. discriminate.
Qed.

Lemma widen_by_row_grows (row : list str) :
  forall i maxi j m,
    nth_error maxi j = Some m ->
    exists m', nth_error (widen_by_row i row maxi) j = Some m' /\ m <= m'.
Proof.
  induction row as [|c row IH]; intros i maxi j m H.
  - exists m. split; [exact H | lia].
  - cbn [widen_by_row].
    destruct (widen_step_grows maxi i (_len_cell c) j m H) as (m1 & H1 & Hle).
    destruct (IH (S i) _ j m1 H1) as (m' & H' & Hle').
    exists m'. split; [exact H' | lia].
Qed.

Lemma widen_by_row_covers (row : list str) :
  forall i maxi,
    (i <= length maxi)%nat ->
    forall j cell,
      nth_error row j = Some cell ->
      exists m, nth_error (widen_by_row i row maxi) (i + j) = Some m
                /\ _len_cell cell <= m.
Proof.
  induction row as [|c row IH]; intros i maxi Hi j cell Hj.
  - destruct j; discriminate.
  - cbn [widen_by_row].
    set (maxi' := match nth_error maxi i with
                  | Some m0 => list_set i (Z.max m0 (_len_cell c)) maxi
                  | None => maxi ++ [_len_cell c]
                  end).
    assert (Hat : exists v, nth_error maxi' i = Some v /\ _len_cell c <= v).
    { subst maxi'. destruct (nth_error maxi i) as [m0|] eqn:E.
      - rewrite (nth_error_list_set_eq _ _ _ _ E). eexists.
        split; [reflexivity | lia].
      - apply nth_error_None in E. assert (i = length maxi) by lia. subst i.
        rewrite nth_error_app2, Nat.sub_diag by lia. eexists.
        split; [reflexivity | lia]. }
    destruct Hat as (v & Hv & Hle).
    assert (Hlen : (S i <= length maxi')%nat).
    { apply Nat.le_succ_l, nth_error_Some. rewrite Hv. discriminate. }
    destruct j as [|j].
    + simpl in Hj. inversion Hj; subst cell. rewrite Nat.add_0_r.
      destruct (widen_by_row_grows row (S i) maxi' i v Hv) as (m' & H' & Hle').
      exists m'. split; [exact H' | lia].
    + simpl in Hj. rewrite Nat.add_succ_r.
      exact (IH (S i) maxi' Hlen j cell Hj).
Qed.

Lemma widen_rows_grows (rows : list (list str)) :
  forall maxi j m,
    nth_error maxi j = Some m ->
    exists m',
      nth_error (fold_left (fun maxi row => widen_by_row O row maxi) rows maxi) j
      = Some m' /\ m <= m'.
Proof.
  induction rows as [|row rows IH]; intros maxi j m H.
  - exists m. split; [exact H | lia].
  - cbn [fold_left].
    destruct (widen_by_row_grows row O maxi j m H) as (m1 & H1 & Hle).
    destruct (IH _ j m1 H1) as (m' & H' & Hle').
    exists m'. split; [exact H' | lia].
Qed.

Lemma widen_rows_covers (rows : list (list str)) :
  forall maxi row j cell,
    In row rows -> nth_error row j = Some cell ->
    exists m,
      nth_error (fold_left (fun maxi row => widen_by_row O row maxi) rows maxi) j
      = Some m /\ _len_cell cell <= m.
Proof.
  induction rows as [|r rows IH]; intros maxi row j cell Hin Hj; [contradiction|].
  cbn [fold_left]. destruct Hin as [->|Hin].
  - destruct (widen_by_row_covers row O maxi ltac:(lia) j cell Hj)
      as (m1 & H1 & Hle).
    cbn [Nat.add] in H1.
    destruct (widen_rows_grows rows _ j m1 H1) as (m' & H' & Hle').
    exists m'. split; [exact H' | lia].
  - exact (IH _ row j cell Hin Hj).
Qed.

(** X22: the natural widths have a column for every cell of the header
    and of every row, also when the rows do not have the same number of
    cells, and the natural width of a column is at least the width
    [_len_cell] gives to each of its cells. *)
Theorem natural_widths_cover (t : UniTable) (row : list str) (j : nat)
  (cell : str) :
  row = t.(_header) \/ In row t.(_rows) ->
  nth_error row j = Some cell ->
  exists m, nth_error (natural_widths t) j = Some m /\ _len_cell cell <= m.
Proof.
  intros Hrow Hj. unfold natural_widths. destruct Hrow as [->|Hin].
  - destruct (_header t) as [|h hs] eqn:Eh; [destruct j; discriminate|].
    apply (widen_rows_grows (_rows t) _ j (_len_cell cell)).
    rewrite nth_error_map, Hj. reflexivity.
  - exact (widen_rows_covers (_rows t) _ row j cell Hin Hj).
Qed.

Lemma natural_widths_cover_witness :
  exists m, nth_error (natural_widths two_columns) 1 = Some m
            /\ _len_cell (s2l "b") <= m.
Proof.
  apply (natural_widths_cover two_columns [s2l "a"; s2l "b"] 1 (s2l "b")).
  - left. reflexivity.
  - reflexivity.
Defined.


(** ** Vertical alignment on the middle *)

Lemma wrap_cells_length (line : list str) :
  forall widths lw,
    wrap_cells line widths = Ok lw ->
    length lw = Nat.min (length line) (length widths).
Proof.
  induction line as [|cell line IH]; intros widths lw H.
  - simpl in H. inversion H. reflexivity.
  - destruct widths as [|w widths]; [simpl in H; inversion H; reflexivity|].
    cbn [wrap_cells] in H.
    destruct (rbind_ok _ _ _ H) as (array & _ & H1).
    destruct (rbind_ok _ _ _ H1) as (lw' & H2 & H3).
    inversion H3; subst. simpl. f_equal. apply IH. exact H2.
Qed.

Lemma valign_cells_middle (m : Z) (lw : list (list str)) :
  forall v j,
    nth_error v j = Some 109 -> (j < length lw)%nat ->
    valign_cells false m lw v = Raise TypeError.
Proof.
  induction lw as [|cell cells IH]; intros v j Hj Hlt; [simpl in Hlt; lia|].
  destruct v as [|a v]; [destruct j; discriminate|].
  cbn [valign_cells]. cbv zeta.
  destruct (a =? 109) eqn:Ea; [reflexivity|].
  destruct j as [|j].
  - simpl in Hj. inversion Hj; subst a. discriminate.
  - simpl in Hj. simpl in Hlt.
    rewrite (IH v j Hj) by lia. reflexivity.
Qed.

Lemma _splitit_middle (t : UniTable) (line : list str) (w : list Z)
  (v : list char) (j : nat) :
  t.(_width) = Some w -> t.(_valign) = Some v ->
  nth_error v j = Some 109 ->
  (j < length line)%nat -> (j < length w)%nat ->
  forall r, _splitit t line false <> Ok r.
Proof.
  intros Hw Hv Hj Hl Hlw r H. unfold _splitit, width_attr in H.
  rewrite Hw, Hv in H. cbn [rbind] in H.
  destruct (wrap_cells line w) as [lw|e] eqn:Ew; [|discriminate].
  cbn [rbind] in H. apply wrap_cells_length in Ew.
  destruct (reduce_max (map len lw)) as [mx|e]; [|discriminate].
  cbn [rbind] in H.
  rewrite (valign_cells_middle mx lw v j Hj) in H by lia.
  discriminate.
Qed.

Lemma draw_body_middle (t : UniTable) (row : list str)
  (rest : list (list str)) (w : list Z) (v : list char) (j : nat) :
  t.(_rows) = row :: rest ->
  t.(_width) = Some w -> t.(_valign) = Some v ->
  nth_error v j = Some 109 ->
  (j < length row)%nat -> (j < length w)%nat ->
  forall out, draw_body t <> Ok out.
Proof.
  intros Hr Hw Hv Hj Hl Hlw out H. unfold draw_body in H.
  destruct (rbind_ok _ _ _ H) as (top & _ & H1).
  destruct (rbind_ok _ _ _ H1) as (head & _ & H2).
  destruct (rbind_ok _ _ _ H2) as (body & H3 & _).
  rewrite Hr in H3. cbn [draw_rows] in H3.
  destruct (rbind_ok _ _ _ H3) as (l & H4 & _).
  unfold _draw_line in H4.
  destruct (rbind_ok _ _ _ H4) as (ln & H5 & _).
  exact (_splitit_middle t row w v j Hw Hv Hj Hl Hlw ln H5).
Qed.

Lemma _check_align_keeps_valign (t t' : UniTable) (u : unit) (v : list char) :
  _check_align t = (Ok u, t') -> t.(_valign) = Some v ->
  t'.(_valign) = Some v.
Proof.
  destruct t. unfold _check_align, bind, get, lift, modify, ret. simpl.
  destruct _header_align0, _align0, _valign0, _row_size0; simpl;
    intros H Hv; inversion H; subst; simpl; try exact Hv; discriminate.
Qed.

(** What a successful [draw] of a table that is not empty went through. *)
Lemma draw_nonempty_ok (t : UniTable) (o : option str) :
  fst (draw_nonempty t) = Ok o ->
  exists w out,
    (t.(_width) = Some w \/ (t.(_width) = None /\ fit_widths t = Ok w))
    /\ _check_align (set_width_field (Some w) t)
       = (Ok tt, snd (draw_nonempty t))
    /\ o = Some out
    /\ draw_body (snd (draw_nonempty t)) = Ok out.
Proof.
  unfold draw_nonempty.
  destruct (_compute_cols_width t) as [[u|e] t1] eqn:Hc.
  - rewrite (bind_ok _ _ _ _ _ Hc).
    assert (Ht1 : exists w,
               (t.(_width) = Some w
                \/ (t.(_width) = None /\ fit_widths t = Ok w))
               /\ t1 = set_width_field (Some w) t).
    { revert Hc. unfold _compute_cols_width, bind, get, lift, modify, ret.
      simpl. destruct (_width t) as [w|] eqn:Hw.
      - intros H. inversion H; subst. exists w. split; [left; reflexivity|].
        destruct t1; simpl in Hw; subst; reflexivity.
      - destruct (fit_widths t) as [w|e]; intros H; inversion H; subst.
        exists w. split; [right; split; reflexivity | reflexivity]. }
    destruct Ht1 as (w & Hw & ->).
    destruct (_check_align (set_width_field (Some w) t)) as [[u'|e] t2] eqn:Ha.
    + rewrite (bind_ok _ _ _ _ _ Ha). unfold bind, get, lift, ret. simpl.
      destruct (draw_body t2) as [out|e] eqn:Hb; simpl; intros H;
        inversion H; subst.
      exists w, out. destruct u'. auto.
    + rewrite (bind_raise _ _ _ _ _ Ha). discriminate.
  - rewrite (bind_raise _ _ _ _ _ Hc). discriminate.
Qed.

(** X23: vertical alignment on the middle cannot be drawn.  On a table
    that has a row and in which every row, the alignments and the stored
    widths have the arity of the table, as soon as one column is aligned
    with the letter m, [draw] raises instead of returning a rendering:
    the lines of the cell are measured with the string calculator, which
    fails on a list. *)
Theorem middle_valign_never_renders (t : UniTable) (r : Z) (v : list char) :
  well_shaped t r -> has_arity r t.(_width) ->
  t.(_rows) <> [] ->
  t.(_valign) = Some v -> In 109 v ->
  exists e, eval draw t = Raise e.
Proof.
  intros Hs Hwa Hrows Hv Hin.
  destruct (eval draw t) as [o|e] eqn:H; [exfalso | exists e; reflexivity].
  destruct (In_nth_error _ _ Hin) as (j & Hj).
  assert (Hjr : Z.of_nat j < r).
  { pose proof (ws_valign _ _ Hs) as Ha. rewrite Hv in Ha. simpl in Ha.
    unfold len in Ha. assert (j < length v)%nat; [|lia].
    apply (proj1 (nth_error_Some v j)). intros E.
    unfold char in *. rewrite Hj in E. discriminate. }
  destruct (_rows t) as [|row rest] eqn:Er; [contradiction|].
  assert (Hrow : len row = r).
  { pose proof (ws_rows _ _ Hs) as Hr. rewrite Er in Hr.
    inversion Hr; assumption. }
  unfold eval in H. rewrite draw_unfold, Er in H.
  assert (H' : fst (draw_nonempty t) = Ok o) by (destruct (_header t); exact H).
  clear H. destruct (draw_nonempty_ok t o H') as (w & out & Hw & Ha & -> & Hb).
  set (t' := snd (draw_nonempty t)) in *.
  destruct (_check_align_ok _ _ _ Ha) as (_ & Hw' & _ & Hr').
  assert (Hv' : _valign t' = Some v).
  { apply (_check_align_keeps_valign _ _ _ v Ha). destruct t; exact Hv. }
  assert (Hwt : _width t' = Some w) by (rewrite Hw'; destruct t; reflexivity).
  assert (Hrt : _rows t' = row :: rest)
    by (rewrite Hr'; destruct t; exact Er).
  apply (draw_body_middle t' row rest w v j Hrt Hwt Hv' Hj) with (out := out);
    [unfold len in Hrow; lia| |exact Hb].
  destruct Hw as [Hw|[Hnone Hfit]].
  - rewrite Hw in Hwa. simpl in Hwa. unfold len in Hwa. lia.
  - destruct (fit_widths_total t) as [(m & n & Hr)|(w0 & Hw0 & Hle & _)];
      [rewrite Hr in Hfit; discriminate|].
    rewrite Hw0 in Hfit. inversion Hfit; subst w0.
    rewrite (Forall2_length Hle).
    destruct (nth_error row j) as [cell|] eqn:Ec;
      [|apply nth_error_None in Ec; unfold len in Hrow; lia].
    destruct (widen_rows_covers (_rows t)
                (match _header t with
                 | [] => []
                 | _ => map _len_cell (_header t)
                 end) row j cell) as (m & Hm & _);
      [rewrite Er; left; reflexivity | exact Ec|].
    fold (natural_widths t) in Hm.
    apply (proj1 (nth_error_Some (natural_widths t) j)).
    rewrite Hm. discriminate.
Qed.

Lemma middle_valign_never_renders_witness :
  exists e, eval draw middle_table = Raise e.
Proof.
  apply (middle_valign_never_renders middle_table 2 (s2l "mt")).
  - assert (Hst : stable (fun t => well_shaped t 2)
                     (set_cols_valign (s2l "mt") ;;;
                      add_row [s2l "x"; s2l "y"])).
    { apply stable_bind.
      - apply (stable_shape_setter 2 (s2l "mt") set_valign_field).
        intros t Hl Ht. destruct t. shape_fields Ht.
      - intros u. apply stable_shape_add_row. }
    exact (Hst two_columns two_columns_shaped).
  - exact I.
  - discriminate.
  - reflexivity.
  - left. reflexivity.
Defined.


Lemma split_list_edges_witness :
  split_list ([] : list Z) 4 0 = ChunksIndexError
  /\ split_list [1; 2] 0 0 = ZeroDivisionError.
Proof.
  destruct (split_list_edges [1; 2] 4 0) as [H1 H2].
  split; [apply H1; lia | exact H2].
Defined.

(** ** Replacing the rows *)

(** X24: [set_rows] is not atomic.  When the first of the new rows does
    not have the arity of the table, the call raises the array size
    error, and the rows the table had are gone: the object is left with
    no row, the rest unchanged. *)
Theorem failed_set_rows_drops_the_rows (t : UniTable) (r : Z)
  (row : list str) (rest : list (list str)) (with_header : bool) :
  t.(_row_size) = Some r -> r <> 0 -> len row <> r ->
  set_rows (row :: rest) with_header t
  = (Raise (ArraySizeError [r] (len row)), set_rows_field [] t).
Proof.
  intros Hr H0 Hne. unfold set_rows.
  rewrite (bind_ok _ _ t (set_rows_field [] t) tt) by reflexivity.
  assert (Hr' : _row_size (set_rows_field [] t) = Some r)
    by (destruct t; exact Hr).
  unfold add_rows. destruct with_header.
  - apply bind_raise. unfold header. apply check_refused; assumption.
  - cbn [for_each]. apply bind_raise. unfold add_row.
    apply check_refused; assumption.
Qed.

Lemma failed_set_rows_drops_the_rows_witness :
  set_rows [[s2l "only"]] false one_row_table
  = (Raise (ArraySizeError [2] (len [s2l "only"])),
     set_rows_field [] one_row_table).
Proof.
  apply (failed_set_rows_drops_the_rows one_row_table 2).
  - reflexivity.
  - discriminate.
  - discriminate.
Defined.


(** ** Starting over *)

Lemma skipn_nth_error {A} (l : list A) (i : nat) (x : A) :
  nth_error l i = Some x -> skipn i l = x :: skipn (S i) l.
Proof.
  revert i. induction l as [|y l IH]; intros i H; destruct i; simpl in H;
    try discriminate.
  - inversion H. reflexivity.
  - cbn [skipn]. apply IH. exact H.
Qed.

Lemma format_cells_short (t : UniTable) (d : list char) (array : list str) :
  t.(_dtype) = Some d -> Forall textual array ->
  forall i, (i <= length d)%nat -> (length d < i + length array)%nat ->
            format_cells i array t
            = (Raise (if forallb known_dtype (skipn i d)
                      then IndexError else KeyError), t).
Proof.
  intros Hd Harr. induction Harr as [|x rest Hx Hrest IH]; intros i Hi Hlt.
  - simpl in Hlt. lia.
  - rewrite format_cells_cons.
    destruct (nth_error d i) as [c|] eqn:Hc.
    + assert (i < length d)%nat.
      { apply (proj1 (nth_error_Some d i)). intros E. unfold char in *.
        rewrite Hc in E. discriminate. }
      rewrite (skipn_nth_error d i c Hc). cbn [forallb].
      unfold known_dtype at 1.
      destruct (format_map c) as [f|] eqn:Hf.
      * assert (Hkc : format_map c <> None) by (rewrite Hf; discriminate).
        rewrite (_str_textual t d i c x Hd Hc Hkc Hx).
        rewrite (IH (S i)) by (simpl in Hlt; lia). reflexivity.
      * unfold _str, bind, get, raise. cbn [fst snd]. rewrite Hd, Hc, Hf.
        reflexivity.
    + apply nth_error_None in Hc.
      rewrite skipn_all2 by exact Hc. cbn [forallb].
      unfold _str, bind, get, raise. cbn [fst snd].
      apply nth_error_None in Hc. rewrite Hd, Hc. reflexivity.
Qed.

(** X25: [reset] empties the table and forgets its arity, but keeps the
    column types.  A first row of cells that [float] rejects, with more
    cells than the column types kept from before, is then refused: with
    a key error when one of the kept types is not a letter of the format
    map, with an index error otherwise; in both cases after the new
    arity has been recorded and without the row being stored. *)
Theorem reset_keeps_column_types (t : UniTable) (d : list char)
  (array : list str) :
  t.(_dtype) = Some d ->
  Forall textual array -> (length d < length array)%nat ->
  (exec reset t).(_rows) = [] /\ (exec reset t).(_header) = []
  /\ (exec reset t).(_row_size) = None
  /\ add_row array (exec reset t)
     = (Raise (if forallb known_dtype d then IndexError else KeyError),
        set_row_size (Some (len array)) (exec reset t)).
Proof.
  intros Hd Hx Hlt.
  split; [destruct t; reflexivity|]. split; [destruct t; reflexivity|].
  split; [destruct t; reflexivity|].
  set (t0 := exec reset t).
  assert (Hu : row_size_unset t0 = true) by (destruct t; reflexivity).
  assert (Hd0 : _dtype (set_row_size (Some (len array)) t0) = Some d)
    by (destruct t; exact Hd).
  unfold add_row.
  rewrite (bind_ok _ _ t0 (set_row_size (Some (len array)) t0) tt)
    by (rewrite _check_row_size_spec, Hu; reflexivity).
  unfold bind at 1. unfold get. cbn [fst snd]. rewrite Hd0.
  unfold bind at 1. unfold ret. cbn [fst snd].
  apply bind_raise.
  apply (format_cells_short _ d array Hd0 Hx O); simpl; lia.
Qed.

Lemma reset_keeps_column_types_witness :
  (exec reset text_table).(_rows) = []
  /\ (exec reset text_table).(_header) = []
  /\ (exec reset text_table).(_row_size) = None
  /\ add_row [s2l "brown"; s2l "Name"; s2l "z"] (exec reset text_table)
     = (Raise IndexError,
        set_row_size (Some (len [s2l "brown"; s2l "Name"; s2l "z"]))
          (exec reset text_table)).
Proof.
  apply (reset_keeps_column_types text_table (s2l "tt")).
  - reflexivity.
  - repeat constructor.
  - simpl. lia.
Defined.
